(** * Monster-Weapon-3d: the maze generator, the content placer, the camera
      projection, the quad renderer, the player and its physics, the
      battles and treasures of a session, and the boxes and statistics of
      the text game, embedded from [src/game_3d_enhanced.py] and
      [src/game_functions.py].

    Part I holds the model, module by module in the order of the source.
    Part II holds the lemmas and the theorems about it.

    Conventions of the embedding.
    - Python integers are [Z]; [//] is [Z.div] and [%] is [Z.modulo] (both
      round towards minus infinity for a positive divisor, as Python does).
    - A Python list is a [list]; indexing follows Python: a negative index
      counts from the end and an index out of range raises [IndexError].
    - A computation that may raise returns a [result]; a computation that
      also calls the [random] module is a [Rand]: it reads an explicit
      entropy tape, one integer per call of the generator's core.
    - The [while] loop of the carver takes fuel; [OutOfFuel] is a result of
      its own, never confused with a Python exception.
    - Floats that decide a branch of the generator ([wall_count >
      total_cells * 0.8], [random.random() < 0.3]) or of [interact]
      ([distance > 2.5]) are IEEE binary64 ([PrimFloat]); camera and
      player coordinates are real numbers. *)

From Stdlib Require Import ZArith List Bool Lia Floats Uint63.
From Stdlib Require Reals Lra.
From stdpp Require Import base option list strings gmap.

Local Open Scope Z_scope.

(* ===================================================================== *)
(** * Part I.  The model                                                  *)
(* ===================================================================== *)

(* --------------------------------------------------------------------- *)
(** ** The Python runtime: exceptions, lists, ranges, [random]            *)
(* --------------------------------------------------------------------- *)
Module Py.

Inductive exn : Type :=
| AttributeError
| IndexError
| ValueError
| ZeroDivisionError.

Inductive result (A : Type) : Type :=
| Ok (a : A)
| Raise (e : exn)
| OutOfFuel.
Arguments Ok {A} a.
Arguments Raise {A} e.
Arguments OutOfFuel {A}.

(** The computation returned: it neither raised nor ran out of fuel. *)
Definition is_ok {A} (c : result A) : bool :=
  match c with Ok _ => true | _ => false end.

Definition rbind {A B} (c : result A) (k : A -> result B) : result B :=
  match c with
  | Ok a => k a
  | Raise e => Raise e
  | OutOfFuel => OutOfFuel
  end.

(** The entropy tape: what the Mersenne twister would deliver, one integer
    per call of [_randbelow] or [random()].  An exhausted tape reads 0. *)
Definition entropy : Type := list Z.

Definition Rand (A : Type) : Type := entropy -> result (A * entropy).

Definition ret {A} (a : A) : Rand A := fun e => Ok (a, e).

Definition bind {A B} (c : Rand A) (k : A -> Rand B) : Rand B :=
  fun e => match c e with
           | Ok (a, e') => k a e'
           | Raise x => Raise x
           | OutOfFuel => OutOfFuel
           end.

Definition lift {A} (c : result A) : Rand A :=
  fun e => match c with
           | Ok a => Ok (a, e)
           | Raise x => Raise x
           | OutOfFuel => OutOfFuel
           end.

Definition raise {A} (x : exn) : Rand A := fun _ => Raise x.

Definition draw : Rand Z :=
  fun e => match e with
           | [] => Ok (0, [])
           | k :: e' => Ok (k, e')
           end.

(** [for x in xs: s = body(x, s)] in each of the two monads. *)
Fixpoint for_ {A S} (xs : list A) (body : A -> S -> result S) (s : S) : result S :=
  match xs with
  | [] => Ok s
  | x :: xs' => rbind (body x s) (for_ xs' body)
  end.

Fixpoint forR {A S} (xs : list A) (body : A -> S -> Rand S) (s : S) : Rand S :=
  match xs with
  | [] => ret s
  | x :: xs' => bind (body x s) (forR xs' body)
  end.

(** [range(a, b)] and [range(a, b, step)] for a positive step. *)
Definition range (a b : Z) : list Z := seqZ a (b - a).

Definition range3 (a b step : Z) : list Z :=
  (fun i => a + step * i) <$> seqZ 0 ((b - a + step - 1) / step).

(** [l[i]] and [l[i] = v]. *)
Definition index {A} (l : list A) (i : Z) : option nat :=
  let n := Z.of_nat (length l) in
  let j := if i <? 0 then i + n else i in
  if (0 <=? j) && (j <? n) then Some (Z.to_nat j) else None.

Definition getitem {A} (l : list A) (i : Z) : result A :=
  match index l i with
  | Some j => match l !! j with Some a => Ok a | None => Raise IndexError end
  | None => Raise IndexError
  end.

Definition setitem {A} (l : list A) (i : Z) (v : A) : result (list A) :=
  match index l i with
  | Some j => Ok (<[j := v]> l)
  | None => Raise IndexError
  end.

(** [random._randbelow(n)], [random.randrange], [random.randint],
    [random.choice], [random.shuffle] (Fisher-Yates from the last index
    down, as CPython writes it), [random.random] and [random.uniform]. *)
Definition randbelow (n : Z) : Rand Z :=
  bind draw (fun k => ret (k mod n)).

Definition randrange (start stop step : Z) : Rand Z :=
  let width := stop - start in
  if step =? 1 then
    if 0 <? width then bind (randbelow width) (fun k => ret (start + k))
    else raise ValueError
  else if 0 <? step then
    let n := (width + step - 1) / step in
    if n <=? 0 then raise ValueError
    else bind (randbelow n) (fun k => ret (start + step * k))
  else raise ValueError.

Definition randint (a b : Z) : Rand Z := randrange a (b + 1) 1.

Definition choice {A} (l : list A) : Rand A :=
  match l with
  | [] => raise IndexError
  | _ => bind (randbelow (Z.of_nat (length l))) (fun k => lift (getitem l k))
  end.

Definition swap {A} (x : list A) (i j : nat) : list A :=
  match x !! i, x !! j with
  | Some a, Some b => <[j := a]> (<[i := b]> x)
  | _, _ => x
  end.

Fixpoint shuffle_from {A} (i : nat) (x : list A) : Rand (list A) :=
  match i with
  | O => ret x
  | S i' => bind (randbelow (Z.of_nat i + 1))
              (fun j => shuffle_from i' (swap x i (Z.to_nat j)))
  end.

Definition shuffle {A} (x : list A) : Rand (list A) :=
  shuffle_from (length x - 1)%nat x.

Definition float_of_int (n : Z) : float :=
  if n <? 0 then PrimFloat.opp (PrimFloat.of_uint63 (Uint63.of_Z (- n)))
  else PrimFloat.of_uint63 (Uint63.of_Z n).

(** [random.random()]: a 53-bit integer scaled by [2^-53]. *)
Definition random : Rand float :=
  bind draw (fun k =>
    ret (PrimFloat.mul (float_of_int (k mod 9007199254740992)) 0x1p-53%float)).

Definition uniform (a b : float) : Rand float :=
  bind random (fun r => ret (PrimFloat.add a (PrimFloat.mul (PrimFloat.sub b a) r))).

End Py.

Import Py.

Notation "x <- c ;; k" := (Py.bind c (fun x => k))
  (at level 100, c at next level, right associativity, only parsing).
Notation "x <~ c ;; k" := (Py.rbind c (fun x => k))
  (at level 100, c at next level, right associativity, only parsing).

(* --------------------------------------------------------------------- *)
(** ** [class MazeMap]: the generator                                     *)
(* --------------------------------------------------------------------- *)
Module Maze.

(** [maze[y][x]]: rows first.  Tags: 0 wall, 1 corridor, 2 room, 3 door. *)
Abbreviation grid := (list (list Z)).

Definition grid_get (maze : grid) (y x : Z) : result Z :=
  row <~ getitem maze y ;; getitem row x.

Definition grid_set (maze : grid) (y x v : Z) : result grid :=
  row <~ getitem maze y ;;
  row' <~ setitem row x v ;;
  setitem maze y row'.

(** The tag at column [x], row [z] for coordinates inside the grid, and
    [None] outside: what [maze[z][x]] reads under the bounds tests of the
    source. *)
Definition cell (maze : grid) (x z : Z) : option Z :=
  if (0 <=? x) && (0 <=? z) then
    maze !! Z.to_nat z ≫= (fun row => row !! Z.to_nat x)
  else None.

(** [v in [1, 2, 3]] *)
Definition walkable (v : Z) : bool := (v =? 1) || (v =? 2) || (v =? 3).

Record Room : Type := mkRoom {
  room_x : Z; room_y : Z; room_width : Z; room_height : Z;
  center_x : Z; center_y : Z }.

(** [__init__], lines 37-38: [width if width % 2 == 1 else width + 1]. *)
Definition effective (n : Z) : Z := if n mod 2 =? 1 then n else n + 1.

(** [generate_maze], line 67 and lines 70-72. *)
Definition new_maze (width height : Z) : grid :=
  replicate (Z.to_nat height) (replicate (Z.to_nat width) 0).

Definition clear_maze (width height : Z) (maze : grid) : result grid :=
  for_ (range 0 height) (fun y maze =>
    for_ (range 0 width) (fun x maze => grid_set maze y x 0) maze) maze.

(** Lines 78-79. *)
Definition start_coord (n : Z) : Z := 12 + (n / 24) * 12.

(** Lines 82-85 and again lines 121-124: the 7x7 block around a cell,
    clipped to the grid. *)
Definition open_block (width height cx cy : Z) (maze : grid) : result grid :=
  for_ (range (-3) 4) (fun dy maze =>
    for_ (range (-3) 4) (fun dx maze =>
      if (0 <=? cy + dy) && (cy + dy <? height) &&
         (0 <=? cx + dx) && (cx + dx <? width)
      then grid_set maze (cy + dy) (cx + dx) 1
      else Ok maze) maze) maze.

(** [dx // abs(dx) if dx != 0 else 0] *)
Definition unit_dir (d : Z) : Z := if d =? 0 then 0 else d / Z.abs d.

(** Lines 106-118: the corridor, 7 cells wide, between two coarse cells. *)
Definition carve_corridor (width height cx cy dx dy : Z) (maze : grid) : result grid :=
  for_ (range 1 (Z.abs dx + Z.abs dy)) (fun corridor_step maze =>
    let step_x := cx + unit_dir dx * corridor_step in
    let step_y := cy + unit_dir dy * corridor_step in
    if negb (dx =? 0) then
      for_ (range (-3) 4) (fun offset maze =>
        if (0 <=? step_y + offset) && (step_y + offset <? height)
        then grid_set maze (step_y + offset) step_x 1
        else Ok maze) maze
    else
      for_ (range (-3) 4) (fun offset maze =>
        if (0 <=? step_x + offset) && (step_x + offset <? width)
        then grid_set maze step_y (step_x + offset) 1
        else Ok maze) maze) maze.

(** Lines 98-129: the [for dx, dy in directions] loop with its [break].
    The answer is the maze and the cell pushed, if any. *)
Fixpoint try_directions (width height : Z) (cur : Z * Z) (dirs : list (Z * Z))
    (maze : grid) : result (grid * option (Z * Z)) :=
  match dirs with
  | [] => Ok (maze, None)
  | (dx, dy) :: rest =>
      let nx := cur.1 + dx in
      let ny := cur.2 + dy in
      if (6 <=? nx) && (nx <? width - 6) && (6 <=? ny) && (ny <? height - 6) then
        v <~ grid_get maze ny nx ;;
        if v =? 0 then
          maze1 <~ carve_corridor width height cur.1 cur.2 dx dy maze ;;
          maze2 <~ open_block width height nx ny maze1 ;;
          Ok (maze2, Some (nx, ny))
        else try_directions width height cur rest maze
      else try_directions width height cur rest maze
  end.

Definition directions : list (Z * Z) := [(0, 12); (12, 0); (0, -12); (-12, 0)].

(** Lines 89-133: [while stack].  The head of the list is [stack[-1]]. *)
Fixpoint carve_loop (fuel : nat) (width height : Z) (maze : grid)
    (stack : list (Z * Z)) : Rand grid :=
  match stack with
  | [] => ret maze
  | cur :: below =>
      match fuel with
      | O => fun _ => OutOfFuel
      | S fuel' =>
          dirs <- shuffle directions ;;
          r <- lift (try_directions width height cur dirs maze) ;;
          match r.2 with
          | Some next => carve_loop fuel' width height r.1 (next :: stack)
          | None => carve_loop fuel' width height r.1 below
          end
      end
  end.

(** Every iteration pushes a cell that was a wall or pops one: twice the
    number of cells, and one, bounds the iterations. *)
Definition carve_fuel (width height : Z) : nat :=
  (2 * (Z.to_nat width * Z.to_nat height) + 2)%nat.

(** [add_rooms], lines 157-163. *)
Definition count_walls (maze : grid) (room_x room_y room_w room_h : Z) : result Z :=
  for_ (range room_y (room_y + room_h)) (fun ry wall_count =>
    for_ (range room_x (room_x + room_w)) (fun rx wall_count =>
      v <~ grid_get maze ry rx ;;
      Ok (if v =? 0 then wall_count + 1 else wall_count)) wall_count) 0.

(** Line 166: [wall_count > total_cells * 0.8], in binary64. *)
Definition mostly_walls (wall_count total_cells : Z) : bool :=
  PrimFloat.ltb
    (PrimFloat.mul (float_of_int total_cells) 0x1.999999999999ap-1%float)
    (float_of_int wall_count).

(** Lines 168-170. *)
Definition carve_room (room_x room_y room_w room_h : Z) (maze : grid) : result grid :=
  for_ (range (room_y + 1) (room_y + room_h - 1)) (fun ry maze =>
    for_ (range (room_x + 1) (room_x + room_w - 1)) (fun rx maze =>
      grid_set maze ry rx 2) maze) maze.

Inductive side : Type := top | bottom | left | right.

(** One side of [connect_room_to_maze]: the first candidate whose guard
    holds and whose probe cell is a corridor gets a door; [break]. *)
Fixpoint first_passage (cands : list Z) (guard : Z -> bool)
    (probe door : Z -> Z * Z) (maze : grid) : result (grid * bool) :=
  match cands with
  | [] => Ok (maze, false)
  | c :: rest =>
      if guard c then
        v <~ grid_get maze (probe c).1 (probe c).2 ;;
        if v =? 1 then
          maze' <~ grid_set maze (door c).1 (door c).2 3 ;;
          Ok (maze', true)
        else first_passage rest guard probe door maze
      else first_passage rest guard probe door maze
  end.

(** Lines 196-223; probe and door are (row, column). *)
Definition connect_side (width height rx ry rw rh : Z) (s : side) (maze : grid)
    : result (grid * bool) :=
  match s with
  | top =>
      first_passage (range3 (rx + 2) (rx + rw - 2) 2)
        (fun x => (2 <? ry) && (0 <=? x) && (x <? width) && (0 <=? ry - 2))
        (fun x => (ry - 2, x)) (fun x => (ry - 1, x)) maze
  | bottom =>
      first_passage (range3 (rx + 2) (rx + rw - 2) 2)
        (fun x => (ry + rh <? height - 2) && (0 <=? x) && (x <? width) &&
                  (ry + rh + 1 <? height))
        (fun x => (ry + rh + 1, x)) (fun x => (ry + rh, x)) maze
  | left =>
      first_passage (range3 (ry + 2) (ry + rh - 2) 2)
        (fun y => (2 <? rx) && (0 <=? y) && (y <? height) && (0 <=? rx - 2))
        (fun y => (y, rx - 2)) (fun y => (y, rx - 1)) maze
  | right =>
      first_passage (range3 (ry + 2) (ry + rh - 2) 2)
        (fun y => (rx + rw <? width - 2) && (0 <=? y) && (y <? height) &&
                  (rx + rw + 1 <? width))
        (fun y => (y, rx + rw + 1)) (fun y => (y, rx + rw)) maze
  end.

(** Lines 192-223: [for side in sides], left when enough doors exist. *)
Fixpoint connect_sides (width height rx ry rw rh : Z) (sides : list side)
    (connections max_connections : Z) (maze : grid) : result grid :=
  match sides with
  | [] => Ok maze
  | s :: rest =>
      if max_connections <=? connections then Ok maze
      else
        r <~ connect_side width height rx ry rw rh s maze ;;
        connect_sides width height rx ry rw rh rest
          (if r.2 then connections + 1 else connections) max_connections r.1
  end.

Definition connect_room_to_maze (width height rx ry rw rh : Z) (maze : grid)
    : Rand grid :=
  max_connections <- randint 2 4 ;;
  sides <- shuffle [top; bottom; left; right] ;;
  lift (connect_sides width height rx ry rw rh sides 0 max_connections maze).

(** [add_rooms], lines 149-154: the size and the place of a candidate,
    as (room_x, room_y, room_w, room_h). *)
Definition room_candidate (width height : Z) : Rand (Z * Z * Z * Z) :=
  room_w <- randrange 15 26 2 ;;
  room_h <- randrange 15 26 2 ;;
  room_x <- randrange 5 (width - room_w - 5) 2 ;;
  room_y <- randrange 5 (height - room_h - 5) 2 ;;
  ret (room_x, room_y, room_w, room_h).

(** Lines 156-181 for one candidate.  [rooms] is the attribute
    [self.rooms]: [None] while the object has no such attribute, and then
    [self.rooms.append] raises [AttributeError]. *)
Definition overlay_room (width height : Z) (c : Z * Z * Z * Z)
    (st : grid * option (list Room)) : Rand (grid * option (list Room)) :=
  let room_x := c.1.1.1 in
  let room_y := c.1.1.2 in
  let room_w := c.1.2 in
  let room_h := c.2 in
  wall_count <- lift (count_walls st.1 room_x room_y room_w room_h) ;;
  if mostly_walls wall_count (room_w * room_h) then
    maze1 <- lift (carve_room room_x room_y room_w room_h st.1) ;;
    match st.2 with
    | None => raise AttributeError
    | Some rooms =>
        let rooms' := rooms ++ [mkRoom room_x room_y room_w room_h
                                  (room_x + room_w / 2) (room_y + room_h / 2)] in
        maze2 <- connect_room_to_maze width height room_x room_y room_w room_h maze1 ;;
        ret (maze2, Some rooms')
    end
  else ret st.

(** The body of the loop of [add_rooms], lines 148-181. *)
Definition add_room (width height : Z) (st : grid * option (list Room))
    : Rand (grid * option (list Room)) :=
  c <- room_candidate width height ;;
  overlay_room width height c st.

Definition add_rooms (width height : Z) (st : grid * option (list Room))
    : Rand (grid * option (list Room)) :=
  num_rooms <- randint 8 15 ;;
  forR (range 0 num_rooms) (fun _ => add_room width height) st.

(** [a in [1,2,3] and b in [1,2,3] and random.random() < 0.3], with the
    short circuit: the generator is asked only when both cells are open. *)
Definition opposite_open (maze : grid) (y1 x1 y2 x2 : Z) : Rand bool :=
  a <- lift (grid_get maze y1 x1) ;;
  if walkable a then
    b <- lift (grid_get maze y2 x2) ;;
    if walkable b then
      r <- random ;;
      ret (PrimFloat.ltb r 0x1.3333333333333p-2%float)
    else ret false
  else ret false.

(** One pass of the loop of [add_random_connections], lines 234-248. *)
Definition try_connection (width height : Z) (st : grid * Z) : Rand (grid * Z) :=
  x <- randrange 2 (width - 2) 1 ;;
  y <- randrange 2 (height - 2) 1 ;;
  v <- lift (grid_get st.1 y x) ;;
  if v =? 0 then
    horizontal <- opposite_open st.1 y (x - 1) y (x + 1) ;;
    if horizontal then
      maze' <- lift (grid_set st.1 y x 3) ;;
      ret (maze', st.2 + 1)
    else
      vertical <- opposite_open st.1 (y - 1) x (y + 1) x ;;
      if vertical then
        maze' <- lift (grid_set st.1 y x 3) ;;
        ret (maze', st.2 + 1)
      else ret st
  else ret st.

Fixpoint connection_attempts (n : nat) (width height max_connections : Z)
    (st : grid * Z) : Rand (grid * Z) :=
  match n with
  | O => ret st
  | S n' =>
      if max_connections <=? st.2 then ret st
      else
        st' <- try_connection width height st ;;
        connection_attempts n' width height max_connections st'
  end.

Definition add_random_connections (width height : Z) (maze : grid) : Rand grid :=
  max_connections <- randint 15 25 ;;
  st <- connection_attempts (Z.to_nat (max_connections * 3)) width height
          max_connections (maze, 0) ;;
  ret st.1.

(** [generate_maze], lines 65-141, as a function of the fields of [self]
    it reads: [width], [height] and, through [add_rooms], [rooms]. *)
Definition generate_maze (width height : Z) (rooms : option (list Room))
    : Rand (grid * option (list Room)) :=
  maze0 <- lift (clear_maze width height (new_maze width height)) ;;
  let start_x := start_coord width in
  let start_y := start_coord height in
  maze1 <- lift (open_block width height start_x start_y maze0) ;;
  maze2 <- carve_loop (carve_fuel width height) width height maze1
             [(start_x, start_y)] ;;
  st <- add_rooms width height (maze2, rooms) ;;
  maze3 <- add_random_connections width height st.1 ;;
  ret (maze3, st.2).

(** [convert_maze_to_terrain], lines 250-267: a wall cell gets
    [wall_height + random.uniform(2.0, 4.0)], a floor cell [base_level]
    (stored here as the float it converts to). *)
Definition terrain_cell (base_level wall_height v : Z) : Rand float :=
  if v =? 0 then
    height_variation <- uniform 2%float 4%float ;;
    ret (PrimFloat.add (float_of_int wall_height) height_variation)
  else ret (float_of_int base_level).

Definition convert_maze_to_terrain (width height base_level wall_height : Z)
    (maze : grid) : Rand (list (list float)) :=
  forR (range 0 height) (fun y terrain =>
    row <- forR (range 0 width) (fun x row =>
             v <- lift (grid_get maze y x) ;;
             c <- terrain_cell base_level wall_height v ;;
             ret (row ++ [c])) [] ;;
    ret (terrain ++ [row])) [].

(** [get_random_monster] of [game_functions]: the three kinds; the [info]
    entry of a monster is a function of its name. *)
Inductive monster_kind : Type := sarkany | troll | boszorkany.

Definition get_random_monster : Rand monster_kind :=
  choice [sarkany; troll; boszorkany].

Record Monster : Type := mkMonster {
  monster_name : monster_kind; defeated : bool; health : Z }.

Inductive loot : Type := loot_health | mega_health | weapon_upgrade | points.

Record Treasure : Type := mkTreasure { opened : bool; contents : loot }.

Inductive location_type : Type := room_center | dead_end | random_spot.

(** The list comprehension shape [for y in ys: for x in xs: if test: append]. *)
Definition collect_cells (ys xs : list Z) (test : Z -> Z -> Rand bool)
    : Rand (list (Z * Z)) :=
  forR ys (fun y acc =>
    forR xs (fun x acc =>
      b <- test x y ;;
      ret (if b then acc ++ [(x, y)] else acc)) acc) [].

(** [place_monsters], lines 402-405: Manhattan distance below 3 to a key. *)
Definition too_close (monsters : gmap (Z * Z) Monster) (x z : Z) : bool :=
  existsb (fun k => Z.abs (x - k.1) + Z.abs (z - k.2) <? 3)
          (map_to_list monsters).*1.

(** Lines 396-422, one position of the shuffled list. *)
Definition place_monster (maze : grid) (num_monsters : Z) (pos : Z * Z)
    (st : gmap (Z * Z) Monster * Z) : Rand (gmap (Z * Z) Monster * Z) :=
  if num_monsters <=? st.2 then ret st
  else if too_close st.1 pos.1 pos.2 then ret st
  else
    monster_name <- get_random_monster ;;
    v <- lift (grid_get maze pos.2 pos.1) ;;
    health_bonus <- (if v =? 2 then randint 1 2 else ret 0) ;;
    base <- randint 2 4 ;;
    ret (<[pos := mkMonster monster_name false (base + health_bonus)]> st.1,
         st.2 + 1).

Definition place_monsters (width height : Z) (maze : grid)
    : Rand (gmap (Z * Z) Monster) :=
  num_monsters <- randint 20 35 ;;
  valid_positions <-
    collect_cells (range 1 (height - 1)) (range 1 (width - 1))
      (fun x y => v <- lift (grid_get maze y x) ;; ret (walkable v)) ;;
  shuffled <- shuffle valid_positions ;;
  st <- forR shuffled (place_monster maze num_monsters) (∅, 0) ;;
  ret st.1.

(** [place_treasures], lines 445-453: open cells among the 8 neighbours. *)
Definition adjacent_floors (width height : Z) (maze : grid) (x y : Z) : result Z :=
  for_ [-1; 0; 1] (fun dy n =>
    for_ [-1; 0; 1] (fun dx n =>
      if (dy =? 0) && (dx =? 0) then Ok n
      else
        let nx := x + dx in
        let ny := y + dy in
        if (0 <=? nx) && (nx <? width) && (0 <=? ny) && (ny <? height) then
          v <~ grid_get maze ny nx ;;
          Ok (if walkable v then n + 1 else n)
        else Ok n) n) 0.

Definition tag (t : location_type) (l : list (Z * Z)) : list (Z * Z * location_type) :=
  (fun p => (p.1, p.2, t)) <$> l.

(** Lines 476-482. *)
Definition treasure_type (t : location_type) : Rand loot :=
  match t with
  | room_center => choice [mega_health; weapon_upgrade; points; mega_health]
  | dead_end => choice [loot_health; weapon_upgrade; points]
  | random_spot => choice [loot_health; points; loot_health]
  end.

(** Lines 471-488, one entry of the shuffled list. *)
Definition place_treasure (monsters : gmap (Z * Z) Monster) (num_treasures : Z)
    (c : Z * Z * location_type) (st : gmap (Z * Z) Treasure * Z)
    : Rand (gmap (Z * Z) Treasure * Z) :=
  if num_treasures <=? st.2 then ret st
  else
    let pos := c.1 in
    if bool_decide (monsters !! pos = None) && bool_decide (st.1 !! pos = None)
    then
      kind <- treasure_type c.2 ;;
      ret (<[pos := mkTreasure false kind]> st.1, st.2 + 1)
    else ret st.

Definition place_treasures (width height : Z) (maze : grid) (rooms : list Room)
    (monsters : gmap (Z * Z) Monster) : Rand (gmap (Z * Z) Treasure) :=
  num_treasures <- randint 15 25 ;;
  let centers :=
    filter (fun p => monsters !! p = None)
           ((fun r => (center_x r, center_y r)) <$> rooms) in
  dead_ends <-
    collect_cells (range 1 (height - 1)) (range 1 (width - 1))
      (fun x y =>
         v <- lift (grid_get maze y x) ;;
         if (v =? 1) || (v =? 3) then
           n <- lift (adjacent_floors width height maze x y) ;;
           ret (n <=? 2)
         else ret false) ;;
  randoms <-
    collect_cells (range 1 (height - 1)) (range 1 (width - 1))
      (fun x y =>
         v <- lift (grid_get maze y x) ;;
         if walkable v && bool_decide (monsters !! (x, y) = None) then
           r <- random ;;
           ret (PrimFloat.ltb r 0x1.999999999999ap-4%float)
         else ret false) ;;
  let treasure_positions :=
    tag room_center centers ++ tag dead_end dead_ends ++ tag random_spot randoms in
  shuffled <- shuffle treasure_positions ;;
  st <- forR shuffled (place_treasure monsters num_treasures) (∅, 0) ;;
  ret st.1.

Record MazeMap : Type := mkMazeMap {
  width : Z; height : Z; base_level : Z;
  wall_height : Z; ceiling_height : Z;
  maze : grid;
  terrain : list (list float);
  rooms : list Room;
  monsters : gmap (Z * Z) Monster;
  treasures : gmap (Z * Z) Treasure }.

(** [MazeMap.__init__], lines 36-48.  [generate_maze] runs at line 44,
    before line 46 creates [self.rooms]: it is called with no [rooms]
    attribute, and line 46 then sets the attribute to the empty list
    whatever [add_rooms] did. *)
Definition MazeMap_init (width height base_level : Z) : Rand MazeMap :=
  let width := effective width in
  let height := effective height in
  let wall_height := 8 in
  let ceiling_height := 8 in
  generated <- generate_maze width height None ;;
  let maze := generated.1 in
  terrain <- convert_maze_to_terrain width height base_level wall_height maze ;;
  let rooms := [] in
  monsters <- place_monsters width height maze ;;
  treasures <- place_treasures width height maze rooms monsters ;;
  ret (mkMazeMap width height base_level wall_height ceiling_height
         maze terrain rooms monsters treasures).

End Maze.

(* --------------------------------------------------------------------- *)
(** ** [Vector3D], [Player], [Camera], the quads of [Renderer], [Game3D]  *)
(* --------------------------------------------------------------------- *)
Module Engine.
Import Reals.
Import Maze.
Local Open Scope R_scope.

Record Vector3D : Type := mkVector3D { vx : R; vy : R; vz : R }.

Definition leb_R (a b : R) : bool := if Rle_dec a b then true else false.
Definition ltb_R (a b : R) : bool := if Rlt_dec a b then true else false.

(** [int(x)] of a float: truncation towards zero. *)
Definition int_of_float (r : R) : Z :=
  if Rle_dec 0 r then Int_part r else (- Int_part (- r))%Z.

(** [math.radians] *)
Definition radians (x : R) : R := x * (PI / 180).

Record Player : Type := mkPlayer {
  position : Vector3D;
  rotation_y : R; rotation_x : R;
  speed : R;
  max_hp : Z; hp : Z;
  velocity_y : R; is_jumping : bool;
  experience : Z; level : Z }.

(** [Player.__init__], lines 509-525 (weapon, statistics and the unused
    safe height are left out: no operation below reads them). *)
Definition Player_init (start_x start_z : R) : Player :=
  mkPlayer (mkVector3D start_x (7 / 10) start_z) 0 0 (2 / 10) 5 5 0 false 0 1.

Definition set_position (self : Player) (p : Vector3D) : Player :=
  mkPlayer p (rotation_y self) (rotation_x self) (speed self)
    (max_hp self) (hp self) (velocity_y self) (is_jumping self)
    (experience self) (level self).

(** [Player.can_move_to], lines 563-578. *)
Definition can_move_to (new_x new_z : R) (maze_map : MazeMap) : result bool :=
  let buffer := 2 / 10 in
  if negb (leb_R buffer new_x && ltb_R new_x (IZR (width maze_map) - buffer) &&
           leb_R buffer new_z && ltb_R new_z (IZR (height maze_map) - buffer))
  then Ok false
  else
    let maze_x := int_of_float new_x in
    let maze_z := int_of_float new_z in
    v <~ grid_get (maze maze_map) maze_z maze_x ;;
    Ok (walkable v).

(** Lines 603-616, the same in all four movement methods: the direct
    move, else the slide along x, else the slide along z. *)
Definition try_move (self : Player) (new_x new_z : R) (maze_map : MazeMap)
    : result Player :=
  let p := position self in
  direct <~ can_move_to new_x new_z maze_map ;;
  if negb direct then
    slide_x <~ can_move_to new_x (vz p) maze_map ;;
    if slide_x then Ok (set_position self (mkVector3D new_x (vy p) (vz p)))
    else
      slide_z <~ can_move_to (vx p) new_z maze_map ;;
      if slide_z then Ok (set_position self (mkVector3D (vx p) (vy p) new_z))
      else Ok self
  else Ok (set_position self (mkVector3D new_x (vy p) new_z)).

Definition move_forward (self : Player) (maze_map : MazeMap) : result Player :=
  let cos_y := cos (radians (- rotation_y self)) in
  let sin_y := sin (radians (- rotation_y self)) in
  let forward_x := sin_y in
  let forward_z := cos_y in
  try_move self (vx (position self) + forward_x * speed self)
                (vz (position self) + forward_z * speed self) maze_map.

Definition move_backward (self : Player) (maze_map : MazeMap) : result Player :=
  let cos_y := cos (radians (- rotation_y self)) in
  let sin_y := sin (radians (- rotation_y self)) in
  let backward_x := - sin_y in
  let backward_z := - cos_y in
  try_move self (vx (position self) + backward_x * speed self)
                (vz (position self) + backward_z * speed self) maze_map.

Definition strafe_left (self : Player) (maze_map : MazeMap) : result Player :=
  let cos_y := cos (radians (- rotation_y self)) in
  let sin_y := sin (radians (- rotation_y self)) in
  let left_x := - cos_y in
  let left_z := sin_y in
  try_move self (vx (position self) + left_x * speed self)
                (vz (position self) + left_z * speed self) maze_map.

Definition strafe_right (self : Player) (maze_map : MazeMap) : result Player :=
  let cos_y := cos (radians (- rotation_y self)) in
  let sin_y := sin (radians (- rotation_y self)) in
  let right_x := cos_y in
  let right_z := - sin_y in
  try_move self (vx (position self) + right_x * speed self)
                (vz (position self) + right_z * speed self) maze_map.

(** [Player.gain_experience], lines 702-712: the answer and the player. *)
Definition gain_experience (self : Player) (amount : Z) : bool * Player :=
  let experience' := (experience self + amount)%Z in
  let new_level := (experience' / 100 + 1)%Z in
  if (level self <? new_level)%Z then
    (true, mkPlayer (position self) (rotation_y self) (rotation_x self)
             (speed self) (max_hp self + 1) (max_hp self + 1)
             (velocity_y self) (is_jumping self) experience' new_level)
  else
    (false, mkPlayer (position self) (rotation_y self) (rotation_x self)
              (speed self) (max_hp self) (hp self)
              (velocity_y self) (is_jumping self) experience' (level self)).

Record Camera : Type := mkCamera { fov : R; near : R; far : R }.

(** [Camera.__init__], line 715. *)
Definition Camera_init : Camera := mkCamera 70 (1 / 1000) 500.

(** [Camera.project_3d_to_2d], lines 720-752.  A float division by zero
    raises; [None] is the clipped point. *)
Definition project_3d_to_2d (self : Camera) (point player_pos : Vector3D)
    (player_rot_x player_rot_y : R) (screen_width screen_height : Z)
    : result (option (Z * Z * R)) :=
  let rel_x := vx point - vx player_pos in
  let rel_y := vy point - vy player_pos in
  let rel_z := vz point - vz player_pos in
  let cos_y := cos (radians (- player_rot_y)) in
  let sin_y := sin (radians (- player_rot_y)) in
  let rotated_x := rel_x * cos_y - rel_z * sin_y in
  let rotated_z := rel_x * sin_y + rel_z * cos_y in
  let cos_x := cos (radians player_rot_x) in
  let sin_x := sin (radians player_rot_x) in
  let final_y := rel_y * cos_x - rotated_z * sin_x in
  let final_z := rel_y * sin_x + rotated_z * cos_x in
  if leb_R final_z (1 / 1000) then Ok None
  else
    let fov_factor := tan (radians (fov self / 2)) in
    if Req_dec_T (final_z * fov_factor) 0 then Raise ZeroDivisionError
    else
      let screen_x := (rotated_x / (final_z * fov_factor)) * (IZR screen_width / 2)
                      + IZR screen_width / 2 in
      let screen_y := (- final_y / (final_z * fov_factor)) * (IZR screen_height / 2)
                      + IZR screen_height / 2 in
      Ok (Some (int_of_float screen_x, int_of_float screen_y, final_z)).

Record Renderer : Type := mkRenderer {
  screen_width : Z; screen_height : Z; camera : Camera }.

(** [Renderer.__init__], lines 755-765, without the pygame handles. *)
Definition Renderer_init : Renderer := mkRenderer 1024 768 Camera_init.












(** ** [Game3D]: the spawn search *)

Local Open Scope Z_scope.

(** The guarded test of lines 1539-1541 and 1555-1557. *)
Definition walkable_at (m : MazeMap) (c : Z * Z) : result bool :=
  if (0 <=? c.1) && (c.1 <? width m) && (0 <=? c.2) && (c.2 <? height m) then
    v <~ grid_get (maze m) c.2 c.1 ;; Ok (walkable v)
  else Ok false.

(** The unguarded test of lines 1572 and 1765. *)
Definition walkable_read (m : MazeMap) (c : Z * Z) : result bool :=
  v <~ grid_get (maze m) c.2 c.1 ;; Ok (walkable v).

(** Nested [for] loops left by [break] at the first hit, in loop order. *)
Fixpoint first_hit (test : Z * Z -> result bool) (cands : list (Z * Z))
    : result (option (Z * Z)) :=
  match cands with
  | [] => Ok None
  | c :: rest =>
      b <~ test c ;;
      if b then Ok (Some c) else first_hit test rest
  end.

Definition room_centers (m : MazeMap) : list (Z * Z) :=
  (fun r => (center_x r, center_y r)) <$> rooms m.

(** [for offset in range(1, n): for dx in range(-offset, offset + 1, 2):
     for dz in range(-offset, offset + 1, 2)] *)
Definition ring_candidates (spawn_x spawn_z n : Z) : list (Z * Z) :=
  offset ← range 1 n;
  dx ← range3 (- offset) (offset + 1) 2;
  dz ← range3 (- offset) (offset + 1) 2;
  [(spawn_x + dx, spawn_z + dz)].

(** [for z in range(1, height - 1, step): for x in range(1, width - 1, step)] *)
Definition sweep_candidates (m : MazeMap) (step : Z) : list (Z * Z) :=
  z ← range3 1 (height m - 1) step;
  x ← range3 1 (width m - 1) step;
  [(x, z)].

(** Methods 1 to 3 of lines 1533-1578 and of lines 1731-1770; they differ
    in the reach of the ring search and in the step of the sweep. *)
Definition search_spawn (m : MazeMap) (ring step : Z) : result (option (Z * Z)) :=
  let spawn_x := width m / 2 in
  let spawn_z := height m / 2 in
  in_room <~ (match rooms m with
              | [] => Ok None
              | _ => first_hit (walkable_at m) (room_centers m)
              end) ;;
  match in_room with
  | Some c => Ok (Some c)
  | None =>
      nearby <~ first_hit (walkable_at m) (ring_candidates spawn_x spawn_z ring) ;;
      match nearby with
      | Some c => Ok (Some c)
      | None => first_hit (walkable_read m) (sweep_candidates m step)
      end
  end.

Definition set_maze (m : MazeMap) (g : grid) : MazeMap :=
  mkMazeMap (width m) (height m) (base_level m) (wall_height m)
    (ceiling_height m) g (terrain m) (rooms m) (monsters m) (treasures m).

(** Method 4, lines 1581-1589: the forced 5x5 room around the centre. *)
Definition force_spawn_area (m : MazeMap) (spawn_x spawn_z : Z) : result MazeMap :=
  g <~ for_ (range (-2) 3) (fun dx g =>
         for_ (range (-2) 3) (fun dz g =>
           if (0 <=? spawn_x + dx) && (spawn_x + dx <? width m) &&
              (0 <=? spawn_z + dz) && (spawn_z + dz <? height m)
           then grid_set g (spawn_z + dz) (spawn_x + dx) 2
           else Ok g) g) (maze m) ;;
  Ok (set_maze m g).

Record Game3D : Type := mkGame3D {
  renderer : Renderer; maze_map : MazeMap; player : Player }.

(** [MazeMap.get_floor_height], lines 492-495. *)
Definition get_floor_height (m : MazeMap) : R := (IZR (base_level m) - 1)%R.

(** [Game3D.__init__], lines 1524-1599. *)
Definition Game3D_init : Rand Game3D :=
  m <- MazeMap_init 81 81 0 ;;
  found <- lift (search_spawn m 30 3) ;;
  placed <- lift (match found with
                  | Some c => Ok (m, c)
                  | None =>
                      let spawn_x := width m / 2 in
                      let spawn_z := height m / 2 in
                      m' <~ force_spawn_area m spawn_x spawn_z ;;
                      Ok (m', (spawn_x, spawn_z))
                  end) ;;
  let spawn_x := placed.2.1 in
  let spawn_z := placed.2.2 in
  let player_eye_height := (get_floor_height placed.1 + 17 / 10)%R in
  let p := Player_init (IZR spawn_x) (IZR spawn_z) in
  let p := set_position p (mkVector3D (IZR spawn_x) player_eye_height (IZR spawn_z)) in
  ret (mkGame3D Renderer_init placed.1
         (mkPlayer (position p) (rotation_y p) (rotation_x p) (speed p)
            (max_hp p) (hp p) 0%R false (experience p) (level p))).

(** [Game3D.regenerate_world], lines 1722-1779: no forced area here; with
    no hit the spawn stays at the centre of the grid. *)
Definition regenerate_world (self : Game3D) : Rand Game3D :=
  m <- MazeMap_init 81 81 0 ;;
  found <- lift (search_spawn m 20 2) ;;
  let spawn := match found with
               | Some c => c
               | None => (width m / 2, height m / 2)
               end in
  let player_eye_height := (get_floor_height m + 1)%R in
  let p := player self in
  ret (mkGame3D (renderer self) m
         (mkPlayer (mkVector3D (IZR spawn.1) player_eye_height (IZR spawn.2))
            (rotation_y p) (rotation_x p) (speed p)
            (max_hp p) (hp p) 0%R false (experience p) (level p))).

(** The tag of the maze cell under the player, as line 1602 reads it. *)
Definition cell_under_player (g : Game3D) : result Z :=
  grid_get (maze (maze_map g))
    (int_of_float (vz (position (player g))))
    (int_of_float (vx (position (player g)))).

End Engine.

(* --------------------------------------------------------------------- *)
(** ** The vocabulary of the statements                                   *)
(* --------------------------------------------------------------------- *)
Module Terms.
Import Maze.

(** A cell that is not a wall. *)
Definition opened (m : grid) (c : Z * Z) : Prop :=
  exists v, cell m c.1 c.2 = Some v /\ v <> 0.

(** [grew P m m']: [m'] is [m] but for cells of [P], and those hold one of
    the tags 1, 2, 3.  Every write of the generator after the first
    clearing is of that kind. *)
Definition grew (P : Z * Z -> Prop) (m m' : grid) : Prop :=
  forall x y,
    cell m' x y = cell m x y \/
    (P (x, y) /\ is_Some (cell m x y) /\
     exists v, cell m' x y = Some v /\ walkable v = true).

(** The shape of a grid: which coordinates hold a cell. *)
Definition shaped (w h : Z) (m : grid) : Prop :=
  forall x y, is_Some (cell m x y) <-> (0 <= x < w /\ 0 <= y < h).


(** Two cells side by side, and one step of a flood fill: from an open
    cell to an open cell beside it. *)
Definition adjacent (a b : Z * Z) : Prop :=
  Z.abs (a.1 - b.1) + Z.abs (a.2 - b.2) = 1.

Definition walk (m : grid) (a b : Z * Z) : Prop :=
  opened m a /\ opened m b /\ adjacent a b.

(** What a flood fill started at [a] visits. *)
Definition reach (m : grid) (a b : Z * Z) : Prop := rtc (walk m) a b.

(** The flood fill from [s] visits every cell that is not a wall. *)
Definition flooded (m : grid) (s : Z * Z) : Prop :=
  opened m s /\ forall c, opened m c -> reach m s c.

(** The cells within 3 of the segment between two coarse cells: what one
    step of the carver may touch. *)
Definition box (a b c : Z * Z) : Prop :=
  Z.min a.1 b.1 - 3 <= c.1 <= Z.max a.1 b.1 + 3 /\
  Z.min a.2 b.2 - 3 <= c.2 <= Z.max a.2 b.2 + 3.

(** The corridor cell at distance [s] along the direction (dx, dy) from
    (cx, cy) and [off] across it. *)
Definition corridor_cell (cx cy dx dy s off : Z) : Z * Z :=
  (cx + Z.sgn dx * s + (1 - Z.abs (Z.sgn dx)) * off,
   cy + Z.sgn dy * s + (1 - Z.abs (Z.sgn dy)) * off).

Definition corridor (cx cy dx dy : Z) (c : Z * Z) : Prop :=
  exists s off, 1 <= s <= 11 /\ -3 <= off <= 3 /\
                c = corridor_cell cx cy dx dy s off.

(** Where the coarse cells of the carver lie, and the cells within 3 of
    them: the start cell is at [start_coord], every other one inside
    [6, n - 7]. *)
Definition coarse (w h : Z) (n : Z * Z) : Prop :=
  6 <= n.1 <= Z.max (w - 7) (start_coord w) /\
  6 <= n.2 <= Z.max (h - 7) (start_coord h).

Definition span (w h : Z) (c : Z * Z) : Prop :=
  3 <= c.1 <= Z.max (w - 7) (start_coord w) + 3 /\
  3 <= c.2 <= Z.max (h - 7) (start_coord h) + 3.

(** What the [while] loop of the carver keeps true of the maze and of its
    stack: the grid has its shape, the flood from the start cell is
    complete, and every stacked cell is an open coarse cell. *)
Definition carver_inv (w h : Z) (s : Z * Z) (m : grid) (stack : list (Z * Z)) : Prop :=
  shaped w h m /\ flooded m s /\
  forall n, n ∈ stack -> opened m n /\ coarse w h n.

(** The outer border of a grid, and the cells off it. *)
Definition border (w h : Z) (c : Z * Z) : Prop :=
  0 <= c.1 < w /\ 0 <= c.2 < h /\
  (c.1 = 0 \/ c.1 = w - 1 \/ c.2 = 0 \/ c.2 = h - 1).

Definition interior (w h : Z) (c : Z * Z) : Prop :=
  1 <= c.1 <= w - 2 /\ 1 <= c.2 <= h - 2.

(** Every cell holds one of the four tags. *)
Definition tagged (m : grid) : Prop :=
  forall x y v, cell m x y = Some v -> v = 0 \/ walkable v = true.



(** The wall cells left in a grid: the measure of the carver's [while]
    loop, every pass of which opens a wall cell and pushes it, or pops. *)
Definition positions (w h : Z) : list (Z * Z) :=
  list_prod (range 0 w) (range 0 h).

Definition walls_left (w h : Z) (m : grid) : nat :=
  length (filter (fun c => cell m c.1 c.2 = Some 0) (positions w h)).
End Terms.

Module GameTerms.
Import Reals.
Import Maze Engine.

(** A game state right after a spawn selection: the one [Game3D.__init__]
    returns, or the one [regenerate_world] returns from any earlier state. *)
Definition spawned (g : Game3D) : Prop :=
  exists e e',
    Game3D_init e = Ok (g, e') \/
    exists g0, regenerate_world g0 e = Ok (g, e').

(** The four movement operations, the point each aims at, and a run of
    them, as [handle_input] calls them key by key. *)
Inductive movement : Type := Forward | Backward | StrafeLeft | StrafeRight.

Definition move (op : movement) : Player -> MazeMap -> result Player :=
  match op with
  | Forward => move_forward
  | Backward => move_backward
  | StrafeLeft => strafe_left
  | StrafeRight => strafe_right
  end.

Definition target (op : movement) (self : Player) : R * R :=
  let cos_y := cos (radians (- rotation_y self)%R) in
  let sin_y := sin (radians (- rotation_y self)%R) in
  let d := match op with
           | Forward => (sin_y, cos_y)
           | Backward => (- sin_y, - cos_y)
           | StrafeLeft => (- cos_y, sin_y)
           | StrafeRight => (cos_y, - sin_y)
           end%R in
  (vx (position self) + d.1 * speed self, vz (position self) + d.2 * speed self)%R.

Fixpoint moves (ops : list movement) (self : Player) (maze_map : MazeMap)
    : result Player :=
  match ops with
  | [] => Ok self
  | op :: rest => rbind (move op self maze_map) (fun p => moves rest p maze_map)
  end.

(** The point (x, z) is outside the buffered bounds of the map, or the
    maze cell it falls in is a wall. *)
Definition wall_or_outside (maze_map : MazeMap) (x z : R) : Prop :=
  ~ (2 / 10 <= x < IZR (width maze_map) - 2 / 10 /\
     2 / 10 <= z < IZR (height maze_map) - 2 / 10)%R \/
  grid_get (maze maze_map) (int_of_float z) (int_of_float x) = Ok 0.

(** The direct target of a movement and its two slide targets. *)
Definition hemmed_in (maze_map : MazeMap) (self : Player) (op : movement) : Prop :=
  let t := target op self in
  wall_or_outside maze_map t.1 t.2 /\
  wall_or_outside maze_map t.1 (vz (position self)) /\
  wall_or_outside maze_map (vx (position self)) t.2.

(** A map of one open cell walled all round, and a player in its far
    corner, turned 45 degrees towards that corner. *)
Definition walled_cell : MazeMap :=
  mkMazeMap 3 3 0 8 8 [[0; 0; 0]; [0; 1; 0]; [0; 0; 0]] [] [] ∅ ∅.

Definition cornered : Player :=
  mkPlayer (mkVector3D (19 / 10) (7 / 10) (19 / 10))%R (- 45)%R 0%R (2 / 10)%R
    5 5 0%R false 0 1.













End GameTerms.


(* --------------------------------------------------------------------- *)
(** ** The vocabulary of the placement statements                         *)
(* --------------------------------------------------------------------- *)
Module PlacementTerms.
Import Maze.

(** The Manhattan distance of two grid coordinates. *)
Definition manhattan (a b : Z * Z) : Z :=
  Z.abs (a.1 - b.1) + Z.abs (a.2 - b.2).

(** [k] is a cell off the outer ring of the grid that holds one of the
    tags 1, 2, 3. *)
Definition open_inner_cell (w h : Z) (m : grid) (k : Z * Z) : Prop :=
  1 <= k.1 <= w - 2 /\ 1 <= k.2 <= h - 2 /\
  exists v, grid_get m k.2 k.1 = Ok v /\ walkable v = true.

(** What one pass of the monster loop keeps: the counter is the number of
    keys, never above the drawn number; every monster stands on an open
    inner cell with its attributes in range; any two are 3 apart. *)
Definition monsters_inv (w h : Z) (maze : grid) (n : Z)
    (st : gmap (Z * Z) Monster * Z) : Prop :=
  st.2 = Z.of_nat (size st.1) /\ st.2 <= Z.max 0 n /\
  (forall k m, st.1 !! k = Some m ->
     open_inner_cell w h maze k /\ defeated m = false /\
     2 <= health m <= 6 /\
     (grid_get maze k.2 k.1 <> Ok 2 -> health m <= 4) /\
     (grid_get maze k.2 k.1 = Ok 2 -> 3 <= health m)) /\
  (forall k1 k2, is_Some (st.1 !! k1) -> is_Some (st.1 !! k2) -> k1 <> k2 ->
     3 <= manhattan k1 k2).

(** The tags of a grid are all among [allowed]. *)
Definition tags_among (allowed : list Z) (m : grid) : Prop :=
  forall x y v, cell m x y = Some v -> v ∈ allowed.

(** The cell [c] has open cells on two opposite sides: it bridges them. *)
Definition bridges (m : grid) (c : Z * Z) : Prop :=
  (Terms.opened m (c.1 - 1, c.2) /\ Terms.opened m (c.1 + 1, c.2)) \/
  (Terms.opened m (c.1, c.2 - 1) /\ Terms.opened m (c.1, c.2 + 1)).

(** The cells of a grid that hold the door tag 3. *)
Definition doors (w h : Z) (m : grid) : list (Z * Z) :=
  filter (fun c => cell m c.1 c.2 = Some 3) (Terms.positions w h).

(** What a pass of [add_random_connections] keeps, with its counter:
    the tags are 0, 1, 3; every door cell is two cells off the border
    at least and bridges two open cells; the doors are no more than the
    counter says. *)
Definition doors_inv (w h : Z) (st : grid * Z) : Prop :=
  tags_among [0; 1; 3] st.1 /\
  (forall x y, cell st.1 x y = Some 3 ->
     2 <= x <= w - 3 /\ 2 <= y <= h - 3 /\ bridges st.1 (x, y)) /\
  Z.of_nat (length (doors w h st.1)) <= st.2.

(** The contents a treasure can get at a position of each kind: the
    lists of lines 477-481. *)
Definition loot_choices (t : location_type) : list loot :=
  match t with
  | room_center => [mega_health; weapon_upgrade; points; mega_health]
  | dead_end => [loot_health; weapon_upgrade; points]
  | random_spot => [loot_health; points; loot_health]
  end.

(** What one pass of the treasure loop keeps: the counter is the number
    of keys, never above the drawn number; every treasure is closed, at a
    listed position, with contents of the kind of that position. *)
Definition treasures_inv (listed : list (Z * Z * location_type)) (n : Z)
    (st : gmap (Z * Z) Treasure * Z) : Prop :=
  st.2 = Z.of_nat (size st.1) /\ st.2 <= Z.max 0 n /\
  forall k t, st.1 !! k = Some t ->
    opened t = false /\
    exists ty, (k, ty) ∈ listed /\ contents t ∈ loot_choices ty.


End PlacementTerms.

(* --------------------------------------------------------------------- *)
(** ** [Player]: jumping and gravity                                      *)
(* --------------------------------------------------------------------- *)
Module Physics.
Import Reals.
Import Maze Engine.
Local Open Scope R_scope.

(** [Player.__init__], lines 518-519; neither is assigned again. *)
Definition jump_strength : R := 5.
Definition gravity : R := -15.

Definition set_y (self : Player) (y : R) : Player :=
  mkPlayer (mkVector3D (vx (position self)) y (vz (position self)))
    (rotation_y self) (rotation_x self) (speed self) (max_hp self) (hp self)
    (velocity_y self) (is_jumping self) (experience self) (level self).

Definition set_velocity_y (self : Player) (v : R) : Player :=
  mkPlayer (position self) (rotation_y self) (rotation_x self) (speed self)
    (max_hp self) (hp self) v (is_jumping self) (experience self) (level self).

Definition set_is_jumping (self : Player) (b : bool) : Player :=
  mkPlayer (position self) (rotation_y self) (rotation_x self) (speed self)
    (max_hp self) (hp self) (velocity_y self) b (experience self) (level self).

(** [Player.jump], lines 527-532 (the debug [print] left out). *)
Definition jump (self : Player) : Player :=
  if negb (is_jumping self) && ltb_R (Rabs (velocity_y self)) (1 / 10) then
    set_is_jumping (set_velocity_y self jump_strength) true
  else self.

(** The eye level of a player who stands on the floor, lines 537-539 and
    582-584: [floor_height + 1.7] with the floor at [base_level - 1.0]. *)
Definition ground_level (maze_map : MazeMap) : R :=
  get_floor_height maze_map + 17 / 10.

(** [Player.apply_physics], lines 534-556. *)
Definition apply_physics (self : Player) (maze_map : MazeMap) (dt : R) : Player :=
  let ground_level := ground_level maze_map in
  let self := set_velocity_y self (velocity_y self + gravity * dt) in
  let self := set_y self (vy (position self) + velocity_y self * dt) in
  let self :=
    if leb_R (vy (position self)) ground_level then
      set_is_jumping (set_velocity_y (set_y self ground_level) 0) false
    else self in
  if ltb_R (vy (position self)) ground_level then
    set_velocity_y (set_y self ground_level) 0
  else self.

(** [Player.is_on_ground], lines 580-587. *)
Definition is_on_ground (self : Player) (maze_map : MazeMap) : bool :=
  ltb_R (Rabs (vy (position self) - ground_level maze_map)) (1 / 10).

(** What the main loop does to the height of the player, frame after
    frame: a jump when the space key is down, then gravity over the time
    the clock reports. *)
Inductive motion : Type := Jump | Fall (dt : R).

Definition move_up_down (maze_map : MazeMap) (self : Player) (m : motion) : Player :=
  match m with
  | Jump => jump self
  | Fall dt => apply_physics self maze_map dt
  end.

(** A player at rest on the floor. *)
Definition standing (maze_map : MazeMap) (self : Player) : Prop :=
  vy (position self) = ground_level maze_map /\
  velocity_y self = 0 /\ is_jumping self = false.

(** What jumping and falling keep: the eye is at standing level or above
    it, by no more than a jump can lift it; a player who is not jumping is
    at rest on the floor. *)
Definition airborne_inv (maze_map : MazeMap) (self : Player) : Prop :=
  ground_level maze_map <= vy (position self) /\
  vy (position self) + velocity_y self * velocity_y self / 30
    <= ground_level maze_map + 5 / 6 /\
  (is_jumping self = false -> standing maze_map self).

End Physics.

(* --------------------------------------------------------------------- *)
(** ** [game_functions]: the boxes, the win chance, the statistics        *)
(* --------------------------------------------------------------------- *)
Module Functions.

(** A Python [str] as the list of its code points. *)
Definition text : Type := list Z.

(** ["c" * n]: empty for a count that is not positive. *)
Definition times (c : Z) (n : Z) : text := replicate (Z.to_nat n) c.

Definition space : Z := 32.
Definition variation_selector : Z := 65039.
(** The box-drawing characters U+2554, U+2550, U+2557, U+2551, U+255A,
    U+255D, U+2560, U+2563. *)
Definition top_left : Z := 9556.
Definition bar : Z := 9552.
Definition top_right : Z := 9559.
Definition pipe : Z := 9553.
Definition bottom_left : Z := 9562.
Definition bottom_right : Z := 9565.
Definition tee_left : Z := 9568.
Definition tee_right : Z := 9571.

Section Display.

(** [unicodedata.east_asian_width(char) in ('F', 'W')], a table of the
    Unicode database. *)
Variable wide : Z -> bool.

(** [get_display_length], lines 14-26. *)
Definition get_display_length (t : text) : Z :=
  fold_left (fun length char =>
    if wide char then length + 2
    else if char =? variation_selector then length
    else length + 1) t 0.

(** [max(get_display_length(line) for line in lines)] of a list that is
    not empty. *)
Definition max_display_length (first : text) (rest : list text) : Z :=
  fold_left (fun m line => Z.max m (get_display_length line)) rest
    (get_display_length first).

(** [create_box], lines 28-42: the rows it prints. *)
Definition create_box (lines : list text) (width : option Z) : list text :=
  match lines with
  | [] => []
  | first :: rest =>
      let width := match width with
                   | None => max_display_length first rest + 4
                   | Some w => w
                   end in
      [[top_left] ++ times bar (width - 2) ++ [top_right]] ++
      map (fun line =>
             match line with
             | [] => [pipe] ++ times space (width - 2) ++ [pipe]
             | _ =>
                 let display_len := get_display_length line in
                 let padding := width - display_len - 3 in
                 [pipe; space] ++ line ++ times space padding ++ [pipe]
             end) lines ++
      [[bottom_left] ++ times bar (width - 2) ++ [bottom_right]]
  end.

(** [create_menu_box], lines 44-55. *)
Definition title_padding (title : text) (width : Z) : Z :=
  (width - 2 - get_display_length title) / 2.

Definition create_menu_box (title : text) (options : list text) (width : Z)
    : list text :=
  let title_display_len := get_display_length title in
  let title_padding := title_padding title width in
  let title_line := times space title_padding ++ title ++
                    times space (width - 2 - title_padding - title_display_len) in
  [[top_left] ++ times bar (width - 2) ++ [top_right]] ++
  [[pipe] ++ title_line ++ [pipe]] ++
  [[tee_left] ++ times bar (width - 2) ++ [tee_right]] ++
  map (fun option =>
         let option_display_len := get_display_length option in
         let option_padding := width - option_display_len - 4 in
         [pipe; space; space] ++ option ++ times space option_padding ++ [pipe])
      options ++
  [[bottom_left] ++ times bar (width - 2) ++ [bottom_right]].

(** The characters of the frames take one column each. *)
Definition narrow_frame : Prop :=
  Forall (fun c => wide c = false)
    [space; top_left; bar; top_right; pipe; bottom_left; bottom_right;
     tee_left; tee_right].

End Display.

(** A table that knows the CJK unified ideographs U+4E00..U+9FFF only;
    the Unicode database gives them the width [W]. *)
Definition ideograph (c : Z) : bool := (19968 <=? c) && (c <=? 40959).

(** [calculate_win_chance], lines 94-100. *)
Definition good_combinations : list (string * string) :=
  [("troll", "kard"); ("boszorkány", "ij"); ("sárkány", "varazspalca")]%string.

Definition calculate_win_chance (monster weapon : string) : Z :=
  if bool_decide ((monster, weapon) ∈ good_combinations) then 85 else 25.

(** The dictionary of [create_stats], lines 131-143: fixed keys, and two
    inner dictionaries that [update_stats] indexes with its arguments. *)
Record Stats : Type := mkStats {
  gyozelmek : Z; veresegek : Z; heroikus_gyozelmek : Z;
  ossz_hp_nyert : Z; ossz_hp_veszitett : Z;
  legjobb_sorozat : Z; jelenlegi_sorozat : Z;
  szornyek : gmap string Z; fegyverek : gmap string Z;
  pontok : Z }.

Definition create_stats : Stats :=
  mkStats 0 0 0 0 0 0 0
    (<["sárkány" := 0]> (<["troll" := 0]> (<["boszorkány" := 0]> ∅)))%string
    (<["varazspalca" := 0]> (<["ij" := 0]> (<["kard" := 0]> ∅)))%string
    0.

(** How a call ends: it returns, or [KeyError] leaves it. *)
Inductive ending : Type := Returned | KeyError (key : string).

Definition set_szornyek (s : Stats) (m : gmap string Z) : Stats :=
  mkStats (gyozelmek s) (veresegek s) (heroikus_gyozelmek s) (ossz_hp_nyert s)
    (ossz_hp_veszitett s) (legjobb_sorozat s) (jelenlegi_sorozat s)
    m (fegyverek s) (pontok s).

Definition set_fegyverek (s : Stats) (m : gmap string Z) : Stats :=
  mkStats (gyozelmek s) (veresegek s) (heroikus_gyozelmek s) (ossz_hp_nyert s)
    (ossz_hp_veszitett s) (legjobb_sorozat s) (jelenlegi_sorozat s)
    (szornyek s) m (pontok s).

(** Lines 149-161 of [update_stats]: the record of the outcome. *)
Definition record_outcome (s : Stats) (won : bool) (win_chance : Z) : Stats :=
  if won then
    let gy := gyozelmek s + 1 in
    let streak := jelenlegi_sorozat s + 1 in
    let best := Z.max (legjobb_sorozat s) streak in
    if win_chance =? 25 then
      mkStats gy (veresegek s) (heroikus_gyozelmek s + 1) (ossz_hp_nyert s)
        (ossz_hp_veszitett s) best streak (szornyek s) (fegyverek s)
        (pontok s + 50)
    else
      mkStats gy (veresegek s) (heroikus_gyozelmek s) (ossz_hp_nyert s)
        (ossz_hp_veszitett s) best streak (szornyek s) (fegyverek s)
        (pontok s + 25)
  else
    mkStats (gyozelmek s) (veresegek s + 1) (heroikus_gyozelmek s)
      (ossz_hp_nyert s) (ossz_hp_veszitett s) (legjobb_sorozat s) 0
      (szornyek s) (fegyverek s) (pontok s - 10).

(** Lines 163-166. *)
Definition record_hp (s : Stats) (hp_change : Z) : Stats :=
  if 0 <? hp_change then
    mkStats (gyozelmek s) (veresegek s) (heroikus_gyozelmek s)
      (ossz_hp_nyert s + hp_change) (ossz_hp_veszitett s) (legjobb_sorozat s)
      (jelenlegi_sorozat s) (szornyek s) (fegyverek s) (pontok s)
  else
    mkStats (gyozelmek s) (veresegek s) (heroikus_gyozelmek s)
      (ossz_hp_nyert s) (ossz_hp_veszitett s + Z.abs hp_change)
      (legjobb_sorozat s) (jelenlegi_sorozat s) (szornyek s) (fegyverek s)
      (pontok s).

(** [update_stats], lines 145-166.  The dictionary is updated in place:
    the answer is the dictionary as the call leaves it, also when
    [KeyError] leaves the call halfway. *)
Definition update_stats (stats : Stats) (monster weapon : string) (won : bool)
    (hp_change win_chance : Z) : Stats * ending :=
  match szornyek stats !! monster with
  | None => (stats, KeyError monster)
  | Some n =>
      let stats := set_szornyek stats (<[monster := n + 1]> (szornyek stats)) in
      match fegyverek stats !! weapon with
      | None => (stats, KeyError weapon)
      | Some k =>
          let stats := set_fegyverek stats (<[weapon := k + 1]> (fegyverek stats)) in
          (record_hp (record_outcome stats won win_chance) hp_change, Returned)
      end
  end.

(** One battle as [update_stats] is told of it. *)
Record battle : Type := mkBattle {
  battle_monster : string; battle_weapon : string; battle_won : bool;
  battle_hp_change : Z; battle_win_chance : Z }.

Definition update_with (stats : Stats) (b : battle) : Stats :=
  (update_stats stats (battle_monster b) (battle_weapon b) (battle_won b)
     (battle_hp_change b) (battle_win_chance b)).1.

(** The count of a key, 0 for a key that is missing. *)
Definition count (m : gmap string Z) (k : string) : Z := default 0 (m !! k).

(** What the statistics keep however many battles are recorded with the
    names the dictionaries hold. *)
Definition stats_inv (s : Stats) : Prop :=
  dom (szornyek s) = dom (szornyek create_stats) /\
  dom (fegyverek s) = dom (fegyverek create_stats) /\
  (count (szornyek s) "sárkány" + count (szornyek s) "troll"
   + count (szornyek s) "boszorkány" = gyozelmek s + veresegek s)%string /\
  (count (fegyverek s) "varazspalca" + count (fegyverek s) "ij"
   + count (fegyverek s) "kard" = gyozelmek s + veresegek s)%string /\
  0 <= veresegek s /\
  0 <= heroikus_gyozelmek s <= gyozelmek s /\
  0 <= jelenlegi_sorozat s <= legjobb_sorozat s /\
  legjobb_sorozat s <= gyozelmek s /\
  0 <= ossz_hp_nyert s /\ 0 <= ossz_hp_veszitett s /\
  pontok s = 25 * gyozelmek s + 25 * heroikus_gyozelmek s - 10 * veresegek s.

Definition known (b : battle) : Prop :=
  is_Some (szornyek create_stats !! battle_monster b) /\
  is_Some (fegyverek create_stats !! battle_weapon b).

End Functions.

(* --------------------------------------------------------------------- *)
(** ** [Game3D]: battles, treasures, interaction                          *)
(* --------------------------------------------------------------------- *)
Module Session.
Import Reals.
Import Py Maze Engine Functions.
Local Open Scope string_scope.
Local Open Scope Z_scope.

(** The keys of the dictionary of [get_random_monster]: the [name] entry
    of a monster. *)
Definition name_of (kind : monster_kind) : string :=
  match kind with
  | sarkany => "sárkány"
  | troll => "troll"
  | boszorkany => "boszorkány"
  end.

(** The texts of [add_message], with the name (which the text shows in
    capitals) or the numbers they show. *)
Inductive message : Type :=
| battle_cry (name : string)
| heroic_victory (hp_gain exp_gain : Z)
| victory (hp_gain exp_gain : Z)
| level_up (level : Z)
| defeat (damage : Z)
| game_over
| potion (heal : Z)
| great_potion (heal : Z)
| upgrade
| coins (points : Z)
| nothing_here.

(** The game with what [Player] of [Engine] leaves out, [player.weapon]
    and [player.stats], and with [running] and [messages] of [Game3D].  A
    message is its text and its duration; its time stamp is the clock's. *)
Record Session : Type := mkSession {
  game : Game3D;
  weapon : string;
  stats : Stats;
  running : bool;
  messages : list (message * Z) }.

(** [Game3D.add_message], lines 1635-1637. *)
Definition add_message (self : Session) (text : message) (duration : Z) : Session :=
  mkSession (game self) (weapon self) (stats self) (running self)
    (messages self ++ [(text, duration)]).

Definition set_player (self : Session) (p : Player) : Session :=
  mkSession (mkGame3D (renderer (game self)) (maze_map (game self)) p)
    (weapon self) (stats self) (running self) (messages self).

Definition set_maze_map (self : Session) (m : MazeMap) : Session :=
  mkSession (mkGame3D (renderer (game self)) m (player (game self)))
    (weapon self) (stats self) (running self) (messages self).

Definition set_stats (self : Session) (s : Stats) : Session :=
  mkSession (game self) (weapon self) s (running self) (messages self).

Definition set_running (self : Session) (b : bool) : Session :=
  mkSession (game self) (weapon self) (stats self) b (messages self).

Definition set_hp (self : Player) (n : Z) : Player :=
  mkPlayer (position self) (rotation_y self) (rotation_x self) (speed self)
    (max_hp self) n (velocity_y self) (is_jumping self)
    (experience self) (level self).

Definition set_experience (self : Player) (n : Z) : Player :=
  mkPlayer (position self) (rotation_y self) (rotation_x self) (speed self)
    (max_hp self) (hp self) (velocity_y self) (is_jumping self)
    n (level self).

Definition set_monsters (m : MazeMap) (ms : gmap (Z * Z) Monster) : MazeMap :=
  mkMazeMap (width m) (height m) (base_level m) (wall_height m)
    (ceiling_height m) (maze m) (terrain m) (rooms m) ms (treasures m).

Definition set_treasures (m : MazeMap) (ts : gmap (Z * Z) Treasure) : MazeMap :=
  mkMazeMap (width m) (height m) (base_level m) (wall_height m)
    (ceiling_height m) (maze m) (terrain m) (rooms m) (monsters m) ts.

(** [stats['pontok'] += points], line 1876. *)
Definition add_points (s : Stats) (n : Z) : Stats :=
  mkStats (gyozelmek s) (veresegek s) (heroikus_gyozelmek s) (ossz_hp_nyert s)
    (ossz_hp_veszitett s) (legjobb_sorozat s) (jelenlegi_sorozat s)
    (szornyek s) (fegyverek s) (pontok s + n).

(** Lines 1838-1840 and 1883-1884: [gain_experience(0)] and its message. *)
Definition check_level (self : Session) (p : Player) : Session :=
  let up := gain_experience p 0 in
  let self := set_player self up.2 in
  if up.1 then add_message self (level_up (level up.2)) 4000 else self.

(** [Game3D.start_battle], lines 1815-1854.  [monster] is the dictionary
    that the map holds at [position]: line 1836 writes it there.  The
    statistics are updated in place, so the answer has them as
    [update_stats] leaves them, also when [KeyError] leaves the call. *)
Definition start_battle (self : Session) (monster : Monster) (position : Z * Z)
    : Rand (Session * ending) :=
  let name := name_of (monster_name monster) in
  let self := add_message self (battle_cry name) 3000 in
  let win_chance := calculate_win_chance name (weapon self) in
  roll <- randint 1 100 ;;
  let won := roll <=? win_chance in
  if won then
    exp_gain <- randint 15 35 ;;
    let p := player (game self) in
    let p := set_experience p (experience p + exp_gain) in
    let hp_gain := if win_chance =? 25 then 2 else 1 in
    let self :=
      if win_chance =? 25
      then add_message self (heroic_victory hp_gain (exp_gain * 2)) 4000
      else add_message self (victory hp_gain exp_gain) 3000 in
    let p := set_hp p (Z.min (max_hp p) (hp p + hp_gain)) in
    let m := maze_map (game self) in
    let self :=
      set_maze_map self
        (set_monsters m
           (<[position := mkMonster (monster_name monster) true (health monster)]>
              (monsters m))) in
    let self := check_level self p in
    let updated :=
      update_stats (stats self) name (weapon self) won hp_gain win_chance in
    ret (set_stats self updated.1, updated.2)
  else
    let damage := 2 in
    let p := player (game self) in
    let p := set_hp p (hp p - damage) in
    let self := add_message (set_player self p) (defeat damage) 3000 in
    if hp p <=? 0 then
      ret (set_running (add_message self game_over 5000) false, Returned)
    else
      let updated :=
        update_stats (stats self) name (weapon self) won (- damage) win_chance in
      ret (set_stats self updated.1, updated.2).

(** [Game3D.open_treasure], lines 1856-1884.  [treasure] is the dictionary
    that the map holds at [position]: line 1858 writes it there. *)
Definition open_treasure (self : Session) (treasure : Treasure) (position : Z * Z)
    : Rand Session :=
  let m := maze_map (game self) in
  let self :=
    set_maze_map self
      (set_treasures m
         (<[position := mkTreasure true (contents treasure)]> (treasures m))) in
  let p := player (game self) in
  self <- match contents treasure with
          | loot_health =>
              heal <- randint 1 2 ;;
              ret (add_message
                     (set_player self (set_hp p (Z.min (max_hp p) (hp p + heal))))
                     (potion heal) 2500)
          | mega_health =>
              heal <- randint 2 4 ;;
              ret (add_message
                     (set_player self (set_hp p (Z.min (max_hp p) (hp p + heal))))
                     (great_potion heal) 3000)
          | weapon_upgrade => ret (add_message self upgrade 2500)
          | points =>
              n <- randint 30 75 ;;
              ret (add_message (set_stats self (add_points (stats self) n))
                     (coins n) 2500)
          end ;;
  exp_gain <- randint 5 15 ;;
  let p := player (game self) in
  ret (check_level self (set_experience p (experience p + exp_gain))).

(** [round(x)] of a float: to the nearest integer, a tie to the even one. *)
Definition round (r : R) : Z :=
  let f := Int_part r in
  let frac := (r - IZR f)%R in
  if ltb_R frac (1 / 2) then f
  else if ltb_R (1 / 2) frac then f + 1
  else if Z.even f then f else f + 1.

(** Lines 1793-1797: [math.sqrt(dx*dx + dz*dz) > 2.5] skips the offset;
    in binary64. *)
Definition out_of_reach (dx dz : Z) : bool :=
  PrimFloat.ltb 2.5%float (PrimFloat.sqrt (float_of_int (dx * dx + dz * dz))).

(** The offsets in the order of the two loops of lines 1790-1791. *)
Definition offsets : list (Z * Z) :=
  flat_map (fun dx => map (fun dz => (dx, dz)) (range (-2) 3)) (range (-2) 3).

(** Lines 1800-1811, one pass of the inner loop: what to do at a cell. *)
Inductive found : Type :=
| found_monster (monster : Monster)
| found_treasure (treasure : Treasure)
| found_nothing.

Definition look_at (m : MazeMap) (c : Z * Z) : found :=
  match monsters m !! c with
  | Some monster =>
      if negb (defeated monster) then found_monster monster
      else match treasures m !! c with
           | Some treasure =>
               if negb (Maze.opened treasure) then found_treasure treasure
               else found_nothing
           | None => found_nothing
           end
  | None =>
      match treasures m !! c with
      | Some treasure =>
          if negb (Maze.opened treasure) then found_treasure treasure
          else found_nothing
      | None => found_nothing
      end
  end.

Fixpoint scan (self : Session) (player_x player_z : Z) (todo : list (Z * Z))
    : Rand (Session * ending) :=
  match todo with
  | [] => ret (add_message self nothing_here 1500, Returned)
  | (dx, dz) :: todo =>
      let check := (player_x + dx, player_z + dz) in
      if out_of_reach dx dz then scan self player_x player_z todo
      else
        match look_at (maze_map (game self)) check with
        | found_monster monster => start_battle self monster check
        | found_treasure treasure =>
            self <- open_treasure self treasure check ;;
            ret (self, Returned)
        | found_nothing => scan self player_x player_z todo
        end
  end.

(** [Game3D.interact], lines 1784-1813. *)
Definition interact (self : Session) : Rand (Session * ending) :=
  let player_x := round (vx (position (player (game self)))) in
  let player_z := round (vz (position (player (game self)))) in
  scan self player_x player_z offsets.

End Session.

(** The terms of the statements about a session. *)
Module SessionTerms.
Import Reals.
Import Py Maze Engine Functions Session.
Local Open Scope string_scope.
Local Open Scope Z_scope.

(** A session as [Game3D.__init__] and [Player.__init__] start it: the
    sword, empty statistics, no message, 5 of 5 life points, level 1, and
    no monster defeated. *)
Definition new_game (self : Session) : Prop :=
  let p := player (game self) in
  weapon self = "kard" /\ stats self = create_stats /\
  running self = true /\ messages self = [] /\
  hp p = 5 /\ max_hp p = 5 /\ experience p = 0 /\ level p = 1 /\
  forall c monster,
    monsters (maze_map (game self)) !! c = Some monster ->
    defeated monster = false.

(** The player walks to [(x, z)]. *)
Definition place (self : Session) (x z : R) : Session :=
  let p := player (game self) in
  set_player self (set_position p (mkVector3D x (vy (position p)) z)).

(** The player walks to one place after the other and interacts at each;
    an exception ends the play. *)
Fixpoint play (self : Session) (places : list (R * R)) : Rand (Session * ending) :=
  match places with
  | [] => ret (self, Returned)
  | (x, z) :: places =>
      r <- interact (place self x z) ;;
      match r.2 with
      | Returned => play r.1 places
      | KeyError _ => ret r
      end
  end.

(** The points that the messages of opened treasures announce. *)
Definition coins_of (msg : message * Z) : Z :=
  match msg.1 with
  | coins n => n
  | _ => 0
  end.

Definition coin_total (l : list (message * Z)) : Z :=
  foldr (fun msg total => coins_of msg + total) 0 l.

Definition defeated_monsters (m : MazeMap) : gmap (Z * Z) Monster :=
  filter (fun entry => defeated entry.2 = true) (monsters m).

(** The offsets that [interact] looks at, in its order. *)
Definition reach : list (Z * Z) :=
  List.filter (fun d => negb (out_of_reach d.1 d.2)) offsets.

Definition cell_at (self : Session) (d : Z * Z) : Z * Z :=
  (round (vx (position (player (game self)))) + d.1,
   round (vz (position (player (game self)))) + d.2).

(** What a session keeps from a new game on. *)
Definition session_inv (self : Session) : Prop :=
  let p := player (game self) in
  hp p <= max_hp p /\ 5 <= max_hp p <= level p + 4 /\
  level p = experience p / 100 + 1 /\ 0 <= experience p /\
  (running self = true -> 0 < hp p) /\
  is_Some (fegyverek create_stats !! weapon self) /\
  stats_inv (add_points (stats self) (- coin_total (messages self))) /\
  Z.of_nat (size (defeated_monsters (maze_map (game self)))) = gyozelmek (stats self).

(** A new game on a map of one monster and one treasure. *)
Definition small_map : MazeMap :=
  mkMazeMap 5 5 0 8 8 [] [] []
    (<[(1, 1) := mkMonster troll false 3]> ∅)
    (<[(3, 3) := mkTreasure false points]> ∅).

Definition small_game : Session :=
  mkSession (mkGame3D Renderer_init small_map (Player_init 1 1))
    "kard" create_stats true [].

End SessionTerms.
(* ===================================================================== *)
(** * Part II.  Lemmas and theorems                                       *)
(* ===================================================================== *)

(* --------------------------------------------------------------------- *)
(** ** The runtime: inversion of the two monads, loops, ranges, indexing  *)
(* --------------------------------------------------------------------- *)
Module PyFacts.

Lemma rbind_Ok {A B} (c : result A) (k : A -> result B) (b : B) :
  rbind c k = Ok b -> exists a, c = Ok a /\ k a = Ok b.
Proof. destruct c as [a| |]; simpl; intros H; try discriminate. eauto. Qed.

Lemma bind_Ok {A B} (c : Rand A) (k : A -> Rand B) (e e' : entropy) (b : B) :
  bind c k e = Ok (b, e') ->
  exists a e1, c e = Ok (a, e1) /\ k a e1 = Ok (b, e').
Proof.
  unfold bind. destruct (c e) as [[a e1]| |]; intros H; try discriminate. eauto.
Qed.

Lemma lift_Ok {A} (c : result A) (e e' : entropy) (a : A) :
  lift c e = Ok (a, e') -> c = Ok a /\ e' = e.
Proof. unfold lift. destruct c; intros H; inversion H; auto. Qed.

Lemma ret_Ok {A} (a b : A) (e e' : entropy) :
  ret a e = Ok (b, e') -> b = a /\ e' = e.
Proof. unfold ret. intros H; inversion H; auto. Qed.

Lemma raise_Ok {A} (x : exn) (e e' : entropy) (a : A) :
  raise x e = Ok (a, e') -> False.
Proof. unfold raise. discriminate. Qed.

(** One step of inversion of a hypothesis [_ = Ok _]. *)
Ltac inv_ok_step :=
  match goal with
  | H : rbind _ _ = Ok _ |- _ =>
      let a := fresh "a" in let Ha := fresh "Ha" in
      apply rbind_Ok in H; destruct H as (a & Ha & H)
  | H : bind _ _ _ = Ok (_, _) |- _ =>
      let a := fresh "a" in let e := fresh "e" in let Ha := fresh "Ha" in
      apply bind_Ok in H; destruct H as (a & e & Ha & H)
  | H : lift _ _ = Ok (_, _) |- _ =>
      let E := fresh "E" in apply lift_Ok in H; destruct H as [H E]; subst
  | H : ret _ _ = Ok (_, _) |- _ =>
      let E := fresh "E" in apply ret_Ok in H; destruct H as [H E]; subst
  | H : raise _ _ = Ok (_, _) |- _ => exfalso; exact (raise_Ok _ _ _ _ H)
  | H : Ok _ = Ok _ |- _ => inversion H; clear H; subst
  | H : Raise _ = Ok _ |- _ => discriminate H
  | H : OutOfFuel = Ok _ |- _ => discriminate H
  end.

Ltac inv_ok := repeat inv_ok_step.

(** Linear arithmetic with [//] and [%] by constants. *)
Ltac div_lia := Z.to_euclidean_division_equations; lia.

(** An invariant of a [for] loop. *)
Lemma for_inv {A S} (I : S -> Prop) (xs : list A) (body : A -> S -> result S) :
  (forall a t t', a ∈ xs -> I t -> body a t = Ok t' -> I t') ->
  forall s s', I s -> for_ xs body s = Ok s' -> I s'.
Proof.
  induction xs as [|x xs IH]; simpl; intros Hstep s s' Hs H.
  - inv_ok. assumption.
  - inv_ok. apply (IH (fun a t t' Ha => Hstep a t t' (list_elem_of_further _ _ _ Ha)) a s');
      [ | assumption ].
    eapply Hstep; eauto. left.
Qed.

(** What each pass establishes, once nothing later undoes it. *)
Lemma for_cover {A S} (Q : A -> S -> Prop) (xs : list A) (body : A -> S -> result S) :
  (forall a t t', a ∈ xs -> body a t = Ok t' -> Q a t') ->
  (forall a b t t', b ∈ xs -> Q a t -> body b t = Ok t' -> Q a t') ->
  forall s s', for_ xs body s = Ok s' -> forall a, a ∈ xs -> Q a s'.
Proof.
  induction xs as [|x xs IH]; simpl; intros Hdo Hkeep s s' H a Ha.
  - inversion Ha.
  - inv_ok.
    assert (Hkeep' : forall a b t t', b ∈ xs -> Q a t -> body b t = Ok t' -> Q a t').
    { intros ? ? ? ? Hb. apply Hkeep. now right. }
    apply elem_of_cons in Ha as [->|Ha].
    + apply (for_inv (Q x) xs body) with (s := a0); auto.
      * intros b t t' Hb. apply Hkeep'. assumption.
      * eapply Hdo; eauto. left.
    + eapply IH; eauto. intros ? ? ? Hb. apply Hdo. now right.
Qed.

Lemma forR_inv {A S} (I : S -> Prop) (xs : list A) (body : A -> S -> Rand S) :
  (forall a t t' e e', a ∈ xs -> I t -> body a t e = Ok (t', e') -> I t') ->
  forall s s' e e', I s -> forR xs body s e = Ok (s', e') -> I s'.
Proof.
  induction xs as [|x xs IH]; simpl; intros Hstep s s' e e' Hs H.
  - inv_ok. assumption.
  - inv_ok. eapply (IH (fun a t t' e e' Ha => Hstep a t t' e e' (list_elem_of_further _ _ _ Ha)));
      [ | eassumption ].
    eapply Hstep; eauto. left.
Qed.

Lemma elem_of_range (a b k : Z) : k ∈ range a b <-> a <= k < b.
Proof. unfold range. rewrite elem_of_seqZ. lia. Qed.

Lemma elem_of_range3 (a b step k : Z) :
  0 < step -> k ∈ range3 a b step -> a <= k < b /\ (k - a) mod step = 0.
Proof.
  intros Hs. unfold range3. rewrite list_elem_of_fmap.
  intros (i & -> & Hi). apply elem_of_seqZ in Hi.
  assert (step * ((b - a + step - 1) / step) <= b - a + step - 1)
    by (apply Z.mul_div_le; lia).
  split; [ nia | ].
  replace (a + step * i - a) with (i * step) by lia. apply Z.mod_mul. lia.
Qed.

Lemma getitem_nonneg {A} (l : list A) (i : Z) (a : A) :
  0 <= i -> (getitem l i = Ok a <-> l !! Z.to_nat i = Some a).
Proof.
  intros Hi. unfold getitem, index.
  destruct (Z.ltb_spec i 0) as [|_]; [ lia | ].
  destruct (Z.leb_spec 0 i) as [_|]; [ | lia ]. simpl.
  destruct (Z.ltb_spec i (Z.of_nat (length l))) as [Hlt|Hge].
  - destruct (l !! Z.to_nat i) eqn:E; split; intros H; inversion H; auto.
  - split; [ discriminate | ]. intros H. apply lookup_lt_Some in H. lia.
Qed.

Lemma setitem_nonneg {A} (l l' : list A) (i : Z) (v : A) :
  0 <= i -> setitem l i v = Ok l' ->
  l' = <[Z.to_nat i := v]> l /\ (Z.to_nat i < length l)%nat.
Proof.
  intros Hi. unfold setitem, index.
  destruct (Z.ltb_spec i 0) as [|_]; [ lia | ].
  destruct (Z.leb_spec 0 i) as [_|]; [ | lia ]. simpl.
  destruct (Z.ltb_spec i (Z.of_nat (length l))) as [Hlt|Hge]; intros H; inversion H.
  split; [ reflexivity | lia ].
Qed.

(** [randrange] answers inside its range, on the grid of its step. *)
Lemma randrange_Ok (start stop step k : Z) (e e' : entropy) :
  randrange start stop step e = Ok (k, e') ->
  0 < step /\ start <= k < stop /\ (k - start) mod step = 0.
Proof.
  unfold randrange, randbelow.
  destruct (Z.eqb_spec step 1) as [->|Hne].
  - destruct (Z.ltb_spec 0 (stop - start)) as [Hw|Hw]; intros Hr; inv_ok.
    assert (0 <= a0 mod (stop - start) < stop - start) by (apply Z.mod_pos_bound; lia).
    rewrite Z.mod_1_r. lia.
  - destruct (Z.ltb_spec 0 step) as [Hs|Hs]; [ | intros Hr; inv_ok ].
    destruct (Z.leb_spec ((stop - start + step - 1) / step) 0) as [Hn|Hn];
      intros Hr; inv_ok.
    set (n := (stop - start + step - 1) / step) in *.
    assert (0 <= a0 mod n < n) by (apply Z.mod_pos_bound; lia).
    assert (step * n <= stop - start + step - 1) by (apply Z.mul_div_le; lia).
    split; [ lia | ]. split; [ nia | ].
    replace (start + step * (a0 mod n) - start) with ((a0 mod n) * step) by lia.
    apply Z.mod_mul. lia.
Qed.

Lemma randint_Ok (a b k : Z) (e e' : entropy) :
  randint a b e = Ok (k, e') -> a <= k <= b.
Proof. unfold randint. intros H. apply randrange_Ok in H. lia. Qed.

(** A shuffled list holds nothing the list did not hold. *)
Lemma swap_elem_of {A} (x : list A) (i j : nat) (a : A) :
  a ∈ swap x i j -> a ∈ x.
Proof.
  unfold swap. destruct (x !! i) as [u|] eqn:Ei; [ | auto ].
  destruct (x !! j) as [v|] eqn:Ej; [ | auto ].
  intros H. apply list_elem_of_lookup in H as [n Hn].
  destruct (decide (n = j)) as [->|Hnj].
  - apply list_lookup_insert_Some in Hn.
    destruct Hn as [(_ & <- & _)|(? & _)]; [ | congruence ].
    eapply list_elem_of_lookup_2; eauto.
  - rewrite list_lookup_insert_ne in Hn by auto.
    destruct (decide (n = i)) as [->|Hni].
    + apply list_lookup_insert_Some in Hn.
      destruct Hn as [(_ & <- & _)|(? & _)]; [ | congruence ].
      eapply list_elem_of_lookup_2; eauto.
    + rewrite list_lookup_insert_ne in Hn by auto.
      eapply list_elem_of_lookup_2; eauto.
Qed.

Lemma shuffle_from_elem_of {A} (i : nat) (x y : list A) (e e' : entropy) (a : A) :
  shuffle_from i x e = Ok (y, e') -> a ∈ y -> a ∈ x.
Proof.
  revert x e. induction i as [|i IH]; intros x e H Ha.
  - simpl in H. inv_ok. assumption.
  - cbn [shuffle_from] in H. inv_ok.
    eapply swap_elem_of. eapply IH; eauto.
Qed.

Lemma shuffle_elem_of {A} (x y : list A) (e e' : entropy) (a : A) :
  shuffle x e = Ok (y, e') -> a ∈ y -> a ∈ x.
Proof. unfold shuffle. apply shuffle_from_elem_of. Qed.

End PyFacts.

(* --------------------------------------------------------------------- *)
(** ** The grid: reading, writing, and what carving may change            *)
(* --------------------------------------------------------------------- *)
Module GridFacts.
Import PyFacts Maze Terms.

Lemma grid_get_cell (m : grid) (x y v : Z) :
  0 <= x -> 0 <= y -> (grid_get m y x = Ok v <-> cell m x y = Some v).
Proof.
  intros Hx Hy. unfold grid_get, cell.
  destruct (Z.leb_spec 0 x) as [_|]; [ | lia ].
  destruct (Z.leb_spec 0 y) as [_|]; [ | lia ]. simpl.
  split.
  - intros H. inv_ok. apply getitem_nonneg in Ha, H; try lia.
    rewrite Ha. simpl. exact H.
  - intros H. destruct (m !! Z.to_nat y) as [row|] eqn:E; simpl in H; [ | discriminate ].
    apply (getitem_nonneg m y row Hy) in E. rewrite E. simpl.
    apply getitem_nonneg; assumption.
Qed.

Lemma cell_nonneg (m : grid) (x y : Z) :
  is_Some (cell m x y) -> 0 <= x /\ 0 <= y.
Proof.
  unfold cell. destruct (Z.leb_spec 0 x) as [?|?]; destruct (Z.leb_spec 0 y) as [?|?];
    simpl; intros [v Hv]; try discriminate; lia.
Qed.

Lemma grid_set_cell (m m' : grid) (x y v : Z) :
  0 <= x -> 0 <= y -> grid_set m y x v = Ok m' ->
  is_Some (cell m x y) /\
  forall x' y', cell m' x' y' =
                if decide (x' = x /\ y' = y) then Some v else cell m x' y'.
Proof.
  intros Hx Hy H. unfold grid_set in H. inv_ok.
  apply getitem_nonneg in Ha; [ | lia ].
  apply setitem_nonneg in Ha0 as [-> Hlen]; [ | lia ].
  apply setitem_nonneg in H as [-> Hlen']; [ | lia ].
  split.
  - unfold cell. destruct (Z.leb_spec 0 x) as [?|?];
      destruct (Z.leb_spec 0 y) as [?|?]; try lia.
    simpl. rewrite Ha. simpl. apply lookup_lt_is_Some. assumption.
  - intros x' y'. unfold cell.
    destruct (Z.leb_spec 0 x') as [Hx'|Hx']; destruct (Z.leb_spec 0 y') as [Hy'|Hy'];
      simpl; try (destruct (decide _) as [[? ?]|]; [ lia | reflexivity ]).
    destruct (decide (y' = y)) as [->|Hny].
    + rewrite list_lookup_insert_eq by assumption. rewrite Ha. simpl.
      destruct (decide (x' = x)) as [->|Hnx].
      * rewrite list_lookup_insert_eq by assumption.
        destruct (decide _) as [|Hn]; [ reflexivity | exfalso; apply Hn; auto ].
      * rewrite list_lookup_insert_ne by lia.
        destruct (decide _) as [[? ?]|]; [ lia | reflexivity ].
    + rewrite list_lookup_insert_ne by lia.
      destruct (decide _) as [[? ?]|]; [ lia | reflexivity ].
Qed.

Lemma walkable_nonzero (v : Z) : walkable v = true -> v <> 0.
Proof. unfold walkable. lia. Qed.

Lemma grew_refl (P : Z * Z -> Prop) (m : grid) : grew P m m.
Proof. intros x y. now left. Qed.

Lemma grew_trans (P : Z * Z -> Prop) (m1 m2 m3 : grid) :
  grew P m1 m2 -> grew P m2 m3 -> grew P m1 m3.
Proof.
  intros H12 H23 x y.
  destruct (H23 x y) as [E23|(HP & Hs & v & Hv & Hw)];
    destruct (H12 x y) as [E12|(HP' & Hs' & v' & Hv' & Hw')].
  - left. congruence.
  - right. split; [ assumption | ]. split; [ assumption | ].
    exists v'. split; [ congruence | assumption ].
  - right. split; [ assumption | ]. split; [ congruence | ]. eauto.
  - right. split; [ assumption | ]. split; [ assumption | ]. eauto.
Qed.

Lemma grew_weaken (P Q : Z * Z -> Prop) (m m' : grid) :
  (forall c, P c -> Q c) -> grew P m m' -> grew Q m m'.
Proof.
  intros HPQ H x y. destruct (H x y) as [E|(HP & Hs & Hv)]; [ now left | ].
  right. auto.
Qed.

Lemma grew_shape (P : Z * Z -> Prop) (m m' : grid) (x y : Z) :
  grew P m m' -> (is_Some (cell m' x y) <-> is_Some (cell m x y)).
Proof.
  intros H. destruct (H x y) as [E|(_ & Hs & v & Hv & _)].
  - rewrite E. reflexivity.
  - rewrite Hv. split; eauto.
Qed.

Lemma grew_opened (P : Z * Z -> Prop) (m m' : grid) (c : Z * Z) :
  grew P m m' -> opened m c -> opened m' c.
Proof.
  intros H (v & Hv & Hnz). destruct (H c.1 c.2) as [E|(_ & _ & v' & Hv' & Hw)].
  - exists v. split; congruence.
  - exists v'. split; [ assumption | ]. now apply walkable_nonzero.
Qed.

Lemma grew_outside (P : Z * Z -> Prop) (m m' : grid) (x y : Z) :
  grew P m m' -> ~ P (x, y) -> cell m' x y = cell m x y.
Proof. intros H HP. destruct (H x y) as [E|(HP' & _)]; tauto. Qed.

(** One write of a tag 1, 2 or 3. *)
Lemma grid_set_grew (P : Z * Z -> Prop) (m m' : grid) (x y v : Z) :
  0 <= x -> 0 <= y -> walkable v = true -> P (x, y) ->
  grid_set m y x v = Ok m' -> grew P m m'.
Proof.
  intros Hx Hy Hw HP H. apply grid_set_cell in H as [Hs Hc]; try assumption.
  intros x' y'. rewrite Hc. destruct (decide _) as [[-> ->]|]; [ | now left ].
  right. eauto.
Qed.

Lemma grid_set_opened (m m' : grid) (x y v : Z) :
  0 <= x -> 0 <= y -> v <> 0 -> grid_set m y x v = Ok m' -> opened m' (x, y).
Proof.
  intros Hx Hy Hv H. apply grid_set_cell in H as [_ Hc]; try assumption.
  exists v. simpl. rewrite Hc. destruct (decide _) as [|Hn]; [ auto | ].
  exfalso. apply Hn. auto.
Qed.

Lemma grew_shaped (P : Z * Z -> Prop) (w h : Z) (m m' : grid) :
  grew P m m' -> shaped w h m -> shaped w h m'.
Proof. intros H Hs x y. rewrite (grew_shape P m m' x y H). apply Hs. Qed.

Lemma new_maze_cell (w h x y : Z) :
  cell (new_maze w h) x y =
  if decide (0 <= x < w /\ 0 <= y < h) then Some 0 else None.
Proof.
  unfold cell, new_maze.
  destruct (Z.leb_spec 0 x) as [Hx|Hx]; destruct (Z.leb_spec 0 y) as [Hy|Hy]; simpl;
    try (destruct (decide _) as [[? ?]|]; [ lia | reflexivity ]).
  destruct (replicate (Z.to_nat h) (replicate (Z.to_nat w) 0) !! Z.to_nat y)
    as [row|] eqn:Er; simpl.
  - apply lookup_replicate in Er as [-> Hyh].
    destruct (replicate (Z.to_nat w) 0 !! Z.to_nat x) as [v|] eqn:Ev.
    + apply lookup_replicate in Ev as [-> Hxw].
      destruct (decide _) as [|Hn]; [ reflexivity | lia ].
    + apply lookup_replicate_None in Ev.
      destruct (decide _) as [[? ?]|]; [ lia | reflexivity ].
  - apply lookup_replicate_None in Er.
    destruct (decide _) as [[? ?]|]; [ lia | reflexivity ].
Qed.

(** Lines 70-72 write 0 over 0: the grid reads as before. *)
Lemma clear_maze_cell (w h : Z) (m : grid) :
  clear_maze w h (new_maze w h) = Ok m ->
  forall x y, cell m x y = cell (new_maze w h) x y.
Proof.
  unfold clear_maze.
  apply (for_inv (fun s => forall x y, cell s x y = cell (new_maze w h) x y));
    [ | reflexivity ].
  intros y t t' Hy Ht.
  apply (for_inv (fun s => forall x y, cell s x y = cell (new_maze w h) x y));
    [ | assumption ].
  intros x u u' Hx Hu Hset.
  apply elem_of_range in Hx, Hy.
  apply grid_set_cell in Hset as [Hs Hc]; try lia.
  intros x' y'. rewrite Hc. destruct (decide _) as [[-> ->]|]; [ | apply Hu ].
  rewrite Hu in Hs. rewrite new_maze_cell in *.
  destruct (decide _); [ reflexivity | ]. destruct Hs; discriminate.
Qed.

End GridFacts.

(* --------------------------------------------------------------------- *)
(** ** Flood fill: paths through open cells                               *)
(* --------------------------------------------------------------------- *)
Module ReachFacts.
Import PyFacts Maze Terms GridFacts.

Lemma reach_mono (m m' : grid) (a b : Z * Z) :
  (forall c, opened m c -> opened m' c) -> reach m a b -> reach m' a b.
Proof.
  intros Hsub. unfold reach. apply rtc_subrel.
  intros x y (Hx & Hy & Hadj). repeat split; auto.
Qed.

Lemma reach_trans (m : grid) (a b c : Z * Z) :
  reach m a b -> reach m b c -> reach m a c.
Proof. unfold reach. intros H1 H2. eapply rtc_trans; eassumption. Qed.

Lemma reach_next (m : grid) (a b c : Z * Z) :
  reach m a b -> opened m b -> opened m c -> adjacent b c -> reach m a c.
Proof.
  intros Hab Hb Hc Hadj. unfold reach. eapply rtc_r; [ exact Hab | ].
  repeat split; assumption.
Qed.

(** A straight run of open cells along a unit vector. *)
Lemma reach_line (m : grid) (x y ux uy : Z) (n : nat) :
  Z.abs ux + Z.abs uy = 1 ->
  (forall k, 0 <= k <= Z.of_nat n -> opened m (x + k * ux, y + k * uy)) ->
  reach m (x, y) (x + Z.of_nat n * ux, y + Z.of_nat n * uy).
Proof.
  intros Hu. induction n as [|n IH]; intros Hopen.
  - replace (x + Z.of_nat 0 * ux) with x by lia.
    replace (y + Z.of_nat 0 * uy) with y by lia. apply rtc_refl.
  - eapply reach_next.
    + apply IH. intros k Hk. apply Hopen. lia.
    + apply Hopen. lia.
    + apply Hopen. lia.
    + unfold adjacent. simpl. lia.
Qed.

(** A signed horizontal run, and a signed vertical one. *)
Lemma reach_row (m : grid) (x y a : Z) :
  (forall k, Z.min 0 a <= k <= Z.max 0 a -> opened m (x + k, y)) ->
  reach m (x, y) (x + a, y).
Proof.
  intros Hopen.
  pose proof (reach_line m x y (Z.sgn a) 0 (Z.abs_nat a)) as H.
  rewrite Zabs2Nat.id_abs in H.
  replace (x + Z.abs a * Z.sgn a) with (x + a) in H by lia.
  replace (y + Z.abs a * 0) with y in H by lia.
  destruct (Z.eq_dec a 0) as [->|Hne].
  - replace (x + 0) with x by lia. apply rtc_refl.
  - apply H; [ lia | ]. intros k Hk.
    replace (y + k * 0) with y by lia. apply Hopen. nia.
Qed.

Lemma reach_column (m : grid) (x y b : Z) :
  (forall k, Z.min 0 b <= k <= Z.max 0 b -> opened m (x, y + k)) ->
  reach m (x, y) (x, y + b).
Proof.
  intros Hopen.
  pose proof (reach_line m x y 0 (Z.sgn b) (Z.abs_nat b)) as H.
  rewrite Zabs2Nat.id_abs in H.
  replace (y + Z.abs b * Z.sgn b) with (y + b) in H by lia.
  replace (x + Z.abs b * 0) with x in H by lia.
  destruct (Z.eq_dec b 0) as [->|Hne].
  - replace (y + 0) with y by lia. apply rtc_refl.
  - apply H; [ lia | ]. intros k Hk.
    replace (x + k * 0) with x by lia. apply Hopen. nia.
Qed.

(** Along the row, then along the column; and the other way round. *)
Lemma reach_row_column (m : grid) (x y a b : Z) :
  (forall k, Z.min 0 a <= k <= Z.max 0 a -> opened m (x + k, y)) ->
  (forall k, Z.min 0 b <= k <= Z.max 0 b -> opened m (x + a, y + k)) ->
  reach m (x, y) (x + a, y + b).
Proof.
  intros Hrow Hcol. eapply reach_trans.
  - apply reach_row. exact Hrow.
  - apply reach_column. exact Hcol.
Qed.

Lemma reach_column_row (m : grid) (x y a b : Z) :
  (forall k, Z.min 0 b <= k <= Z.max 0 b -> opened m (x, y + k)) ->
  (forall k, Z.min 0 a <= k <= Z.max 0 a -> opened m (x + k, y + b)) ->
  reach m (x, y) (x + a, y + b).
Proof.
  intros Hcol Hrow. eapply reach_trans.
  - apply reach_column. exact Hcol.
  - apply reach_row. exact Hrow.
Qed.

(** Carving keeps the flood complete when every cell it opens is reached. *)
Lemma flooded_grew (P : Z * Z -> Prop) (m m' : grid) (s : Z * Z) :
  flooded m s -> grew P m m' ->
  (forall c, P c -> opened m' c -> reach m' s c) ->
  flooded m' s.
Proof.
  intros [Hs Hall] Hg Hnew. split.
  - eapply grew_opened; eauto.
  - intros [x y] Hc. destruct (Hg x y) as [E|(HP & _)].
    + apply reach_mono with (m := m).
      * intros c. eapply grew_opened; eauto.
      * apply Hall. destruct Hc as (v & Hv & Hnz). exists v. simpl in *.
        split; congruence.
    + apply Hnew; assumption.
Qed.

End ReachFacts.

(* --------------------------------------------------------------------- *)
(** ** The carver: blocks, corridors, one step, the loop                  *)
(* --------------------------------------------------------------------- *)
Module CarveFacts.
Import PyFacts Maze Terms GridFacts ReachFacts.

(** A loop whose passes only carve, and what its passes open. *)
Lemma carving_loop {A} (xs : list A) (body : A -> grid -> result grid)
    (P : Z * Z -> Prop) (cells : A -> Z * Z -> Prop) :
  (forall a t t', a ∈ xs -> body a t = Ok t' ->
     grew P t t' /\ forall c, cells a c -> opened t' c) ->
  forall s s', for_ xs body s = Ok s' ->
    grew P s s' /\ forall a c, a ∈ xs -> cells a c -> opened s' c.
Proof.
  intros Hbody s s' H. split.
  - revert H. apply (for_inv (grew P s)); [ | apply grew_refl ].
    intros a t t' Ha Ht Hb. eapply grew_trans; [ exact Ht | ].
    apply (Hbody a t t' Ha Hb).
  - intros a c Ha Hc. revert a Ha c Hc.
    apply (for_cover (fun a t => forall c, cells a c -> opened t c) xs body)
      with (s := s); [ | | exact H ].
    + intros a t t' Ha Hb. apply (Hbody a t t' Ha Hb).
    + intros a b t t' Hb Hq Hbb c Hc.
      apply (grew_opened P t t'); [ apply (Hbody b t t' Hb Hbb) | auto ].
Qed.

(** The guarded write of a tag 1, 2 or 3 that the inner loops repeat. *)
Lemma guarded_write (P : Z * Z -> Prop) (g : bool) (x y v : Z) (t t' : grid) :
  walkable v = true ->
  (g = true -> 0 <= x /\ 0 <= y /\ P (x, y)) ->
  (if g then grid_set t y x v else Ok t) = Ok t' ->
  grew P t t' /\ (g = true -> opened t' (x, y)).
Proof.
  intros Hv Hg H. destruct g.
  - destruct (Hg eq_refl) as (Hx & Hy & HP). split.
    + exact (grid_set_grew P t t' x y v Hx Hy Hv HP H).
    + intros _. apply (grid_set_opened t t' x y v Hx Hy (walkable_nonzero v Hv) H).
  - inv_ok. split; [ apply grew_refl | discriminate ].
Qed.

Lemma open_block_spec (w h cx cy : Z) (m m' : grid) :
  open_block w h cx cy m = Ok m' ->
  grew (box (cx, cy) (cx, cy)) m m' /\
  forall x y, cx - 3 <= x <= cx + 3 -> cy - 3 <= y <= cy + 3 ->
              0 <= x < w -> 0 <= y < h -> opened m' (x, y).
Proof.
  intros H. unfold open_block in H.
  apply (carving_loop _ _ (box (cx, cy) (cx, cy))
           (fun dy c => cy + dy = c.2 /\ cx - 3 <= c.1 <= cx + 3 /\
                        0 <= c.1 < w /\ 0 <= c.2 < h)) in H.
  - destruct H as [Hg Hc]. split; [ exact Hg | ].
    intros x y Hx Hy Hxw Hyh. apply (Hc (y - cy)).
    + apply elem_of_range. lia.
    + simpl. lia.
  - intros dy t t' Hdy Hinner. apply elem_of_range in Hdy.
    apply (carving_loop _ _ (box (cx, cy) (cx, cy))
             (fun dx c => c = (cx + dx, cy + dy) /\
                          0 <= c.1 < w /\ 0 <= c.2 < h)) in Hinner.
    + destruct Hinner as [Hg Hc]. split; [ exact Hg | ].
      intros [x y] (Hy & Hx & Hxw & Hyh). cbn [fst snd] in *.
      apply (Hc (x - cx)).
      * apply elem_of_range. lia.
      * split; [ f_equal; lia | simpl; lia ].
    + intros dx u u' Hdx Hw. apply elem_of_range in Hdx.
      apply (guarded_write (box (cx, cy) (cx, cy))) in Hw.
      * destruct Hw as [Hg Ho]. split; [ exact Hg | ].
        intros c (-> & Hxw & Hyh). cbn [fst snd] in *. apply Ho. lia.
      * reflexivity.
      * intros Hgd. unfold box. simpl. lia.
Qed.

Lemma directions_cases (dx dy : Z) :
  (dx, dy) ∈ directions ->
  (dx = 0 /\ dy = 12) \/ (dx = 12 /\ dy = 0) \/
  (dx = 0 /\ dy = -12) \/ (dx = -12 /\ dy = 0).
Proof.
  unfold directions. intros Hd.
  repeat (apply elem_of_cons in Hd as [Hd|Hd]); inversion Hd; subst; lia.
Qed.

(** The corridor between a coarse cell and the next. *)
Lemma carve_corridor_spec (w h cx cy dx dy : Z) (m m' : grid) :
  (dx, dy) ∈ directions ->
  0 <= cx -> 0 <= cy -> 0 <= cx + dx -> 0 <= cy + dy ->
  carve_corridor w h cx cy dx dy m = Ok m' ->
  grew (corridor cx cy dx dy) m m' /\
  forall s off, 1 <= s <= 11 -> -3 <= off <= 3 ->
    let c := corridor_cell cx cy dx dy s off in
    0 <= c.1 < w -> 0 <= c.2 < h -> opened m' c.
Proof.
  intros Hd Hcx Hcy Hnx Hny H. unfold carve_corridor in H.
  apply directions_cases in Hd.
  assert (Hlen : Z.abs dx + Z.abs dy = 12) by lia.
  rewrite Hlen in H.
  assert (Hux : unit_dir dx = Z.sgn dx /\ unit_dir dy = Z.sgn dy).
  { destruct Hd as [[-> ->]|[[-> ->]|[[-> ->]|[-> ->]]]]; split; reflexivity. }
  destruct Hux as [Hux Huy].
  apply (carving_loop _ _ (corridor cx cy dx dy)
           (fun s c => exists off, -3 <= off <= 3 /\
              c = corridor_cell cx cy dx dy s off /\
              0 <= c.1 < w /\ 0 <= c.2 < h)) in H.
  - destruct H as [Hg Hc]. split; [ exact Hg | ].
    intros s off Hs Hoff c Hxw Hyh. apply (Hc s).
    + apply elem_of_range. lia.
    + exists off. auto.
  - intros s t t' Hs Hinner. apply elem_of_range in Hs.
    rewrite Hux, Huy in Hinner.
    destruct (Z.eqb_spec dx 0) as [Hdx0|Hdx0]; cbn [negb] in Hinner.
    + apply (carving_loop _ _ (corridor cx cy dx dy)
               (fun off c => c = corridor_cell cx cy dx dy s off /\
                             0 <= c.1 < w /\ 0 <= c.2 < h)) in Hinner.
      * destruct Hinner as [Hg Hc]. split; [ exact Hg | ].
        intros c (off & Hoff & -> & Hxw & Hyh). apply (Hc off).
        -- apply elem_of_range. lia.
        -- auto.
      * intros off u u' Hoff Hw. apply elem_of_range in Hoff.
        assert (E : corridor_cell cx cy dx dy s off =
                    (cx + Z.sgn dx * s + off, cy + Z.sgn dy * s)).
        { unfold corridor_cell. f_equal; lia. }
        apply (guarded_write (corridor cx cy dx dy)) in Hw.
        -- destruct Hw as [Hg Ho]. split; [ exact Hg | ].
           intros c (-> & Hxw & Hyh). rewrite E in *. cbn [fst snd] in *.
           apply Ho. lia.
        -- reflexivity.
        -- intros Hgd. split; [ lia | ]. split; [ lia | ].
           exists s, off. split; [ lia | ]. split; [ lia | ]. now rewrite E.
    + apply (carving_loop _ _ (corridor cx cy dx dy)
               (fun off c => c = corridor_cell cx cy dx dy s off /\
                             0 <= c.1 < w /\ 0 <= c.2 < h)) in Hinner.
      * destruct Hinner as [Hg Hc]. split; [ exact Hg | ].
        intros c (off & Hoff & -> & Hxw & Hyh). apply (Hc off).
        -- apply elem_of_range. lia.
        -- auto.
      * intros off u u' Hoff Hw. apply elem_of_range in Hoff.
        assert (E : corridor_cell cx cy dx dy s off =
                    (cx + Z.sgn dx * s, cy + Z.sgn dy * s + off)).
        { unfold corridor_cell. f_equal; lia. }
        apply (guarded_write (corridor cx cy dx dy)) in Hw.
        -- destruct Hw as [Hg Ho]. split; [ exact Hg | ].
           intros c (-> & Hxw & Hyh). rewrite E in *. cbn [fst snd] in *.
           apply Ho. lia.
        -- reflexivity.
        -- intros Hgd. split; [ lia | ]. split; [ lia | ].
           exists s, off. split; [ lia | ]. split; [ lia | ]. now rewrite E.
Qed.

Lemma corridor_in_box (cx cy dx dy : Z) (c : Z * Z) :
  (dx, dy) ∈ directions -> corridor cx cy dx dy c ->
  box (cx, cy) (cx + dx, cy + dy) c.
Proof.
  intros Hd (s & off & Hs & Hoff & ->). apply directions_cases in Hd.
  unfold box, corridor_cell. cbn [fst snd]. lia.
Qed.

(** Every corridor cell inside the grid is reached from the cell the
    corridor starts at: along the direction, then across. *)
Lemma corridor_reached (w h cx cy dx dy : Z) (m : grid) :
  (dx, dy) ∈ directions -> shaped w h m -> opened m (cx, cy) ->
  (forall s off, 1 <= s <= 11 -> -3 <= off <= 3 ->
     let c := corridor_cell cx cy dx dy s off in
     0 <= c.1 < w -> 0 <= c.2 < h -> opened m c) ->
  forall c, corridor cx cy dx dy c -> opened m c -> reach m (cx, cy) c.
Proof.
  intros Hd Hsh Hcur Hcov c (s & off & Hs & Hoff & ->) Hc.
  apply directions_cases in Hd.
  assert (Hin : forall c', opened m c' -> 0 <= c'.1 < w /\ 0 <= c'.2 < h).
  { intros c' (v & Hv & _). apply Hsh. eauto. }
  apply Hin in Hc as Hcin. apply Hin in Hcur as Hcurin.
  unfold corridor_cell in Hcin. cbn [fst snd] in Hcin, Hcurin.
  set (ux := Z.sgn dx) in *. set (uy := Z.sgn dy) in *.
  assert (Hu : Z.abs ux + Z.abs uy = 1) by (subst ux uy; lia).
  eapply reach_trans.
  - (* along the direction *)
    pose proof (reach_line m cx cy ux uy (Z.to_nat s) Hu) as Hline.
    rewrite Z2Nat.id in Hline by lia. apply Hline.
    intros k Hk. destruct (Z.eq_dec k 0) as [->|Hk0].
    + replace (cx + 0 * ux) with cx by lia. replace (cy + 0 * uy) with cy by lia.
      exact Hcur.
    + replace (cx + k * ux, cy + k * uy) with (corridor_cell cx cy dx dy k 0)
        by (unfold corridor_cell; subst ux uy; f_equal; lia).
      apply Hcov; try lia; unfold corridor_cell; cbn [fst snd]; subst ux uy; lia.
  - (* across it *)
    pose proof (reach_line m (cx + s * ux) (cy + s * uy)
                  (Z.sgn off * Z.abs uy) (Z.sgn off * Z.abs ux) (Z.abs_nat off))
      as Hline.
    rewrite Zabs2Nat.id_abs in Hline.
    replace (corridor_cell cx cy dx dy s off)
      with (cx + s * ux + Z.abs off * (Z.sgn off * Z.abs uy),
            cy + s * uy + Z.abs off * (Z.sgn off * Z.abs ux))
      by (unfold corridor_cell; subst ux uy; f_equal; lia).
    destruct (Z.eq_dec off 0) as [->|Hoff0].
    + change (Z.abs 0) with 0.
      replace (cx + s * ux + 0 * (Z.sgn 0 * Z.abs uy)) with (cx + s * ux) by lia.
      replace (cy + s * uy + 0 * (Z.sgn 0 * Z.abs ux)) with (cy + s * uy) by lia.
      apply rtc_refl.
    + apply Hline; [ subst ux uy; lia | ].
      intros k Hk.
      replace (cx + s * ux + k * (Z.sgn off * Z.abs uy),
               cy + s * uy + k * (Z.sgn off * Z.abs ux))
        with (corridor_cell cx cy dx dy s (k * Z.sgn off))
        by (unfold corridor_cell; subst ux uy; f_equal; lia).
      apply Hcov; try lia; try nia;
        unfold corridor_cell; cbn [fst snd]; subst ux uy; nia.
Qed.

(** Every cell of a block inside the grid is reached from its centre. *)
Lemma block_reached (w h cx cy : Z) (m : grid) :
  opened m (cx, cy) -> shaped w h m ->
  (forall x y, cx - 3 <= x <= cx + 3 -> cy - 3 <= y <= cy + 3 ->
               0 <= x < w -> 0 <= y < h -> opened m (x, y)) ->
  forall c, box (cx, cy) (cx, cy) c -> opened m c -> reach m (cx, cy) c.
Proof.
  intros Hcen Hsh Hcov [x y] Hbox Hc.
  assert (Hin : forall c', opened m c' -> 0 <= c'.1 < w /\ 0 <= c'.2 < h).
  { intros c' (v & Hv & _). apply Hsh. eauto. }
  apply Hin in Hc as Hcin. apply Hin in Hcen as Hcenin.
  unfold box in Hbox. cbn [fst snd] in *.
  replace (x, y) with (cx + (x - cx), cy + (y - cy)) by (f_equal; lia).
  apply reach_row_column.
  - intros k Hk. apply Hcov; lia.
  - intros k Hk. apply Hcov; lia.
Qed.

End CarveFacts.

Module SkeletonFacts.
Import PyFacts Maze Terms GridFacts ReachFacts CarveFacts.

Lemma opened_inside (w h : Z) (m : grid) (c : Z * Z) :
  shaped w h m -> opened m c -> 0 <= c.1 < w /\ 0 <= c.2 < h.
Proof. intros Hsh (v & Hv & _). apply Hsh. eauto. Qed.

Lemma box_in_span (w h : Z) (a b c : Z * Z) :
  coarse w h a -> coarse w h b -> box a b c -> span w h c.
Proof. unfold coarse, box, span. lia. Qed.

(** One pass of the [for dx, dy in directions] loop. *)
Lemma try_directions_spec (w h : Z) (s cur : Z * Z) (dirs : list (Z * Z))
    (m m' : grid) (r : option (Z * Z)) :
  (forall d, d ∈ dirs -> d ∈ directions) ->
  shaped w h m -> flooded m s -> opened m cur -> coarse w h cur ->
  try_directions w h cur dirs m = Ok (m', r) ->
  grew (span w h) m m' /\ flooded m' s /\
  match r with
  | Some n => opened m' n /\ coarse w h n /\ cell m n.1 n.2 = Some 0
  | None => m' = m
  end.
Proof.
  intros Hdirs Hsh Hfl Hcur Hco. destruct cur as [cx cy].
  induction dirs as [|[dx dy] dirs IH]; cbn [try_directions]; intros H.
  - inv_ok. split; [ apply grew_refl | ]. split; [ assumption | reflexivity ].
  - assert (IH' := IH (fun d Hd => Hdirs d (list_elem_of_further _ _ _ Hd))).
    assert (Hd : (dx, dy) ∈ directions) by (apply Hdirs; left).
    clear IH. cbn [fst snd] in H.
    destruct ((6 <=? cx + dx) && (cx + dx <? w - 6) && (6 <=? cy + dy)
              && (cy + dy <? h - 6)) eqn:Hguard; [ | auto ].
    apply rbind_Ok in H as (v & Hread & H).
    destruct (Z.eqb_spec v 0) as [->|Hnz]; [ | auto ].
    apply rbind_Ok in H as (m1 & Hcor & H).
    apply rbind_Ok in H as (m2 & Hblk & H).
    inversion H; subst m' r; clear H.
    assert (Hn : 6 <= cx + dx < w - 6 /\ 6 <= cy + dy < h - 6) by lia.
    assert (Hc0 : 6 <= cx /\ 6 <= cy) by (unfold coarse in Hco; simpl in Hco; lia).
    pose proof (opened_inside w h m (cx, cy) Hsh Hcur) as Hcin. cbn [fst snd] in Hcin.
    apply grid_get_cell in Hread; [ | lia | lia ].
    apply carve_corridor_spec in Hcor as [Hg1 Hcov1]; try lia; [ | assumption ].
    apply open_block_spec in Hblk as [Hg2 Hcov2].
    assert (Hsh1 : shaped w h m1) by (eapply grew_shaped; eauto).
    assert (Hcur1 : opened m1 (cx, cy)) by (eapply grew_opened; eauto).
    assert (Hfl1 : flooded m1 s).
    { eapply flooded_grew; [ exact Hfl | exact Hg1 | ].
      intros c Hc Ho. apply reach_trans with (b := (cx, cy)).
      - eapply reach_mono; [ | apply Hfl; exact Hcur ].
        intros c'. eapply grew_opened; eauto.
      - apply (corridor_reached w h cx cy dx dy m1); auto. }
    assert (Hconext : coarse w h (cx + dx, cy + dy))
      by (unfold coarse; cbn [fst snd]; lia).
    assert (Hnext : opened m2 (cx + dx, cy + dy)) by (apply Hcov2; lia).
    assert (Hfl2 : flooded m2 s).
    { eapply flooded_grew; [ exact Hfl1 | exact Hg2 | ].
      intros c Hc Ho. apply reach_trans with (b := (cx + dx, cy + dy));
        [ | apply (block_reached w h (cx + dx) (cy + dy) m2); auto ].
      - set (c11 := corridor_cell cx cy dx dy 11 0).
        assert (H11 : opened m1 c11).
        { apply Hcov1; try lia; apply directions_cases in Hd;
            unfold corridor_cell; cbn [fst snd]; lia. }
        eapply reach_next with (b := c11).
        + eapply reach_mono; [ | apply Hfl1; exact H11 ].
          intros c'. eapply grew_opened; eauto.
        + eapply grew_opened; eauto.
        + assumption.
        + apply directions_cases in Hd. subst c11.
          unfold adjacent, corridor_cell. cbn [fst snd]. lia.
      - eapply grew_shaped; eauto. }
    split.
    + eapply grew_trans.
      * eapply grew_weaken; [ | exact Hg1 ].
        intros c Hc. apply (box_in_span w h (cx, cy) (cx + dx, cy + dy)); auto.
        apply corridor_in_box; assumption.
      * eapply grew_weaken; [ | exact Hg2 ].
        intros c Hc. apply (box_in_span w h _ _ c Hconext Hconext Hc).
    + split; [ exact Hfl2 | ]. cbn [fst snd]. auto.
Qed.

(** The [while] loop keeps its invariant, whatever the shuffles. *)
Lemma carve_loop_spec (fuel : nat) (w h : Z) (s : Z * Z) :
  forall (m : grid) (stack : list (Z * Z)) (e e' : entropy) (m' : grid),
    carver_inv w h s m stack ->
    carve_loop fuel w h m stack e = Ok (m', e') ->
    shaped w h m' /\ flooded m' s /\ grew (span w h) m m'.
Proof.
  induction fuel as [|fuel IH]; intros m stack e e' m' (Hsh & Hfl & Hst) H.
  - destruct stack as [|cur below]; simpl in H; [ | discriminate ].
    inv_ok. split; [ assumption | ]. split; [ assumption | apply grew_refl ].
  - destruct stack as [|cur below]; cbn [carve_loop] in H.
    { inv_ok. split; [ assumption | ]. split; [ assumption | apply grew_refl ]. }
    apply bind_Ok in H as (dirs & e1 & Hshuf & H).
    apply bind_Ok in H as ([m1 r] & e2 & Htry & H).
    apply lift_Ok in Htry as [Htry ->].
    destruct (Hst cur) as [Hcur Hco]; [ left | ].
    apply (try_directions_spec w h s) in Htry as (Hg & Hfl1 & Hr); try assumption.
    2:{ intros d Hd. eapply shuffle_elem_of; eauto. }
    cbn [fst snd] in H.
    assert (Hsh1 : shaped w h m1) by (eapply grew_shaped; eauto).
    assert (Hkeep : forall n, n ∈ cur :: below -> opened m1 n /\ coarse w h n).
    { intros n Hn. destruct (Hst n Hn) as [Ho Hc]. split; [ | exact Hc ].
      eapply grew_opened; eauto. }
    destruct r as [next|].
    + destruct Hr as (Hno & Hnc & _).
      apply IH in H as (Hsh' & Hfl' & Hg').
      * split; [ assumption | ]. split; [ assumption | ]. eapply grew_trans; eauto.
      * split; [ assumption | ]. split; [ assumption | ].
        intros n Hn. apply elem_of_cons in Hn as [->|Hn]; auto.
    + apply IH in H as (Hsh' & Hfl' & Hg').
      * split; [ assumption | ]. split; [ assumption | ]. eapply grew_trans; eauto.
      * split; [ assumption | ]. split; [ assumption | ].
        intros n Hn. apply Hkeep. now right.
Qed.

(** Lines 67-87: the cleared grid with the start block, and the stack
    that holds the start cell. *)
Lemma start_block_spec (w h : Z) (m0 m1 : grid) :
  let s := (start_coord w, start_coord h) in
  0 <= start_coord w < w -> 0 <= start_coord h < h ->
  (forall x y, cell m0 x y = cell (new_maze w h) x y) ->
  open_block w h s.1 s.2 m0 = Ok m1 ->
  carver_inv w h s m1 [s] /\ grew (span w h) m0 m1 /\
  forall x y, s.1 - 3 <= x <= s.1 + 3 -> s.2 - 3 <= y <= s.2 + 3 ->
              0 <= x < w -> 0 <= y < h -> opened m1 (x, y).
Proof.
  intros s Hsx Hsy Hm0 H. subst s. cbn [fst snd] in *.
  apply open_block_spec in H as [Hg Hcov].
  assert (Hsh0 : shaped w h m0).
  { intros x y. rewrite Hm0, new_maze_cell.
    destruct (decide _) as [Hin|Hout].
    - split; [ auto | eauto ].
    - split; [ intros [? ?]; discriminate | tauto ]. }
  assert (Hsh1 : shaped w h m1) by (eapply grew_shaped; eauto).
  assert (Hs : opened m1 (start_coord w, start_coord h)) by (apply Hcov; lia).
  assert (Hco : coarse w h (start_coord w, start_coord h)).
  { unfold coarse. cbn [fst snd]. unfold start_coord in *. div_lia. }
  split; [ | split; [ | exact Hcov ] ].
  - split; [ assumption | ]. split.
    + split; [ assumption | ].
      intros [x y] Hc. destruct (Hg x y) as [E|(Hb & _)].
      * exfalso. destruct Hc as (v & Hv & Hnz). cbn [fst snd] in Hv.
        rewrite E, Hm0, new_maze_cell in Hv.
        destruct (decide _); congruence.
      * apply (block_reached w h (start_coord w) (start_coord h) m1); auto.
    + intros n Hn. apply list_elem_of_singleton in Hn as ->. auto.
  - eapply grew_weaken; [ | exact Hg ].
    intros c Hc. apply (box_in_span w h _ _ c Hco Hco Hc).
Qed.

End SkeletonFacts.

(* --------------------------------------------------------------------- *)
(** ** Rooms, connectors and extra connections                            *)
(* --------------------------------------------------------------------- *)
Module OverlayFacts.
Import PyFacts Maze Terms GridFacts ReachFacts CarveFacts SkeletonFacts.




(** A candidate lies well inside the grid. *)
Lemma room_candidate_Ok (w h : Z) (c : Z * Z * Z * Z) (e e' : entropy) :
  room_candidate w h e = Ok (c, e') ->
  let '(rx, ry, rw, rh) := c in
  15 <= rw <= 25 /\ 15 <= rh <= 25 /\ (rw - 15) mod 2 = 0 /\ (rh - 15) mod 2 = 0 /\
  5 <= rx /\ rx + rw <= w - 6 /\ 5 <= ry /\ ry + rh <= h - 6.
Proof.
  unfold room_candidate. intros H.
  apply bind_Ok in H as (rw & e1 & Hrw & H).
  apply bind_Ok in H as (rh & e2 & Hrh & H).
  apply bind_Ok in H as (rx & e3 & Hrx & H).
  apply bind_Ok in H as (ry & e4 & Hry & H).
  apply ret_Ok in H as [-> _].
  apply randrange_Ok in Hrw, Hrh, Hrx, Hry. lia.
Qed.

Lemma carve_room_grew (w h rx ry rw rh : Z) (m m' : grid) :
  5 <= rx -> rx + rw <= w - 6 -> 5 <= ry -> ry + rh <= h - 6 ->
  carve_room rx ry rw rh m = Ok m' -> grew (interior w h) m m'.
Proof.
  intros Hx Hxw Hy Hyh H. unfold carve_room in H.
  apply (carving_loop _ _ (interior w h) (fun _ _ => False)) in H; [ tauto | ].
  intros y t t' Hyr Hrow. apply elem_of_range in Hyr.
  apply (carving_loop _ _ (interior w h) (fun _ _ => False)) in Hrow;
    [ split; tauto | ].
  intros x u u' Hxr Hset. apply elem_of_range in Hxr.
  split; [ | tauto ].
  apply (grid_set_grew (interior w h)) in Hset; auto; try lia.
  unfold interior; cbn [fst snd]; lia.
Qed.

Lemma first_passage_grew (P : Z * Z -> Prop) (cands : list Z) (guard : Z -> bool)
    (probe door : Z -> Z * Z) (m m' : grid) (hit : bool) :
  (forall c, c ∈ cands -> guard c = true ->
     0 <= (door c).1 /\ 0 <= (door c).2 /\ P ((door c).2, (door c).1)) ->
  first_passage cands guard probe door m = Ok (m', hit) -> grew P m m'.
Proof.
  induction cands as [|c cands IH]; intros Hd H; cbn [first_passage] in H.
  - inv_ok. apply grew_refl.
  - assert (IH' := IH (fun c Hc => Hd c (list_elem_of_further _ _ _ Hc))).
    destruct (guard c) eqn:Hg; [ | auto ].
    apply rbind_Ok in H as (v & _ & H).
    destruct (v =? 1); [ | auto ].
    apply rbind_Ok in H as (m1 & Hset & H). inversion H; subst.
    destruct (Hd c) as (Hy & Hx & HP); [ left | assumption | ].
    exact (grid_set_grew P m m' (door c).2 (door c).1 3 Hx Hy eq_refl HP Hset).
Qed.

Lemma connect_side_grew (w h rx ry rw rh : Z) (s : side) (m m' : grid) (hit : bool) :
  0 <= rw -> 0 <= rh ->
  5 <= rx -> rx + rw <= w - 6 -> 5 <= ry -> ry + rh <= h - 6 ->
  connect_side w h rx ry rw rh s m = Ok (m', hit) -> grew (interior w h) m m'.
Proof.
  intros Hrw Hrh Hx Hxw Hy Hyh H. destruct s; cbn [connect_side] in H;
    (eapply first_passage_grew; [ | exact H ]);
    intros c Hc _; apply elem_of_range3 in Hc; try lia;
    unfold interior; cbn [fst snd]; lia.
Qed.

Lemma connect_sides_grew (w h rx ry rw rh : Z) (sides : list side) :
  0 <= rw -> 0 <= rh ->
  5 <= rx -> rx + rw <= w - 6 -> 5 <= ry -> ry + rh <= h - 6 ->
  forall (n k : Z) (m m' : grid),
    connect_sides w h rx ry rw rh sides n k m = Ok m' -> grew (interior w h) m m'.
Proof.
  intros Hrw Hrh Hx Hxw Hy Hyh.
  induction sides as [|s sides IH]; intros n k m m' H; cbn [connect_sides] in H.
  - inv_ok. apply grew_refl.
  - destruct (k <=? n); [ inv_ok; apply grew_refl | ].
    apply rbind_Ok in H as ([m1 hit] & Hs & H).
    apply connect_side_grew in Hs; try assumption.
    apply IH in H. eapply grew_trans; eauto.
Qed.

Lemma overlay_room_grew (w h : Z) (c : Z * Z * Z * Z)
    (st st' : grid * option (list Room)) (e e' : entropy) :
  (let '(rx, ry, rw, rh) := c in
   0 <= rw /\ 0 <= rh /\
   5 <= rx /\ rx + rw <= w - 6 /\ 5 <= ry /\ ry + rh <= h - 6) ->
  overlay_room w h c st e = Ok (st', e') -> grew (interior w h) st.1 st'.1.
Proof.
  destruct c as [[[rx ry] rw] rh]. intros (Hrw & Hrh & Hx & Hxw & Hy & Hyh) H.
  unfold overlay_room in H. cbn [fst snd] in H.
  apply bind_Ok in H as (wc & e1 & _ & H).
  destruct (mostly_walls wc (rw * rh)); [ | inv_ok; apply grew_refl ].
  apply bind_Ok in H as (m1 & e2 & Hroom & H).
  apply lift_Ok in Hroom as [Hroom ->].
  destruct st.2 as [rooms|]; [ | inv_ok ].
  apply bind_Ok in H as (m2 & e3 & Hconn & H).
  apply ret_Ok in H as [-> _]. cbn [fst].
  unfold connect_room_to_maze in Hconn.
  apply bind_Ok in Hconn as (k & e4 & _ & Hconn).
  apply bind_Ok in Hconn as (sides & e5 & _ & Hconn).
  apply lift_Ok in Hconn as [Hconn _].
  apply grew_trans with (m2 := m1).
  - exact (carve_room_grew w h rx ry rw rh _ _ Hx Hxw Hy Hyh Hroom).
  - exact (connect_sides_grew w h rx ry rw rh sides Hrw Hrh Hx Hxw Hy Hyh _ _ _ _ Hconn).
Qed.

Lemma add_rooms_grew (w h : Z) (st st' : grid * option (list Room)) (e e' : entropy) :
  add_rooms w h st e = Ok (st', e') -> grew (interior w h) st.1 st'.1.
Proof.
  unfold add_rooms. intros H.
  apply bind_Ok in H as (n & e1 & _ & H). revert H.
  apply (forR_inv (fun t => grew (interior w h) st.1 t.1)); [ | apply grew_refl ].
  intros _ t t' e2 e3 _ Ht Hadd. unfold add_room in Hadd.
  apply bind_Ok in Hadd as (c & e4 & Hc & Hadd).
  apply room_candidate_Ok in Hc.
  eapply grew_trans; [ exact Ht | ].
  eapply overlay_room_grew; [ | exact Hadd ].
  destruct c as [[[rx ry] rw] rh]. lia.
Qed.

(** Without the [rooms] attribute a pass that returns did not accept its
    candidate, and the grid is large enough to draw one. *)
Lemma add_room_none (w h : Z) (m : grid) (st' : grid * option (list Room))
    (e e' : entropy) :
  add_room w h (m, None) e = Ok (st', e') ->
  st' = (m, None) /\ 26 <= w /\ 26 <= h.
Proof.
  unfold add_room. intros H.
  apply bind_Ok in H as (c & e1 & Hc & H).
  apply room_candidate_Ok in Hc. destruct c as [[[rx ry] rw] rh].
  unfold overlay_room in H. cbn [fst snd] in H.
  apply bind_Ok in H as (wc & e2 & _ & H).
  destruct (mostly_walls wc (rw * rh)).
  - apply bind_Ok in H as (m1 & e3 & _ & H). inv_ok.
  - apply ret_Ok in H as [-> _]. split; [ reflexivity | lia ].
Qed.

Lemma add_rooms_none (w h : Z) (m : grid) (st' : grid * option (list Room))
    (e e' : entropy) :
  add_rooms w h (m, None) e = Ok (st', e') ->
  st' = (m, None) /\ 26 <= w /\ 26 <= h.
Proof.
  unfold add_rooms. intros H.
  apply bind_Ok in H as (n & e1 & Hn & H).
  apply randint_Ok in Hn.
  unfold range in H. rewrite seqZ_cons in H by lia. cbn [forR] in H.
  apply bind_Ok in H as (st1 & e2 & H1 & H).
  apply add_room_none in H1 as (-> & Hw & Hh).
  split; [ | auto ]. revert H.
  apply (forR_inv (fun t => t = (m, None))); [ | reflexivity ].
  intros _ t t' e3 e4 _ -> Hadd. apply add_room_none in Hadd. tauto.
Qed.

End OverlayFacts.

Module ConnectionFacts.
Import PyFacts Maze Terms GridFacts ReachFacts CarveFacts SkeletonFacts OverlayFacts.

Lemma opposite_open_true (m : grid) (y1 x1 y2 x2 : Z) (e e' : entropy) :
  0 <= x1 -> 0 <= y1 ->
  opposite_open m y1 x1 y2 x2 e = Ok (true, e') -> opened m (x1, y1).
Proof.
  intros Hx Hy H. unfold opposite_open in H.
  apply bind_Ok in H as (a & e1 & Ha & H). apply lift_Ok in Ha as [Ha ->].
  apply grid_get_cell in Ha; try assumption.
  destruct (walkable a) eqn:Hw.
  - exists a. split; [ exact Ha | now apply walkable_nonzero ].
  - apply ret_Ok in H as [H _]. discriminate.
Qed.

(** Opening a wall cell beside an open cell keeps the flood complete. *)
Lemma door_flooded (w h : Z) (s : Z * Z) (m m' : grid) (x y : Z) (n : Z * Z) :
  1 <= x <= w - 2 -> 1 <= y <= h - 2 ->
  opened m n -> adjacent n (x, y) ->
  grid_set m y x 3 = Ok m' ->
  grew (interior w h) m m' /\ (flooded m s -> flooded m' s).
Proof.
  intros Hx Hy Hn Hadj Hset.
  assert (Hg : grew (fun c => c = (x, y)) m m').
  { apply (grid_set_grew _ m m' x y 3); auto; lia. }
  split.
  - eapply grew_weaken; [ | exact Hg ].
    intros c ->. unfold interior. cbn [fst snd]. lia.
  - intros Hfl. eapply flooded_grew; [ exact Hfl | exact Hg | ].
    intros c -> Ho. apply reach_next with (b := n).
    + eapply reach_mono; [ | apply Hfl; exact Hn ].
      intros c'. eapply grew_opened; eauto.
    + eapply grew_opened; eauto.
    + assumption.
    + assumption.
Qed.

Lemma try_connection_spec (w h : Z) (s : Z * Z) (st st' : grid * Z) (e e' : entropy) :
  try_connection w h st e = Ok (st', e') ->
  grew (interior w h) st.1 st'.1 /\ (flooded st.1 s -> flooded st'.1 s).
Proof.
  unfold try_connection. intros H.
  apply bind_Ok in H as (x & e1 & Hx & H). apply randrange_Ok in Hx.
  apply bind_Ok in H as (y & e2 & Hy & H). apply randrange_Ok in Hy.
  apply bind_Ok in H as (v & e3 & _ & H).
  destruct (v =? 0); [ | inv_ok; split; [ apply grew_refl | auto ] ].
  apply bind_Ok in H as ([|] & e4 & Hh & H).
  - apply opposite_open_true in Hh; try lia.
    apply bind_Ok in H as (m1 & e5 & Hset & H). apply lift_Ok in Hset as [Hset ->].
    apply ret_Ok in H as [-> _]. cbn [fst].
    apply (door_flooded w h s _ _ x y (x - 1, y)); auto; try lia.
    unfold adjacent. cbn [fst snd]. lia.
  - apply bind_Ok in H as ([|] & e5 & Hv & H).
    + apply opposite_open_true in Hv; try lia.
      apply bind_Ok in H as (m1 & e6 & Hset & H). apply lift_Ok in Hset as [Hset ->].
      apply ret_Ok in H as [-> _]. cbn [fst].
      apply (door_flooded w h s _ _ x y (x, y - 1)); auto; try lia.
      unfold adjacent. cbn [fst snd]. lia.
    + inv_ok. split; [ apply grew_refl | auto ].
Qed.

Lemma connection_attempts_spec (w h k : Z) (s : Z * Z) (n : nat) :
  forall (st st' : grid * Z) (e e' : entropy),
    connection_attempts n w h k st e = Ok (st', e') ->
    grew (interior w h) st.1 st'.1 /\ (flooded st.1 s -> flooded st'.1 s).
Proof.
  induction n as [|n IH]; intros st st' e e' H; cbn [connection_attempts] in H.
  - inv_ok. split; [ apply grew_refl | auto ].
  - destruct (k <=? st.2); [ inv_ok; split; [ apply grew_refl | auto ] | ].
    apply bind_Ok in H as (st1 & e1 & H1 & H).
    apply (try_connection_spec w h s) in H1 as [Hg1 Hf1].
    apply IH in H as [Hg2 Hf2].
    split; [ eapply grew_trans; eauto | auto ].
Qed.

Lemma add_random_connections_spec (w h : Z) (s : Z * Z) (m m' : grid) (e e' : entropy) :
  add_random_connections w h m e = Ok (m', e') ->
  grew (interior w h) m m' /\ (flooded m s -> flooded m' s).
Proof.
  unfold add_random_connections. intros H.
  apply bind_Ok in H as (k & e1 & _ & H).
  apply bind_Ok in H as (st & e2 & Hst & H).
  apply ret_Ok in H as [-> _].
  apply (connection_attempts_spec w h k s) in Hst. exact Hst.
Qed.

End ConnectionFacts.

(* --------------------------------------------------------------------- *)
(** ** [generate_maze] as a whole                                         *)
(* --------------------------------------------------------------------- *)
Module GenerateFacts.
Import PyFacts Maze Terms GridFacts ReachFacts CarveFacts SkeletonFacts.
Import OverlayFacts ConnectionFacts.

Lemma generate_maze_parts (w h : Z) (rooms r : option (list Room)) (m : grid)
    (e e' : entropy) :
  generate_maze w h rooms e = Ok ((m, r), e') ->
  exists m0 m1 m2 st e1 e2,
    clear_maze w h (new_maze w h) = Ok m0 /\
    open_block w h (start_coord w) (start_coord h) m0 = Ok m1 /\
    carve_loop (carve_fuel w h) w h m1 [(start_coord w, start_coord h)] e
      = Ok (m2, e1) /\
    add_rooms w h (m2, rooms) e1 = Ok (st, e2) /\
    add_random_connections w h st.1 e2 = Ok (m, e') /\
    r = st.2.
Proof.
  unfold generate_maze. intros H.
  apply bind_Ok in H as (m0 & e0 & H0 & H). apply lift_Ok in H0 as [H0 ->].
  apply bind_Ok in H as (m1 & e1 & H1 & H). apply lift_Ok in H1 as [H1 ->].
  apply bind_Ok in H as (m2 & e2 & H2 & H).
  apply bind_Ok in H as (st & e3 & H3 & H).
  apply bind_Ok in H as (m3 & e4 & H4 & H).
  apply ret_Ok in H as [H ->]. inversion H; subst.
  exists m0, m1, m2, st, e2, e3. auto 10.
Qed.

(** The carved skeleton: shape, complete flood, the open start block, and
    no write outside the span of the coarse cells. *)
Lemma skeleton_spec (w h : Z) (m0 m1 m2 : grid) (e e1 : entropy) :
  0 <= start_coord w < w -> 0 <= start_coord h < h ->
  clear_maze w h (new_maze w h) = Ok m0 ->
  open_block w h (start_coord w) (start_coord h) m0 = Ok m1 ->
  carve_loop (carve_fuel w h) w h m1 [(start_coord w, start_coord h)] e
    = Ok (m2, e1) ->
  shaped w h m2 /\ flooded m2 (start_coord w, start_coord h) /\
  grew (span w h) m0 m2 /\
  (forall x y, cell m0 x y = cell (new_maze w h) x y) /\
  forall x y, start_coord w - 3 <= x <= start_coord w + 3 ->
              start_coord h - 3 <= y <= start_coord h + 3 ->
              0 <= x < w -> 0 <= y < h -> opened m2 (x, y).
Proof.
  intros Hsx Hsy H0 H1 H2.
  pose proof (clear_maze_cell w h m0 H0) as Hm0.
  apply (start_block_spec w h m0 m1 Hsx Hsy Hm0) in H1 as (Hinv & Hg1 & Hcov).
  apply (carve_loop_spec _ w h _ _ _ _ _ _ Hinv) in H2 as (Hsh & Hfl & Hg2).
  split; [ assumption | ]. split; [ assumption | ].
  split; [ eapply grew_trans; eauto | ]. split; [ assumption | ].
  intros x y Hx Hy Hxw Hyh. eapply grew_opened; [ exact Hg2 | ].
  apply Hcov; assumption.
Qed.

(** The constructor's call: no [rooms] attribute. *)
Lemma generate_maze_flooded (w h : Z) (r : option (list Room)) (m : grid)
    (e e' : entropy) :
  generate_maze w h None e = Ok ((m, r), e') ->
  26 <= w /\ 26 <= h /\ r = None /\ shaped w h m /\
  flooded m (start_coord w, start_coord h) /\
  (forall x y v, cell m x y = Some v -> v = 0 \/ walkable v = true) /\
  forall x y, start_coord w - 3 <= x <= start_coord w + 3 ->
              start_coord h - 3 <= y <= start_coord h + 3 ->
              0 <= x < w -> 0 <= y < h -> opened m (x, y).
Proof.
  intros H.
  apply generate_maze_parts in H as (m0 & m1 & m2 & st & e1 & e2 &
                                     H0 & H1 & H2 & H3 & H4 & ->).
  apply add_rooms_none in H3 as (-> & Hw & Hh). cbn [fst snd] in *.
  assert (Hsx : 0 <= start_coord w < w) by (unfold start_coord; div_lia).
  assert (Hsy : 0 <= start_coord h < h) by (unfold start_coord; div_lia).
  destruct (skeleton_spec w h m0 m1 m2 e e1 Hsx Hsy H0 H1 H2)
    as (Hsh & Hfl & Hg & Hm0 & Hcov).
  apply (add_random_connections_spec w h (start_coord w, start_coord h)) in H4
    as [Hg4 Hf4].
  split; [ assumption | ]. split; [ assumption | ]. split; [ reflexivity | ].
  split; [ eapply grew_shaped; eauto | ]. split; [ auto | ]. split.
  - intros x y v Hv.
    assert (Hall : grew (fun _ => True) m0 m).
    { eapply grew_trans; eapply grew_weaken; eauto. }
    destruct (Hall x y) as [E|(_ & _ & v' & Hv' & Hw')].
    + rewrite E, Hm0, new_maze_cell in Hv. destruct (decide _); [ | discriminate ].
      left. congruence.
    + right. congruence.
  - intros x y Hx Hy Hxw Hyh. eapply grew_opened; [ exact Hg4 | ].
    apply Hcov; assumption.
Qed.

(** Whatever [rooms] is: on a grid of 29 by 29 or more no write touches
    the border. *)
Lemma generate_maze_interior (w h : Z) (rooms r : option (list Room)) (m : grid)
    (e e' : entropy) :
  29 <= w -> 29 <= h ->
  generate_maze w h rooms e = Ok ((m, r), e') ->
  exists m0, (forall x y, cell m0 x y = cell (new_maze w h) x y) /\
             grew (interior w h) m0 m.
Proof.
  intros Hw Hh H.
  apply generate_maze_parts in H as (m0 & m1 & m2 & st & e1 & e2 &
                                     H0 & H1 & H2 & H3 & H4 & ->).
  assert (Hsx : 0 <= start_coord w < w) by (unfold start_coord; div_lia).
  assert (Hsy : 0 <= start_coord h < h) by (unfold start_coord; div_lia).
  destruct (skeleton_spec w h m0 m1 m2 e e1 Hsx Hsy H0 H1 H2)
    as (Hsh & Hfl & Hg & Hm0 & Hcov).
  apply add_rooms_grew in H3. cbn [fst] in H3.
  apply (add_random_connections_spec w h (0, 0)) in H4 as [Hg4 _].
  exists m0. split; [ exact Hm0 | ].
  apply grew_trans with (m2 := m2); [ | eapply grew_trans; eauto ].
  eapply grew_weaken; [ | exact Hg ].
  intros c. unfold span, interior, start_coord. div_lia.
Qed.

End GenerateFacts.

(* --------------------------------------------------------------------- *)
(** ** The constructor [MazeMap.__init__]                                 *)
(* --------------------------------------------------------------------- *)
Module InitFacts.
Import PyFacts Maze Terms GridFacts ReachFacts GenerateFacts.

Lemma MazeMap_init_parts (w h b : Z) (mm : MazeMap) (e e' : entropy) :
  MazeMap_init w h b e = Ok (mm, e') ->
  width mm = effective w /\ height mm = effective h /\
  base_level mm = b /\ rooms mm = [] /\
  exists r e1 e2 e3,
    generate_maze (effective w) (effective h) None e = Ok ((maze mm, r), e1) /\
    place_monsters (effective w) (effective h) (maze mm) e2 = Ok (monsters mm, e3) /\
    place_treasures (effective w) (effective h) (maze mm) [] (monsters mm) e3
      = Ok (treasures mm, e').
Proof.
  unfold MazeMap_init. intros H.
  apply bind_Ok in H as ([m r] & e1 & Hgen & H).
  apply bind_Ok in H as (t & e2 & _ & H).
  apply bind_Ok in H as (ms & e3 & Hmon & H).
  apply bind_Ok in H as (ts & e4 & Htre & H).
  apply ret_Ok in H as [-> ->]. cbn.
  repeat (split; [ reflexivity | ]).
  exists r, e1, e2, e3. auto.
Qed.

Lemma grew_tagged (P : Z * Z -> Prop) (m m' : grid) :
  grew P m m' -> tagged m -> tagged m'.
Proof.
  intros Hg Ht x y v Hv. destruct (Hg x y) as [E|(_ & _ & v' & Hv' & Hw)].
  - apply (Ht x y). congruence.
  - right. congruence.
Qed.

Lemma opened_walkable (m : grid) (x y : Z) :
  tagged m -> opened m (x, y) ->
  exists v, grid_get m y x = Ok v /\ walkable v = true.
Proof.
  intros Ht (v & Hv & Hnz). cbn [fst snd] in Hv. exists v.
  destruct (cell_nonneg m x y) as [Hx Hy]; [ eauto | ].
  split; [ now apply grid_get_cell | ].
  destruct (Ht x y v Hv); [ contradiction | assumption ].
Qed.

(** What the constructor's maze is, in one statement. *)
Lemma MazeMap_init_maze (w h b : Z) (mm : MazeMap) (e e' : entropy) :
  MazeMap_init w h b e = Ok (mm, e') ->
  26 <= width mm /\ 26 <= height mm /\
  shaped (width mm) (height mm) (maze mm) /\
  flooded (maze mm) (start_coord (width mm), start_coord (height mm)) /\
  tagged (maze mm) /\
  forall x y, start_coord (width mm) - 3 <= x <= start_coord (width mm) + 3 ->
              start_coord (height mm) - 3 <= y <= start_coord (height mm) + 3 ->
              0 <= x < width mm -> 0 <= y < height mm -> opened (maze mm) (x, y).
Proof.
  intros H. apply MazeMap_init_parts in H
    as (-> & -> & _ & _ & r & e1 & e2 & e3 & Hgen & _).
  apply generate_maze_flooded in Hgen as (Hw & Hh & _ & Hsh & Hfl & Htag & Hcov).
  auto 10.
Qed.

End InitFacts.

(* --------------------------------------------------------------------- *)
(** ** Theorems on the generator                                          *)
(* --------------------------------------------------------------------- *)
Module MazeTheorems.
Import PyFacts Maze Terms GridFacts ReachFacts GenerateFacts InitFacts.

(** Two runs of the constructor on the exhausted entropy tape return. *)
Lemma run_31_31 : is_ok (MazeMap_init 31 31 0 []) = true.
Proof. vm_compute. reflexivity. Qed.

(** C1.  For every maze the constructor returns (carved skeleton, room
    overlay and loop augmentation complete), the start seed cell is open
    and a flood fill from it visits every cell that is not a wall; in
    particular every cell tagged as room is visited. *)
Theorem C1_flood_fill_reaches_every_open_cell
    (w h b : Z) (e e' : entropy) (mm : MazeMap) :
  MazeMap_init w h b e = Ok (mm, e') ->
  let start := (start_coord (width mm), start_coord (height mm)) in
  opened (maze mm) start /\
  (forall x y v, cell (maze mm) x y = Some v -> v <> 0 ->
                 reach (maze mm) start (x, y)) /\
  (forall x y, cell (maze mm) x y = Some 2 -> reach (maze mm) start (x, y)).
Proof.
  intros H start. apply MazeMap_init_maze in H as (_ & _ & _ & [Hs Hall] & _).
  split; [ exact Hs | ]. split.
  - intros x y v Hv Hnz. apply Hall. exists v. auto.
  - intros x y Hv. apply Hall. exists 2. split; [ exact Hv | lia ].
Qed.

Lemma C1_witness :
  match MazeMap_init 31 31 0 [] with
  | Ok (mm, _) =>
      opened (maze mm) (start_coord (width mm), start_coord (height mm)) /\
      (forall x y v, cell (maze mm) x y = Some v -> v <> 0 ->
         reach (maze mm) (start_coord (width mm), start_coord (height mm)) (x, y)) /\
      (forall x y, cell (maze mm) x y = Some 2 ->
         reach (maze mm) (start_coord (width mm), start_coord (height mm)) (x, y))
  | _ => False
  end.
Proof.
  pose proof run_31_31 as Hrun.
  destruct (MazeMap_init 31 31 0 []) as [[mm e']| |] eqn:E;
    [ | discriminate Hrun | discriminate Hrun ].
  exact (C1_flood_fill_reaches_every_open_cell 31 31 0 [] e' mm E).
Defined.

End MazeTheorems.

(* --------------------------------------------------------------------- *)
(** ** [Game3D]: the spawn search                                         *)
(* --------------------------------------------------------------------- *)
Module SpawnFacts.
Import Reals Lra.
Import PyFacts Maze Terms GridFacts ReachFacts CarveFacts InitFacts Engine.

Lemma int_of_float_between (n : Z) (r : R) :
  (0 <= n)%Z -> (IZR n <= r < IZR n + 1)%R -> int_of_float r = n.
Proof.
  intros Hn Hr. unfold int_of_float.
  assert (0 <= IZR n)%R by (apply IZR_le; assumption).
  destruct (Rle_dec 0 r) as [_|Hneg]; [ | exfalso; apply Hneg; lra ].
  symmetry. apply Int_part_spec. lra.
Qed.

Lemma int_of_float_IZR (n : Z) : int_of_float (IZR n) = n.
Proof.
  unfold int_of_float. destruct (Rle_dec 0 (IZR n)) as [Hpos|Hneg].
  - symmetry. apply Int_part_spec. lra.
  - rewrite <- opp_IZR.
    assert (E : (- n)%Z = Int_part (IZR (- n))) by (apply Int_part_spec; lra).
    lia.
Qed.

Lemma first_hit_Some (test : Z * Z -> result bool) (cands : list (Z * Z)) (c : Z * Z) :
  first_hit test cands = Ok (Some c) -> test c = Ok true.
Proof.
  induction cands as [|d cands IH]; cbn [first_hit]; intros H; [ discriminate | ].
  apply rbind_Ok in H as ([|] & Hd & H); [ | auto ].
  inversion H; subst. exact Hd.
Qed.

Lemma first_hit_None (test : Z * Z -> result bool) (cands : list (Z * Z)) :
  first_hit test cands = Ok None -> forall c, c ∈ cands -> test c = Ok false.
Proof.
  induction cands as [|d cands IH]; cbn [first_hit]; intros H c Hc.
  - inversion Hc.
  - apply rbind_Ok in H as ([|] & Hd & H); [ discriminate | ].
    apply elem_of_cons in Hc as [->|Hc]; auto.
Qed.

Lemma walkable_at_true (m : MazeMap) (c : Z * Z) :
  walkable_at m c = Ok true ->
  exists v, grid_get (maze m) c.2 c.1 = Ok v /\ walkable v = true.
Proof.
  unfold walkable_at. destruct (_ && _); [ | discriminate ].
  intros H. apply rbind_Ok in H as (v & Hv & H). inversion H. eauto.
Qed.

Lemma walkable_read_true (m : MazeMap) (c : Z * Z) :
  walkable_read m c = Ok true ->
  exists v, grid_get (maze m) c.2 c.1 = Ok v /\ walkable v = true.
Proof.
  unfold walkable_read. intros H.
  apply rbind_Ok in H as (v & Hv & H). inversion H. eauto.
Qed.

(** Whatever method finds the spawn, the cell there passed the test. *)
Lemma search_spawn_Some (m : MazeMap) (ring step : Z) (c : Z * Z) :
  search_spawn m ring step = Ok (Some c) ->
  exists v, grid_get (maze m) c.2 c.1 = Ok v /\ walkable v = true.
Proof.
  unfold search_spawn. intros H.
  apply rbind_Ok in H as (in_room & Hroom & H).
  destruct in_room as [c1|].
  - inversion H; subst. destruct (rooms m); [ discriminate | ].
    apply first_hit_Some in Hroom. now apply walkable_at_true.
  - apply rbind_Ok in H as (nearby & Hnear & H).
    destruct nearby as [c2|].
    + inversion H; subst. apply first_hit_Some in Hnear. now apply walkable_at_true.
    + apply first_hit_Some in H. now apply walkable_read_true.
Qed.

(** With no hit at all, every cell of the ring search failed its test. *)
Lemma search_spawn_None (m : MazeMap) (ring step : Z) :
  search_spawn m ring step = Ok None ->
  forall c, c ∈ ring_candidates (width m / 2) (height m / 2) ring ->
            walkable_at m c = Ok false.
Proof.
  unfold search_spawn. intros H.
  apply rbind_Ok in H as (in_room & Hroom & H).
  destruct in_room as [c1|]; [ discriminate | ].
  apply rbind_Ok in H as (nearby & Hnear & H).
  destruct nearby as [c2|]; [ discriminate | ].
  exact (first_hit_None _ _ Hnear).
Qed.

(** Method 4. *)
Lemma force_spawn_area_spec (m m' : MazeMap) (sx sz : Z) :
  force_spawn_area m sx sz = Ok m' ->
  width m' = width m /\ height m' = height m /\
  grew (fun c => sx - 2 <= c.1 <= sx + 2 /\ sz - 2 <= c.2 <= sz + 2)
       (maze m) (maze m') /\
  (0 <= sx < width m -> 0 <= sz < height m -> opened (maze m') (sx, sz)).
Proof.
  unfold force_spawn_area. intros H.
  apply rbind_Ok in H as (g & Hg & H). inversion H; subst; clear H. cbn.
  split; [ reflexivity | ]. split; [ reflexivity | ].
  apply (carving_loop _ _
           (fun c => sx - 2 <= c.1 <= sx + 2 /\ sz - 2 <= c.2 <= sz + 2)
           (fun dx c => c.1 = sx + dx /\ c.2 = sz /\
                        0 <= c.1 < width m /\ 0 <= c.2 < height m)) in Hg.
  - destruct Hg as [Hgr Hc]. split; [ exact Hgr | ].
    intros Hx Hz. apply (Hc 0).
    + apply elem_of_range. lia.
    + cbn [fst snd]. lia.
  - intros dx t t' Hdx Hinner. apply elem_of_range in Hdx.
    apply (carving_loop _ _
             (fun c => sx - 2 <= c.1 <= sx + 2 /\ sz - 2 <= c.2 <= sz + 2)
             (fun dz c => c = (sx + dx, sz + dz) /\
                          0 <= c.1 < width m /\ 0 <= c.2 < height m)) in Hinner.
    + destruct Hinner as [Hgr Hc]. split; [ exact Hgr | ].
      intros [x z] (Hx & Hz & Hxw & Hzh). cbn [fst snd] in *.
      apply (Hc 0).
      * apply elem_of_range. lia.
      * split; [ f_equal; lia | cbn [fst snd]; lia ].
    + intros dz u u' Hdz Hw. apply elem_of_range in Hdz.
      apply (guarded_write
               (fun c => sx - 2 <= c.1 <= sx + 2 /\ sz - 2 <= c.2 <= sz + 2)) in Hw.
      * destruct Hw as [Hgr Ho]. split; [ exact Hgr | ].
        intros c (-> & Hxw & Hzh). cbn [fst snd] in *. apply Ho. lia.
      * reflexivity.
      * intros Hgd. cbn [fst snd]. lia.
Qed.

Lemma cell_under_player_at (r : Renderer) (m : MazeMap) (p : Player) (x z : Z) (v : Z) :
  vx (position p) = IZR x -> vz (position p) = IZR z ->
  grid_get (maze m) z x = Ok v ->
  cell_under_player (mkGame3D r m p) = Ok v.
Proof.
  intros Hx Hz Hv. unfold cell_under_player. cbn.
  rewrite Hx, Hz, !int_of_float_IZR. exact Hv.
Qed.

Lemma effective_81 : effective 81 = 81.
Proof. reflexivity. Qed.

End SpawnFacts.

Module GameTheorems.
Import Reals Lra.
Import PyFacts Maze Terms GameTerms GridFacts ReachFacts CarveFacts InitFacts Engine.
Import SpawnFacts.

(** The constructor's 81 by 81 maze: its shape, its tags and the open
    start block around (48, 48). *)
Lemma default_maze (mm : MazeMap) (e e' : entropy) :
  MazeMap_init 81 81 0 e = Ok (mm, e') ->
  width mm = 81 /\ height mm = 81 /\ tagged (maze mm) /\
  forall x y, 45 <= x <= 51 -> 45 <= y <= 51 -> opened (maze mm) (x, y).
Proof.
  intros H. pose proof (MazeMap_init_parts _ _ _ _ _ _ H) as (Hw & Hh & _).
  apply MazeMap_init_maze in H as (_ & _ & _ & _ & Htag & Hcov).
  rewrite Hw, Hh in Hcov. change (effective 81) with 81 in *.
  split; [ assumption | ]. split; [ assumption | ]. split; [ assumption | ].
  intros x y Hx Hy. apply Hcov; change (start_coord 81) with 48; lia.
Qed.

Lemma ring_has_start_block : (45, 45) ∈ ring_candidates 40 40 20.
Proof.
  unfold ring_candidates. apply list_elem_of_bind. exists 5. split.
  - apply list_elem_of_bind. exists 5. split.
    + apply list_elem_of_bind. exists 5. split.
      * apply list_elem_of_singleton. reflexivity.
      * vm_compute. repeat constructor.
    + vm_compute. repeat constructor.
  - apply elem_of_range. lia.
Qed.

(** C2.  After every spawn selection, the one of the constructor and the
    one of every regeneration, the maze cell under the player holds one of
    the tags 1, 2, 3 (corridor, room, door) and never 0 (wall). *)
Theorem C2_spawn_cell_is_walkable (g : Game3D) :
  spawned g ->
  exists v, cell_under_player g = Ok v /\ walkable v = true /\ v <> 0.
Proof.
  intros (e & e' & Hg).
  assert (Hgoal : exists v, cell_under_player g = Ok v /\ walkable v = true).
  2:{ destruct Hgoal as (v & Hv & Hw). exists v. repeat split; auto.
      now apply walkable_nonzero. }
  destruct Hg as [Hinit|[g0 Hregen]].
  - unfold Game3D_init in Hinit.
    apply bind_Ok in Hinit as (m & e1 & Hm & H).
    apply bind_Ok in H as (found & e2 & Hfound & H).
    apply lift_Ok in Hfound as [Hfound ->].
    apply bind_Ok in H as ([m' [sx sz]] & e3 & Hplaced & H).
    apply lift_Ok in Hplaced as [Hplaced ->].
    apply ret_Ok in H as [-> _]. cbn [fst snd].
    destruct found as [c|].
    + inversion Hplaced; subst m' c; clear Hplaced.
      apply search_spawn_Some in Hfound as (v & Hv & Hw). cbn [fst snd] in Hv.
      exists v. split; [ | exact Hw ].
      apply (cell_under_player_at _ _ _ sx sz); auto.
    + apply rbind_Ok in Hplaced as (m2 & Hforce & Hplaced).
      inversion Hplaced; subst; clear Hplaced.
      apply default_maze in Hm as (Hw & Hh & Htag & _).
      rewrite Hw, Hh in *. change (81 / 2)%Z with 40%Z in *.
      apply force_spawn_area_spec in Hforce as (_ & _ & Hgr & Hopen).
      destruct (opened_walkable (maze m') 40 40) as (v & Hv & Hwalk).
      * eapply grew_tagged; eauto.
      * apply Hopen; rewrite ?Hw, ?Hh; lia.
      * exists v. split; [ | exact Hwalk ].
        apply (cell_under_player_at _ _ _ 40 40); auto.
  - unfold regenerate_world in Hregen.
    apply bind_Ok in Hregen as (m & e1 & Hm & H).
    apply bind_Ok in H as (found & e2 & Hfound & H).
    apply lift_Ok in Hfound as [Hfound ->].
    apply ret_Ok in H as [-> _].
    destruct found as [[sx sz]|].
    + apply search_spawn_Some in Hfound as (v & Hv & Hw). cbn [fst snd] in Hv.
      exists v. split; [ | exact Hw ].
      apply (cell_under_player_at _ _ _ sx sz); auto.
    + exfalso.
      apply default_maze in Hm as (Hw & Hh & Htag & Hblock).
      pose proof (search_spawn_None _ _ _ Hfound (45, 45)) as Hmiss.
      rewrite Hw, Hh in Hmiss. change (81 / 2)%Z with 40%Z in Hmiss.
      specialize (Hmiss ring_has_start_block).
      destruct (opened_walkable (maze m) 45 45 Htag) as (v & Hv & Hwalk).
      { apply Hblock; lia. }
      unfold walkable_at in Hmiss. rewrite Hw, Hh in Hmiss. cbn in Hmiss.
      rewrite Hv in Hmiss. cbn in Hmiss. rewrite Hwalk in Hmiss. discriminate.
Qed.

Lemma constructor_returns : is_ok (Game3D_init []) = true.
Proof. vm_compute. reflexivity. Qed.

Lemma C2_witness :
  match Game3D_init [] with
  | Ok (g, _) => exists v, cell_under_player g = Ok v /\ walkable v = true /\ v <> 0
  | _ => False
  end.
Proof.
  pose proof constructor_returns as Hrun.
  destruct (Game3D_init []) as [[g e']| |] eqn:E;
    [ | discriminate Hrun | discriminate Hrun ].
  apply C2_spawn_cell_is_walkable. exists [], e'. left. exact E.
Defined.

End GameTheorems.

Module BorderTheorems.
Import PyFacts Maze Terms GridFacts ReachFacts GenerateFacts InitFacts Engine.
Import SpawnFacts MazeTheorems.

Lemma border_not_interior (w h : Z) (c : Z * Z) :
  border w h c -> ~ interior w h c.
Proof. unfold border, interior. lia. Qed.

(** C4, as the claim states it, fails: the constructor called with
    width 27 and height 31 returns a maze whose cell (26, 24), on the
    right border, is a corridor cell of the clipped start block. *)
Lemma C4_counterexample_open_border_cell :
  match MazeMap_init 27 31 0 [] with
  | Ok (mm, _) =>
      width mm = 27 /\ height mm = 31 /\ border 27 31 (26, 24) /\
      cell (maze mm) 26 24 = Some 1
  | _ => False
  end.
Proof. vm_compute. repeat split; try discriminate; auto. Qed.

(** C4, amended.  On a grid whose effective width and height are both at
    least 29, every border cell of the generated maze is a wall: neither
    the corridor carving, the room overlay, the room connectors nor the
    loop augmentation writes to a border cell (whether or not the object
    has its [rooms] attribute), and the forced spawn area keeps the border
    as it finds it. *)
Theorem C4_border_stays_wall (w h : Z) :
  29 <= w -> 29 <= h ->
  (forall rooms e m r e',
     generate_maze w h rooms e = Ok ((m, r), e') ->
     forall c, border w h c -> cell m c.1 c.2 = Some 0) /\
  (forall w0 h0 b e mm e',
     MazeMap_init w0 h0 b e = Ok (mm, e') -> width mm = w -> height mm = h ->
     forall c, border w h c -> cell (maze mm) c.1 c.2 = Some 0) /\
  (forall mm mm',
     width mm = w -> height mm = h ->
     force_spawn_area mm (w / 2) (h / 2) = Ok mm' ->
     forall c, border w h c -> cell (maze mm') c.1 c.2 = cell (maze mm) c.1 c.2).
Proof.
  intros Hw Hh.
  assert (Hgen : forall rooms e m r e',
            generate_maze w h rooms e = Ok ((m, r), e') ->
            forall c, border w h c -> cell m c.1 c.2 = Some 0).
  { intros rooms e m r e' H [x y] Hb.
    apply generate_maze_interior in H as (m0 & Hm0 & Hg); try assumption.
    cbn [fst snd]. rewrite (grew_outside _ _ _ x y Hg).
    - rewrite Hm0, new_maze_cell. unfold border in Hb. cbn [fst snd] in Hb.
      destruct (decide _); [ reflexivity | lia ].
    - now apply border_not_interior. }
  split; [ exact Hgen | ]. split.
  - intros w0 h0 b e mm e' H Hwm Hhm c Hb.
    apply MazeMap_init_parts in H as (Hw0 & Hh0 & _ & _ & r & e1 & _ & _ & Hg & _).
    rewrite <- Hw0, <- Hh0, Hwm, Hhm in Hg. eapply Hgen; eauto.
  - intros mm mm' Hwm Hhm H [x y] Hb.
    apply force_spawn_area_spec in H as (_ & _ & Hg & _).
    cbn [fst snd]. apply (grew_outside _ _ _ x y Hg).
    unfold border in Hb. cbn [fst snd] in *. div_lia.
Qed.

Lemma C4_witness :
  29 <= 31 /\
  match MazeMap_init 31 31 0 [] with
  | Ok (mm, _) => forall c, border 31 31 c -> cell (maze mm) c.1 c.2 = Some 0
  | _ => False
  end.
Proof.
  split; [ lia | ].
  pose proof run_31_31 as Hrun.
  destruct (MazeMap_init 31 31 0 []) as [[mm e']| |] eqn:E;
    [ | discriminate Hrun | discriminate Hrun ].
  pose proof (MazeMap_init_parts _ _ _ _ _ _ E) as (Hw & Hh & _).
  exact (proj1 (proj2 (C4_border_stays_wall 31 31 ltac:(lia) ltac:(lia)))
           31 31 0 [] mm e' E Hw Hh).
Defined.

End BorderTheorems.

(* --------------------------------------------------------------------- *)
(** ** The content placer                                                 *)
(* --------------------------------------------------------------------- *)
Module PlacerTheorems.
Import PyFacts Maze Terms InitFacts MazeTheorems.

(** Lines 471-488 keep the treasure keys off the monster keys. *)
Lemma place_treasure_apart (monsters : gmap (Z * Z) Monster) (n : Z)
    (c : Z * Z * location_type) (st st' : gmap (Z * Z) Treasure * Z)
    (e e' : entropy) :
  (forall k, is_Some (st.1 !! k) -> monsters !! k = None) ->
  place_treasure monsters n c st e = Ok (st', e') ->
  forall k, is_Some (st'.1 !! k) -> monsters !! k = None.
Proof.
  intros Hinv H. unfold place_treasure in H.
  destruct (n <=? st.2); [ inv_ok; assumption | ].
  destruct (bool_decide (monsters !! c.1 = None)) eqn:Hfree; cbn [andb] in H.
  - apply bool_decide_eq_true in Hfree.
    destruct (bool_decide (st.1 !! c.1 = None)); [ | inv_ok; assumption ].
    apply bind_Ok in H as (kind & e1 & _ & H). apply ret_Ok in H as [-> _].
    cbn [fst]. intros k Hk.
    destruct (decide (k = c.1)) as [->|Hne]; [ assumption | ].
    rewrite lookup_insert_ne in Hk by auto. auto.
  - inv_ok. assumption.
Qed.

Lemma place_treasures_apart (w h : Z) (m : grid) (rooms : list Room)
    (monsters : gmap (Z * Z) Monster) (treasures : gmap (Z * Z) Treasure)
    (e e' : entropy) :
  place_treasures w h m rooms monsters e = Ok (treasures, e') ->
  forall k, is_Some (treasures !! k) -> monsters !! k = None.
Proof.
  unfold place_treasures. intros H.
  apply bind_Ok in H as (n & e1 & _ & H).
  apply bind_Ok in H as (dead & e2 & _ & H).
  apply bind_Ok in H as (rnd & e3 & _ & H).
  apply bind_Ok in H as (shuffled & e4 & _ & H).
  apply bind_Ok in H as (st & e5 & Hst & H).
  apply ret_Ok in H as [-> _]. revert Hst.
  apply (forR_inv (fun t : gmap (Z * Z) Treasure * Z =>
                     forall k, is_Some (t.1 !! k) -> monsters !! k = None)).
  - intros c t t' e6 e7 _ Ht Hstep. eapply place_treasure_apart; eauto.
  - cbn [fst]. intros k [v Hv]. rewrite lookup_empty in Hv. discriminate.
Qed.

(** C5.  After the placement of the constructor, no grid coordinate is a
    key of both the monster map and the treasure map. *)
Theorem C5_monsters_and_treasures_apart
    (w h b : Z) (e e' : entropy) (mm : MazeMap) :
  MazeMap_init w h b e = Ok (mm, e') ->
  dom (monsters mm) ## dom (treasures mm) /\
  forall x z, is_Some (monsters mm !! (x, z)) ->
              is_Some (treasures mm !! (x, z)) -> False.
Proof.
  intros H.
  apply MazeMap_init_parts in H as (_ & _ & _ & _ & r & e1 & e2 & e3 & _ & _ & Ht).
  pose proof (place_treasures_apart _ _ _ _ _ _ _ _ Ht) as Hapart.
  split.
  - apply elem_of_disjoint. intros k Hm Hk.
    apply elem_of_dom in Hm, Hk. apply Hapart in Hk.
    destruct Hm as [v Hv]. congruence.
  - intros x z [v Hv] Hk. apply Hapart in Hk. congruence.
Qed.

Lemma C5_witness :
  match MazeMap_init 31 31 0 [] with
  | Ok (mm, _) =>
      dom (monsters mm) ## dom (treasures mm) /\
      forall x z, is_Some (monsters mm !! (x, z)) ->
                  is_Some (treasures mm !! (x, z)) -> False
  | _ => False
  end.
Proof.
  pose proof run_31_31 as Hrun.
  destruct (MazeMap_init 31 31 0 []) as [[mm e']| |] eqn:E;
    [ | discriminate Hrun | discriminate Hrun ].
  exact (C5_monsters_and_treasures_apart 31 31 0 [] e' mm E).
Defined.

End PlacerTheorems.

(* --------------------------------------------------------------------- *)
(** ** The acceptance test of the room overlay                            *)
(* --------------------------------------------------------------------- *)
Module RoomTheorems.
Import PyFacts Maze Terms GridFacts OverlayFacts.






End RoomTheorems.

(* --------------------------------------------------------------------- *)
(** ** Effective dimensions                                               *)
(* --------------------------------------------------------------------- *)
Module DimensionTheorems.
Import PyFacts Maze Terms GenerateFacts InitFacts MazeTheorems.

Lemma effective_odd (n : Z) :
  Z.odd (effective n) = true /\ effective n = (if Z.odd n then n else n + 1).
Proof.
  unfold effective. rewrite (Zodd_mod n).
  destruct (Z.eqb_spec (n mod 2) 1) as [E|E].
  - rewrite Zodd_mod, E. split; reflexivity.
  - split; [ | reflexivity ]. rewrite Zodd_mod.
    apply Z.eqb_eq. div_lia.
Qed.

(** C6, as the claim states it, fails: the constructor enforces no
    minimum.  No integer bounds the effective dimension from below; the
    odd input 5 is kept as 5, a width on which the start cell of the
    carver (column 12) is outside the grid; and the constructor called
    with 5 by 5 does not return a maze: it raises [ValueError], from the
    [random.randrange] of [add_rooms]. *)
Lemma C6_counterexample_no_minimum :
  ~ (exists minimum, forall n, minimum <= effective n) /\
  effective 5 = 5 /\
  ~ start_coord (effective 5) < effective 5 /\
  MazeMap_init 5 5 0 [] = Raise ValueError.
Proof.
  split.
  - intros [m Hm]. specialize (Hm (m - 2)).
    destruct (effective_odd (m - 2)) as [_ E]. rewrite E in Hm.
    destruct (Z.odd (m - 2)); lia.
  - split; [ reflexivity | ]. split; [ vm_compute; discriminate | ].
    vm_compute. reflexivity.
Qed.

(** C6, amended.  For every pair of integers (width, height) the
    effective dimensions are both odd: an odd input is kept as it is and
    an even input is incremented by one, whatever the parities.  No
    minimum is configured; a constructor call that returns has these
    effective dimensions as its width and height, and both are at least
    27, because [add_rooms] raises on a smaller grid. *)
Theorem C6_effective_dimensions_are_odd (width height : Z) :
  Z.odd (effective width) = true /\ Z.odd (effective height) = true /\
  effective width = (if Z.odd width then width else width + 1) /\
  effective height = (if Z.odd height then height else height + 1) /\
  forall b e mm e',
    MazeMap_init width height b e = Ok (mm, e') ->
    Maze.width mm = effective width /\ Maze.height mm = effective height /\
    27 <= Maze.width mm /\ 27 <= Maze.height mm.
Proof.
  destruct (effective_odd width) as [Hw Ew], (effective_odd height) as [Hh Eh].
  repeat (split; [ assumption | ]).
  intros b e mm e' H.
  pose proof (MazeMap_init_parts _ _ _ _ _ _ H) as (Hwm & Hhm & _).
  apply MazeMap_init_maze in H as (Hw26 & Hh26 & _).
  split; [ assumption | ]. split; [ assumption | ].
  rewrite Hwm, Hhm in *.
  apply Z.odd_spec in Hw as [kw Hkw], Hh as [kh Hkh]. lia.
Qed.

Lemma C6_witness :
  match MazeMap_init 30 31 0 [] with
  | Ok (mm, _) =>
      Maze.width mm = effective 30 /\ Maze.height mm = effective 31 /\
      27 <= Maze.width mm /\ 27 <= Maze.height mm
  | _ => False
  end.
Proof.
  assert (Hrun : is_ok (MazeMap_init 30 31 0 []) = true) by (vm_compute; reflexivity).
  destruct (MazeMap_init 30 31 0 []) as [[mm e']| |] eqn:E;
    [ | discriminate Hrun | discriminate Hrun ].
  exact (proj2 (proj2 (proj2 (proj2 (C6_effective_dimensions_are_odd 30 31))))
           0 [] mm e' E).
Defined.

End DimensionTheorems.

(* --------------------------------------------------------------------- *)
(** ** The player: experience                                             *)
(* --------------------------------------------------------------------- *)
Module PlayerTheorems.
Import Reals.
Import Maze Engine.

(** C10.  For every player and every non-negative amount,
    [gain_experience] adds exactly the amount to the experience and
    answers True exactly when [experience // 100 + 1], taken after the
    addition, exceeds the level; on True the level becomes that value,
    [max_hp] grows by exactly 1, however many multiples of 100 were
    crossed, and [hp] becomes the new [max_hp]; on False level, [max_hp]
    and [hp] are as before. *)
Theorem C10_gain_experience (self : Player) (amount : Z) :
  0 <= amount ->
  let answer := (gain_experience self amount).1 in
  let after := (gain_experience self amount).2 in
  let new_level := (experience self + amount) / 100 + 1 in
  experience after = experience self + amount /\
  (answer = true <-> level self < new_level) /\
  (answer = true ->
     level after = new_level /\ max_hp after = max_hp self + 1 /\
     hp after = max_hp after) /\
  (answer = false ->
     level after = level self /\ max_hp after = max_hp self /\
     hp after = hp self).
Proof.
  intros _. unfold gain_experience.
  destruct (Z.ltb_spec (level self) ((experience self + amount) / 100 + 1)) as [Hlt|Hge];
    cbn; repeat split; auto; try discriminate; lia.
Qed.

Lemma C10_witness :
  0 <= 250 /\
  (gain_experience (Player_init 0%R 0%R) 250).1 = true /\
  level (gain_experience (Player_init 0%R 0%R) 250).2 = 3 /\
  max_hp (gain_experience (Player_init 0%R 0%R) 250).2 = 6 /\
  hp (gain_experience (Player_init 0%R 0%R) 250).2 = 6 /\
  experience (gain_experience (Player_init 0%R 0%R) 250).2 = 250.
Proof.
  split; [ lia | ].
  destruct (C10_gain_experience (Player_init 0%R 0%R) 250 ltac:(lia))
    as (He & Hiff & Hup & _).
  assert (Ht : (gain_experience (Player_init 0%R 0%R) 250).1 = true)
    by (apply Hiff; vm_compute; reflexivity).
  destruct (Hup Ht) as (Hl & Hm & Hh).
  split; [ exact Ht | ]. split; [ exact Hl | ]. split; [ exact Hm | ].
  split; [ rewrite Hh; exact Hm | exact He ].
Defined.

End PlayerTheorems.

(* --------------------------------------------------------------------- *)
(** ** The camera                                                         *)
(* --------------------------------------------------------------------- *)
Module CameraTheorems.
Import Reals Lra.
Import PyFacts Maze Engine SpawnFacts.
Local Open Scope R_scope.

Lemma radians_0 : radians 0 = 0.
Proof. unfold radians. ring. Qed.

Lemma radians_opp_0 : radians (- 0) = 0.
Proof. rewrite Ropp_0. apply radians_0. Qed.

(** The projection scale [tan(fov / 2)] of a field of view strictly
    between 0 and 180 degrees is positive. *)
Lemma fov_factor_pos (fov : R) : 0 < fov < 180 -> 0 < tan (radians (fov / 2)).
Proof.
  intros Hf. pose proof PI_RGT_0 as Hpi. unfold radians.
  apply tan_gt_0.
  - apply Rmult_lt_0_compat; lra.
  - replace (PI / 2) with (90 * (PI / 180)) by field.
    apply Rmult_lt_compat_r; lra.
Qed.

(** [int(w / 2)] of an integer [w] that is not negative is [w // 2]. *)
Lemma int_of_half (w : Z) : (0 <= w)%Z -> int_of_float (IZR w / 2) = (w / 2)%Z.
Proof.
  intros Hw. apply int_of_float_between.
  - apply Z.div_pos; lia.
  - pose proof (Z.div_mod w 2 ltac:(lia)) as Hdm.
    pose proof (Z.mod_pos_bound w 2 ltac:(lia)) as Hr.
    assert (E : IZR w = 2 * IZR (w / 2) + IZR (w mod 2)).
    { rewrite Hdm at 1. rewrite plus_IZR, mult_IZR. reflexivity. }
    assert (0 <= IZR (w mod 2) <= 1).
    { split; apply IZR_le; lia. }
    lra.
Qed.

(** C9.  A point exactly at the camera position projects to [None] for
    every pitch and yaw, and the call does not raise.  A point straight
    ahead at yaw 0 and pitch 0 (the x and y of the camera, a z further
    than the near epsilon 0.001) projects, for a field of view between 0
    and 180 degrees and a viewport width that is not negative, to the
    screen column [screen_width // 2], the horizontal centre of the
    screen (exactly half the width when the width is even), at the depth
    of its distance. *)
Theorem C9_projection_at_camera_and_straight_ahead
    (self : Camera) (point player_pos : Vector3D)
    (player_rot_x player_rot_y : R) (screen_width screen_height : Z) :
  project_3d_to_2d self player_pos player_pos player_rot_x player_rot_y
    screen_width screen_height = Ok None /\
  (0 < fov self < 180 ->
   vx point = vx player_pos -> vy point = vy player_pos ->
   1 / 1000 < vz point - vz player_pos ->
   (0 <= screen_width)%Z ->
   exists screen_y,
     project_3d_to_2d self point player_pos 0 0 screen_width screen_height
       = Ok (Some ((screen_width / 2)%Z, screen_y, vz point - vz player_pos)) /\
     (Z.even screen_width = true ->
      IZR (screen_width / 2) = IZR screen_width / 2)).
Proof.
  split.
  - unfold project_3d_to_2d, leb_R.
    destruct (Rle_dec _ _) as [_|Hn]; [ reflexivity | ].
    exfalso. apply Hn.
    match goal with |- ?a <= _ => replace a with 0 by ring end. lra.
  - intros Hfov Hx Hy Hz Hw.
    pose proof (fov_factor_pos (fov self) Hfov) as Htan.
    unfold project_3d_to_2d.
    rewrite radians_opp_0, radians_0, cos_0, sin_0, Hx, Hy.
    set (rel_z := vz point - vz player_pos) in *.
    replace ((vy player_pos - vy player_pos) * 0 +
             ((vx player_pos - vx player_pos) * 0 + rel_z * 1) * 1)
      with rel_z by ring.
    unfold leb_R. destruct (Rle_dec rel_z (1 / 1000)) as [Hle|_]; [ lra | ].
    destruct (Req_dec_T (rel_z * tan (radians (fov self / 2))) 0) as [E0|Hne].
    { exfalso. assert (0 < rel_z * tan (radians (fov self / 2)))
        by (apply Rmult_lt_0_compat; lra). lra. }
    eexists. split.
    + f_equal. f_equal. f_equal. f_equal.
      rewrite <- (int_of_half screen_width Hw). f_equal.
      unfold Rdiv at 1. field. split; lra.
    + intros Hev. apply Z.even_spec in Hev as [k ->].
      rewrite Z.mul_comm, Z.div_mul by lia. rewrite mult_IZR. field.
Qed.

Lemma C9_witness :
  project_3d_to_2d Camera_init (mkVector3D 3 1 4) (mkVector3D 3 1 4) 20 30
    1024 768 = Ok None /\
  exists screen_y,
    project_3d_to_2d Camera_init (mkVector3D 3 1 9) (mkVector3D 3 1 4) 0 0
      1024 768 = Ok (Some (512%Z, screen_y, 9 - 4)).
Proof.
  pose proof (C9_projection_at_camera_and_straight_ahead Camera_init
                (mkVector3D 3 1 9) (mkVector3D 3 1 4) 20 30 1024 768)
    as [Hnone Hahead].
  split; [ exact Hnone | ].
  destruct Hahead as (sy & Hsy & _); cbn; try lra; try lia; try reflexivity.
  exists sy. exact Hsy.
Defined.

End CameraTheorems.

(* --------------------------------------------------------------------- *)
(** ** The player: movement against walls                                 *)
(* --------------------------------------------------------------------- *)
Module MovementTheorems.
Import Reals Lra.
Import PyFacts Maze GameTerms Engine SpawnFacts.

Lemma can_move_to_blocked (m : MazeMap) (x z : R) :
  wall_or_outside m x z -> can_move_to x z m = Ok false.
Proof.
  intros Hb. unfold can_move_to, leb_R, ltb_R.
  destruct (Rle_dec (2 / 10) x) as [Hx1|Hx1]; [ | reflexivity ].
  destruct (Rlt_dec x (IZR (width m) - 2 / 10)) as [Hx2|Hx2]; [ | reflexivity ].
  destruct (Rle_dec (2 / 10) z) as [Hz1|Hz1]; [ | reflexivity ].
  destruct (Rlt_dec z (IZR (height m) - 2 / 10)) as [Hz2|Hz2]; [ | reflexivity ].
  cbn [andb negb]. destruct Hb as [Hout|Hwall].
  - exfalso. apply Hout. lra.
  - rewrite Hwall. reflexivity.
Qed.

Lemma try_move_blocked (m : MazeMap) (self : Player) (x z : R) :
  wall_or_outside m x z ->
  wall_or_outside m x (vz (position self)) ->
  wall_or_outside m (vx (position self)) z ->
  try_move self x z m = Ok self.
Proof.
  intros H1 H2 H3. unfold try_move.
  rewrite (can_move_to_blocked _ _ _ H1). cbn [rbind negb].
  rewrite (can_move_to_blocked _ _ _ H2). cbn [rbind].
  rewrite (can_move_to_blocked _ _ _ H3). reflexivity.
Qed.

Lemma move_blocked (m : MazeMap) (self : Player) (op : movement) :
  hemmed_in m self op -> move op self m = Ok self.
Proof.
  intros (H1 & H2 & H3). destruct op; cbn [move];
    unfold move_forward, move_backward, strafe_left, strafe_right;
    apply try_move_blocked; assumption.
Qed.

(** C7.  When, for each movement operation of a run, the direct target,
    the x-only slide target and the z-only slide target of the player's
    state are wall cells or lie outside the buffered bounds, the run
    (any operations among [move_forward], [move_backward], [strafe_left],
    [strafe_right], any number of times) returns the player unchanged: in
    particular its x and z are those it had. *)
Theorem C7_moving_into_walls_changes_nothing
    (maze_map : MazeMap) (self : Player) (ops : list movement) :
  (forall op, op ∈ ops -> hemmed_in maze_map self op) ->
  moves ops self maze_map = Ok self /\
  forall after, moves ops self maze_map = Ok after ->
    vx (position after) = vx (position self) /\
    vz (position after) = vz (position self).
Proof.
  intros Hall.
  assert (Hrun : moves ops self maze_map = Ok self).
  { induction ops as [|op ops IH]; cbn [moves]; [ reflexivity | ].
    rewrite move_blocked by (apply Hall; left). cbn [rbind].
    apply IH. intros op' Hop'. apply Hall. now right. }
  split; [ exact Hrun | ].
  intros after Hafter. rewrite Hrun in Hafter. inversion Hafter. auto.
Qed.

Lemma sin_cos_45 :
  (sin (radians (- rotation_y cornered)) = cos (radians (- rotation_y cornered)) /\
   1 / 2 <= sin (radians (- rotation_y cornered)) <= 1)%R.
Proof.
  assert (E : radians (- rotation_y cornered) = (PI / 4)%R).
  { unfold radians, cornered. cbn [rotation_y]. field. }
  rewrite E, sin_PI4, cos_PI4. split; [ reflexivity | ].
  pose proof (sin2_cos2 (PI / 4)) as Hsq. unfold Rsqr in Hsq.
  rewrite sin_PI4, cos_PI4 in Hsq.
  assert (Hpos : (0 < 1 / sqrt 2)%R).
  { apply Rdiv_lt_0_compat; [ lra | apply sqrt_lt_R0; lra ]. }
  nra.
Qed.

Lemma cornered_hemmed_in : hemmed_in walled_cell cornered Forward.
Proof.
  destruct sin_cos_45 as (Esc & Hlo & Hhi).
  assert (Ht : int_of_float (19 / 10 + sin (radians (- rotation_y cornered)) * (2 / 10)) = 2%Z).
  { apply int_of_float_between; [ lia | lra ]. }
  assert (Hs : int_of_float (19 / 10) = 1%Z).
  { apply int_of_float_between; [ lia | lra ]. }
  unfold hemmed_in, target. cbn [fst snd]. rewrite <- Esc.
  change (vx (position cornered)) with (19 / 10)%R.
  change (vz (position cornered)) with (19 / 10)%R.
  change (speed cornered) with (2 / 10)%R.
  repeat split; right; rewrite ?Ht, ?Hs; reflexivity.
Qed.

Lemma C7_witness :
  moves [Forward; Forward; Forward] cornered walled_cell = Ok cornered /\
  can_move_to (vx (position cornered)) (vz (position cornered)) walled_cell
    = Ok true.
Proof.
  split.
  - apply (C7_moving_into_walls_changes_nothing walled_cell cornered
             [Forward; Forward; Forward]).
    intros op Hop.
    assert (E : op = Forward).
    { repeat (apply elem_of_cons in Hop as [Hop|Hop]; [ exact Hop | ]).
      apply elem_of_nil in Hop. destruct Hop. }
    rewrite E. exact cornered_hemmed_in.
  - unfold can_move_to, leb_R, ltb_R.
    change (vx (position cornered)) with (19 / 10)%R.
    change (vz (position cornered)) with (19 / 10)%R.
    change (IZR (width walled_cell)) with 3%R.
    change (IZR (height walled_cell)) with 3%R.
    destruct (Rle_dec (2 / 10) (19 / 10)) as [_|N]; [ | exfalso; apply N; lra ].
    destruct (Rlt_dec (19 / 10) (3 - 2 / 10)) as [_|N]; [ | exfalso; apply N; lra ].
    cbn [andb negb].
    rewrite (int_of_float_between 1 (19 / 10) ltac:(lia) ltac:(lra)).
    reflexivity.
Defined.

End MovementTheorems.

(* --------------------------------------------------------------------- *)
(** ** The renderer: which quads are queued and painted                   *)
(* --------------------------------------------------------------------- *)
Module RenderTheorems.
Import Reals Lra.
Import PyFacts Maze GameTerms Engine SpawnFacts CameraTheorems.
Local Open Scope R_scope.






















(** *** The two views *)
















End RenderTheorems.

(* --------------------------------------------------------------------- *)
(** ** The carver's loop terminates                                       *)
(* --------------------------------------------------------------------- *)
Module FuelFacts.
Import PyFacts Maze Terms GridFacts CarveFacts SkeletonFacts OverlayFacts.

Lemma bind_fueled {A B} (c : Rand A) (k : A -> Rand B) (e : entropy) :
  c e <> OutOfFuel ->
  (forall a e', c e = Ok (a, e') -> k a e' <> OutOfFuel) ->
  bind c k e <> OutOfFuel.
Proof.
  intros Hc Hk. unfold bind. destruct (c e) as [[a e']| |];
    [ apply Hk; reflexivity | discriminate | contradiction ].
Qed.

Lemma rbind_fueled {A B} (c : result A) (k : A -> result B) :
  c <> OutOfFuel -> (forall a, c = Ok a -> k a <> OutOfFuel) ->
  rbind c k <> OutOfFuel.
Proof.
  intros Hc Hk. unfold rbind. destruct c as [a| |];
    [ apply Hk; reflexivity | discriminate | contradiction ].
Qed.

Lemma lift_fueled {A} (c : result A) (e : entropy) :
  c <> OutOfFuel -> lift c e <> OutOfFuel.
Proof. unfold lift. destruct c; [ discriminate | discriminate | contradiction ]. Qed.

Lemma for_fueled {A S} (xs : list A) (body : A -> S -> result S) :
  (forall a s, body a s <> OutOfFuel) -> forall s, for_ xs body s <> OutOfFuel.
Proof.
  intros Hb. induction xs as [|x xs IH]; intros s; cbn [for_]; [ discriminate | ].
  apply rbind_fueled; [ apply Hb | intros; apply IH ].
Qed.

Lemma getitem_fueled {A} (l : list A) (i : Z) : getitem l i <> OutOfFuel.
Proof.
  unfold getitem. destruct (index l i); [ | discriminate ].
  destruct (l !! n); discriminate.
Qed.

Lemma setitem_fueled {A} (l : list A) (i : Z) (v : A) : setitem l i v <> OutOfFuel.
Proof. unfold setitem. destruct (index l i); discriminate. Qed.

Lemma grid_get_fueled (m : grid) (y x : Z) : grid_get m y x <> OutOfFuel.
Proof.
  unfold grid_get. apply rbind_fueled; intros; apply getitem_fueled.
Qed.

Lemma grid_set_fueled (m : grid) (y x v : Z) : grid_set m y x v <> OutOfFuel.
Proof.
  unfold grid_set. apply rbind_fueled; [ apply getitem_fueled | intros ].
  apply rbind_fueled; intros; apply setitem_fueled.
Qed.

Lemma randbelow_fueled (n : Z) (e : entropy) : randbelow n e <> OutOfFuel.
Proof. unfold randbelow, bind, draw, ret. destruct e; discriminate. Qed.

Lemma shuffle_fueled {A} (x : list A) (e : entropy) : shuffle x e <> OutOfFuel.
Proof.
  unfold shuffle. generalize (length x - 1)%nat as i. intros i. revert x e.
  induction i as [|i IH]; intros x e; cbn [shuffle_from]; [ discriminate | ].
  apply bind_fueled; [ apply randbelow_fueled | intros; apply IH ].
Qed.

Lemma open_block_fueled (w h cx cy : Z) (m : grid) :
  open_block w h cx cy m <> OutOfFuel.
Proof.
  unfold open_block. apply for_fueled. intros dy s. apply for_fueled.
  intros dx t. destruct (_ && _); [ apply grid_set_fueled | discriminate ].
Qed.

Lemma carve_corridor_fueled (w h cx cy dx dy : Z) (m : grid) :
  carve_corridor w h cx cy dx dy m <> OutOfFuel.
Proof.
  unfold carve_corridor. apply for_fueled. intros st s.
  destruct (negb _); apply for_fueled; intros off t;
    (destruct (_ && _); [ apply grid_set_fueled | discriminate ]).
Qed.

Lemma try_directions_fueled (w h : Z) (cur : Z * Z) (dirs : list (Z * Z)) (m : grid) :
  try_directions w h cur dirs m <> OutOfFuel.
Proof.
  induction dirs as [|[dx dy] dirs IH]; cbn [try_directions]; [ discriminate | ].
  destruct (_ && _); [ | exact IH ].
  apply rbind_fueled; [ apply grid_get_fueled | intros v _ ].
  destruct (v =? 0); [ | exact IH ].
  apply rbind_fueled; [ apply carve_corridor_fueled | intros m1 _ ].
  apply rbind_fueled; [ apply open_block_fueled | intros m2 _ ]. discriminate.
Qed.

(** *** The measure *)

Lemma filter_length_le {A} (P Q : A -> Prop)
    `{forall a, Decision (P a)} `{forall a, Decision (Q a)} (l : list A) :
  (forall a, a ∈ l -> P a -> Q a) ->
  (length (filter P l) <= length (filter Q l))%nat.
Proof.
  induction l as [|a l IH]; intros HPQ; [ reflexivity | ].
  rewrite !filter_cons.
  assert (IH' : (length (filter P l) <= length (filter Q l))%nat).
  { apply IH. intros b Hb. apply HPQ. now right. }
  destruct (decide (P a)) as [Ha|Ha].
  - rewrite decide_True by (apply HPQ; [ left | exact Ha ]). cbn [length]. lia.
  - destruct (decide (Q a)); cbn [length]; lia.
Qed.

Lemma filter_length_lt {A} (P Q : A -> Prop)
    `{forall a, Decision (P a)} `{forall a, Decision (Q a)} (l : list A) (x : A) :
  (forall a, a ∈ l -> P a -> Q a) -> x ∈ l -> Q x -> ~ P x ->
  (length (filter P l) < length (filter Q l))%nat.
Proof.
  induction l as [|a l IH]; intros HPQ Hx HQ HP; [ inversion Hx | ].
  rewrite !filter_cons.
  assert (Hrest : forall b, b ∈ l -> P b -> Q b).
  { intros b Hb. apply HPQ. now right. }
  pose proof (filter_length_le P Q l Hrest) as Hle.
  apply elem_of_cons in Hx as [<-|Hx].
  - rewrite decide_False by exact HP. rewrite decide_True by exact HQ.
    cbn [length]. lia.
  - specialize (IH Hrest Hx HQ HP).
    destruct (decide (P a)) as [Ha|Ha].
    + rewrite decide_True by (apply HPQ; [ left | exact Ha ]). cbn [length]. lia.
    + destruct (decide (Q a)); cbn [length]; lia.
Qed.

Lemma elem_of_positions (w h : Z) (c : Z * Z) :
  c ∈ positions w h <-> 0 <= c.1 < w /\ 0 <= c.2 < h.
Proof.
  unfold positions. rewrite list_elem_of_In. destruct c as [x y].
  rewrite in_prod_iff, <- !list_elem_of_In, !elem_of_range. cbn [fst snd]. lia.
Qed.

Lemma walls_left_bound (w h : Z) (m : grid) :
  (walls_left w h m <= Z.to_nat w * Z.to_nat h)%nat.
Proof.
  unfold walls_left, positions.
  etransitivity; [ apply length_filter | ].
  rewrite length_prod. unfold range. rewrite !length_seqZ.
  replace (w - 0) with w by lia. replace (h - 0) with h by lia. reflexivity.
Qed.

Lemma grew_walls_left (P : Z * Z -> Prop) (w h : Z) (m m' : grid) :
  grew P m m' -> (walls_left w h m' <= walls_left w h m)%nat.
Proof.
  intros Hg. unfold walls_left. apply filter_length_le.
  intros [x y] _ Hc. cbn [fst snd] in *.
  destruct (Hg x y) as [E|(_ & _ & v & Hv & Hw)]; [ congruence | ].
  rewrite Hv in Hc. inversion Hc; subst v. discriminate Hw.
Qed.

Lemma opened_walls_left (P : Z * Z -> Prop) (w h : Z) (m m' : grid) (n : Z * Z) :
  grew P m m' -> 0 <= n.1 < w -> 0 <= n.2 < h ->
  cell m n.1 n.2 = Some 0 -> opened m' n ->
  (walls_left w h m' < walls_left w h m)%nat.
Proof.
  intros Hg Hx Hy H0 (v & Hv & Hnz). unfold walls_left.
  apply filter_length_lt with (x := n).
  - intros [x y] _ Hc. cbn [fst snd] in *.
    destruct (Hg x y) as [E|(_ & _ & v' & Hv' & Hw)]; [ congruence | ].
    rewrite Hv' in Hc. inversion Hc; subst v'. discriminate Hw.
  - apply elem_of_positions. auto.
  - exact H0.
  - rewrite Hv. intros E. inversion E. contradiction.
Qed.

(** The loop of the carver, given fuel for its measure, does not run out. *)
Lemma carve_loop_fueled (w h : Z) (s : Z * Z) :
  forall (fuel : nat) (m : grid) (stack : list (Z * Z)) (e : entropy),
    carver_inv w h s m stack ->
    (2 * walls_left w h m + length stack <= fuel)%nat ->
    carve_loop fuel w h m stack e <> OutOfFuel.
Proof.
  induction fuel as [|fuel IH]; intros m stack e (Hsh & Hfl & Hst) Hfuel;
    destruct stack as [|cur below]; cbn [carve_loop]; try discriminate.
  - cbn [length] in Hfuel. lia.
  - apply bind_fueled; [ apply shuffle_fueled | intros dirs e1 Hshuf ].
    apply bind_fueled; [ apply lift_fueled, try_directions_fueled | ].
    intros [m1 r] e2 Htry. apply lift_Ok in Htry as [Htry ->].
    destruct (Hst cur) as [Hcur Hco]; [ left | ].
    apply (try_directions_spec w h s) in Htry as (Hg & Hfl1 & Hr); try assumption.
    2:{ intros d Hd. eapply shuffle_elem_of; eauto. }
    cbn [fst snd].
    assert (Hsh1 : shaped w h m1) by (eapply grew_shaped; eauto).
    assert (Hkeep : forall n, n ∈ cur :: below -> opened m1 n /\ coarse w h n).
    { intros n Hn. destruct (Hst n Hn) as [Ho Hc]. split; [ | exact Hc ].
      eapply grew_opened; eauto. }
    cbn [length] in Hfuel.
    destruct r as [next|].
    + destruct Hr as (Hno & Hnc & Hwall).
      pose proof (opened_inside w h m1 next Hsh1 Hno) as [Hx Hy].
      pose proof (opened_walls_left _ w h m m1 next Hg Hx Hy Hwall Hno) as Hlt.
      apply IH.
      * split; [ assumption | ]. split; [ assumption | ].
        intros n Hn. apply elem_of_cons in Hn as [->|Hn]; auto.
      * cbn [length]. lia.
    + subst m1. apply IH.
      * split; [ assumption | ]. split; [ assumption | ].
        intros n Hn. apply Hkeep. now right.
      * lia.
Qed.

End FuelFacts.

(* --------------------------------------------------------------------- *)
(** ** Termination of the carver                                          *)
(* --------------------------------------------------------------------- *)
Module TerminationTheorems.
Import PyFacts Maze Terms GridFacts SkeletonFacts FuelFacts.

(** The [while stack] loop of [generate_maze] terminates after at most
    [2 * width * height + 1] passes: started as [generate_maze] starts it,
    on the cleared grid with the start block open and the start cell
    stacked, and given fuel for that many passes (a pass spends one unit)
    or more, it never runs out of fuel, whatever the random draws.  The
    fuel [carve_fuel] that the model gives the loop is one more. *)
Theorem carver_terminates (w h : Z) (m0 m1 : grid) (e : entropy) (fuel : nat) :
  0 <= start_coord w < w -> 0 <= start_coord h < h ->
  clear_maze w h (new_maze w h) = Ok m0 ->
  open_block w h (start_coord w) (start_coord h) m0 = Ok m1 ->
  (2 * (Z.to_nat w * Z.to_nat h) + 1 <= fuel)%nat ->
  carve_loop fuel w h m1 [(start_coord w, start_coord h)] e <> OutOfFuel.
Proof.
  intros Hsx Hsy H0 H1 Hfuel.
  pose proof (clear_maze_cell w h m0 H0) as Hm0.
  destruct (start_block_spec w h m0 m1 Hsx Hsy Hm0 H1) as (Hinv & _ & _).
  apply (carve_loop_fueled w h (start_coord w, start_coord h)); [ exact Hinv | ].
  pose proof (walls_left_bound w h m1) as Hb.
  cbn [length]. lia.
Qed.

Lemma carver_terminates_witness :
  match clear_maze 31 31 (new_maze 31 31) with
  | Ok m0 =>
      match open_block 31 31 (start_coord 31) (start_coord 31) m0 with
      | Ok m1 =>
          carve_loop 1923 31 31 m1
            [(start_coord 31, start_coord 31)] [] <> OutOfFuel
      | _ => False
      end
  | _ => False
  end.
Proof.
  destruct (clear_maze 31 31 (new_maze 31 31)) as [m0| |] eqn:E0;
    [ | vm_compute in E0; discriminate E0 | vm_compute in E0; discriminate E0 ].
  destruct (open_block 31 31 (start_coord 31) (start_coord 31) m0) as [m1| |] eqn:E1.
  - apply (carver_terminates 31 31 m0 m1 [] 1923);
      [ vm_compute | vm_compute | | | vm_compute; lia ];
      try (split; [ discriminate | reflexivity ]); assumption.
  - assert (Hok : is_ok (rbind (clear_maze 31 31 (new_maze 31 31))
                     (open_block 31 31 (start_coord 31) (start_coord 31))) = true)
      by (vm_compute; reflexivity).
    rewrite E0 in Hok. cbn [rbind] in Hok. rewrite E1 in Hok. discriminate Hok.
  - assert (Hok : is_ok (rbind (clear_maze 31 31 (new_maze 31 31))
                     (open_block 31 31 (start_coord 31) (start_coord 31))) = true)
      by (vm_compute; reflexivity).
    rewrite E0 in Hok. cbn [rbind] in Hok. rewrite E1 in Hok. discriminate Hok.
Defined.

End TerminationTheorems.

(* --------------------------------------------------------------------- *)
(** ** Where the monsters and the treasures are put                       *)
(* --------------------------------------------------------------------- *)
Module PlacementFacts.
Import PyFacts Maze Terms PlacementTerms GridFacts InitFacts.

(** What the comprehension [for y: for x: if test: append] collects. *)
Lemma collect_cells_spec (P : Z -> Z -> Prop) (ys xs : list Z)
    (test : Z -> Z -> Rand bool) :
  (forall x y e e', x ∈ xs -> y ∈ ys -> test x y e = Ok (true, e') -> P x y) ->
  forall l e e', collect_cells ys xs test e = Ok (l, e') ->
                 forall c, c ∈ l -> P c.1 c.2.
Proof.
  intros Htest l e e'. unfold collect_cells.
  apply (forR_inv (fun acc : list (Z * Z) => forall c, c ∈ acc -> P c.1 c.2)).
  - intros y acc acc' e1 e2 Hy Hacc.
    apply (forR_inv (fun acc : list (Z * Z) => forall c, c ∈ acc -> P c.1 c.2));
      [ | exact Hacc ].
    intros x t t' e3 e4 Hx Ht H.
    apply bind_Ok in H as (b & e5 & Hb & H). apply ret_Ok in H as [-> _].
    destruct b; [ | exact Ht ].
    intros c Hc. apply elem_of_app in Hc as [Hc|Hc]; [ auto | ].
    apply list_elem_of_singleton in Hc as ->. cbn [fst snd]. eauto.
  - intros c Hc. inversion Hc.
Qed.

Lemma existsb_false {A} (f : A -> bool) (l : list A) (a : A) :
  existsb f l = false -> a ∈ l -> f a = false.
Proof.
  induction l as [|b l IH]; intros H Ha; [ inversion Ha | ].
  cbn [existsb] in H. apply orb_false_iff in H as [Hb Hl].
  apply elem_of_cons in Ha as [->|Ha]; auto.
Qed.

Lemma too_close_false (monsters : gmap (Z * Z) Monster) (x z : Z) (k : Z * Z) :
  too_close monsters x z = false -> is_Some (monsters !! k) ->
  3 <= manhattan (x, z) k.
Proof.
  unfold too_close, manhattan. intros H [m Hm]. cbn [fst snd].
  apply (existsb_false _ _ k) in H; [ apply Z.ltb_ge in H; exact H | ].
  apply list_elem_of_fmap. exists (k, m). split; [ reflexivity | ].
  apply elem_of_map_to_list. exact Hm.
Qed.

Lemma place_monster_inv (w h : Z) (maze : grid) (n : Z) (pos : Z * Z)
    (st st' : gmap (Z * Z) Monster * Z) (e e' : entropy) :
  open_inner_cell w h maze pos ->
  monsters_inv w h maze n st ->
  place_monster maze n pos st e = Ok (st', e') ->
  monsters_inv w h maze n st'.
Proof.
  intros Hpos Hinv H. unfold place_monster in H.
  destruct (Z.leb_spec n st.2) as [Hfull|Hroom].
  { apply ret_Ok in H as [-> _]. exact Hinv. }
  destruct (too_close st.1 pos.1 pos.2) eqn:Hclose.
  { apply ret_Ok in H as [-> _]. exact Hinv. }
  destruct Hinv as (Hcount & Hmax & Hall & Hapart).
  apply bind_Ok in H as (name & e1 & _ & H).
  apply bind_Ok in H as (v & e2 & Hv & H). apply lift_Ok in Hv as [Hv ->].
  apply bind_Ok in H as (bonus & e3 & Hbonus & H).
  apply bind_Ok in H as (base & e4 & Hbase & H). apply randint_Ok in Hbase.
  apply ret_Ok in H as [-> _]. cbn [fst snd].
  assert (Hfar : forall k, is_Some (st.1 !! k) -> 3 <= manhattan pos k).
  { intros k Hk. pose proof (too_close_false _ _ _ k Hclose Hk) as Hd.
    destruct pos; exact Hd. }
  assert (Hnew : st.1 !! pos = None).
  { destruct (st.1 !! pos) eqn:E; [ | reflexivity ].
    specialize (Hfar pos (ex_intro _ _ E)). unfold manhattan in Hfar. lia. }
  assert (Hb : if v =? 2 then 1 <= bonus <= 2 else bonus = 0).
  { destruct (v =? 2); [ apply randint_Ok in Hbonus; exact Hbonus | ].
    apply ret_Ok in Hbonus as [-> _]. reflexivity. }
  unfold monsters_inv. cbn [fst snd].
  split; [ | split; [ | split ] ].
  - rewrite map_size_insert_None by exact Hnew. lia.
  - lia.
  - intros k m Hk. destruct (decide (k = pos)) as [->|Hne].
    + rewrite lookup_insert in Hk. rewrite decide_True in Hk by reflexivity.
      inversion Hk; subst m; clear Hk. cbn [defeated health].
      split; [ exact Hpos | ]. split; [ reflexivity | ].
      rewrite Hv. destruct (Z.eqb_spec v 2) as [->|Hv2].
      * split; [ lia | ]. split; [ congruence | lia ].
      * subst bonus. split; [ lia | ]. split; [ lia | ].
        intros E. inversion E. contradiction.
    + rewrite lookup_insert_ne in Hk by auto. eauto.
  - intros k1 k2 H1 H2 Hne.
    destruct (decide (k1 = pos)) as [->|Hn1];
      destruct (decide (k2 = pos)) as [->|Hn2]; try contradiction.
    + rewrite lookup_insert_ne in H2 by auto. auto.
    + rewrite lookup_insert_ne in H1 by auto.
      specialize (Hfar k1 H1). unfold manhattan in *. lia.
    + rewrite lookup_insert_ne in H1 by auto.
      rewrite lookup_insert_ne in H2 by auto. auto.
Qed.

Lemma place_monsters_spec (w h : Z) (maze : grid)
    (monsters : gmap (Z * Z) Monster) (e e' : entropy) :
  place_monsters w h maze e = Ok (monsters, e') ->
  exists n, 20 <= n <= 35 /\ monsters_inv w h maze n (monsters, Z.of_nat (size monsters)).
Proof.
  unfold place_monsters. intros H.
  apply bind_Ok in H as (n & e1 & Hn & H). apply randint_Ok in Hn.
  apply bind_Ok in H as (valid & e2 & Hvalid & H).
  apply bind_Ok in H as (shuffled & e3 & Hshuf & H).
  apply bind_Ok in H as (st & e4 & Hst & H).
  apply ret_Ok in H as [-> _]. exists n. split; [ exact Hn | ].
  assert (Hall : forall c, c ∈ valid -> open_inner_cell w h maze (c.1, c.2)).
  { revert Hvalid.
    apply (collect_cells_spec (fun x y => open_inner_cell w h maze (x, y))).
    intros x y e5 e6 Hx Hy Ht. apply elem_of_range in Hx, Hy.
    apply bind_Ok in Ht as (v & e7 & Hv & Ht).
    apply lift_Ok in Hv as [Hv _]. apply ret_Ok in Ht as [Ht _].
    split; [ cbn [fst]; lia | ]. split; [ cbn [snd]; lia | ].
    exists v. cbn [fst snd]. auto. }
  assert (Hinv : monsters_inv w h maze n st).
  { revert Hst. apply (forR_inv (monsters_inv w h maze n)).
    - intros pos t t' e5 e6 Hpos Ht. apply place_monster_inv; [ | exact Ht ].
      apply (shuffle_elem_of _ _ _ _ pos Hshuf) in Hpos.
      specialize (Hall pos Hpos). destruct pos; exact Hall.
    - unfold monsters_inv. cbn [fst snd]. rewrite map_size_empty.
      split; [ reflexivity | ]. split; [ lia | ].
      split; [ intros k m Hk; rewrite lookup_empty in Hk; discriminate | ].
      intros k1 k2 [m Hm]. rewrite lookup_empty in Hm. discriminate. }
  destruct Hinv as (Hc & Hrest). rewrite <- Hc.
  destruct st as [ms c]. cbn [fst snd] in *. split; [ exact Hc | exact Hrest ].
Qed.

End PlacementFacts.

(* --------------------------------------------------------------------- *)
(** ** The tags the generator writes                                      *)
(* --------------------------------------------------------------------- *)
Module TagFacts.
Import PyFacts Maze Terms PlacementTerms GridFacts CarveFacts SkeletonFacts.
Import OverlayFacts ConnectionFacts GenerateFacts InitFacts FuelFacts.

Lemma index_lt {A} (l : list A) (i : Z) (j : nat) :
  index l i = Some j -> (j < length l)%nat.
Proof.
  unfold index.
  set (k := if i <? 0 then i + Z.of_nat (length l) else i).
  destruct (Z.leb_spec 0 k) as [H0|H0]; [ | discriminate ].
  destruct (Z.ltb_spec k (Z.of_nat (length l))) as [Hk|Hk]; [ | discriminate ].
  cbn [andb]. intros E. inversion E. lia.
Qed.

(** One write, at any index Python accepts: a cell of the new grid holds
    the value written or what it held. *)
Lemma grid_set_values (m m' : grid) (y x v : Z) :
  grid_set m y x v = Ok m' ->
  forall x' y' u, cell m' x' y' = Some u -> u = v \/ cell m x' y' = Some u.
Proof.
  unfold grid_set, getitem, setitem. intros H x' y' u.
  destruct (index m y) as [j|] eqn:Ej; [ | discriminate H ].
  destruct (m !! j) as [row|] eqn:Erow; [ | discriminate H ].
  cbn [rbind] in H.
  destruct (index row x) as [i|] eqn:Ei; [ | discriminate H ].
  cbn [rbind] in H. inversion H; subst m'; clear H.
  apply index_lt in Ej, Ei.
  unfold cell. destruct ((0 <=? x') && (0 <=? y')); [ | discriminate ].
  destruct (decide (Z.to_nat y' = j)) as [->|Hy].
  - rewrite list_lookup_insert_eq by exact Ej. rewrite Erow. cbn.
    destruct (decide (Z.to_nat x' = i)) as [->|Hx].
    + rewrite list_lookup_insert_eq by exact Ei. intros E. inversion E. now left.
    + rewrite list_lookup_insert_ne by auto. now right.
  - rewrite list_lookup_insert_ne by auto. now right.
Qed.

Lemma grid_set_tags (allowed : list Z) (m m' : grid) (y x v : Z) :
  v ∈ allowed -> tags_among allowed m -> grid_set m y x v = Ok m' ->
  tags_among allowed m'.
Proof.
  intros Hv Hm H x' y' u Hu.
  destruct (grid_set_values m m' y x v H x' y' u Hu) as [->|Hold]; eauto.
Qed.

Lemma tags_among_weaken (a b : list Z) (m : grid) :
  (forall v, v ∈ a -> v ∈ b) -> tags_among a m -> tags_among b m.
Proof. intros Hab Hm x y v Hv. eauto. Qed.

Lemma new_maze_tags (w h : Z) (m : grid) :
  (forall x y, cell m x y = cell (new_maze w h) x y) -> tags_among [0] m.
Proof.
  intros Hm x y v Hv. rewrite Hm, new_maze_cell in Hv.
  destruct (decide _); inversion Hv. left.
Qed.

Lemma open_block_tags (allowed : list Z) (w h cx cy : Z) (m m' : grid) :
  1 ∈ allowed -> tags_among allowed m ->
  open_block w h cx cy m = Ok m' -> tags_among allowed m'.
Proof.
  intros H1 Hm. unfold open_block.
  apply (for_inv (tags_among allowed)); [ | exact Hm ].
  intros dy t t' _ Ht.
  apply (for_inv (tags_among allowed)); [ | exact Ht ].
  intros dx u u' _ Hu H. destruct (_ && _); [ | inv_ok; exact Hu ].
  eapply grid_set_tags; eauto.
Qed.

Lemma carve_corridor_tags (allowed : list Z) (w h cx cy dx dy : Z) (m m' : grid) :
  1 ∈ allowed -> tags_among allowed m ->
  carve_corridor w h cx cy dx dy m = Ok m' -> tags_among allowed m'.
Proof.
  intros H1 Hm. unfold carve_corridor.
  apply (for_inv (tags_among allowed)); [ | exact Hm ].
  intros st t t' _ Ht. destruct (negb _);
    (apply (for_inv (tags_among allowed)); [ | exact Ht ];
     intros off u u' _ Hu H; destruct (_ && _); [ | inv_ok; exact Hu ];
     eapply grid_set_tags; eauto).
Qed.

Lemma try_directions_tags (allowed : list Z) (w h : Z) (cur : Z * Z)
    (dirs : list (Z * Z)) (m m' : grid) (r : option (Z * Z)) :
  1 ∈ allowed -> tags_among allowed m ->
  try_directions w h cur dirs m = Ok (m', r) -> tags_among allowed m'.
Proof.
  intros H1 Hm. induction dirs as [|[dx dy] dirs IH]; cbn [try_directions]; intros H.
  - inv_ok. exact Hm.
  - destruct (_ && _); [ | auto ].
    apply rbind_Ok in H as (v & _ & H). destruct (v =? 0); [ | auto ].
    apply rbind_Ok in H as (m1 & Hc & H). apply rbind_Ok in H as (m2 & Hb & H).
    inversion H; subst m' r.
    eapply open_block_tags; [ exact H1 | | exact Hb ].
    eapply carve_corridor_tags; eauto.
Qed.

Lemma carve_loop_tags (allowed : list Z) (w h : Z) (fuel : nat) :
  1 ∈ allowed ->
  forall (m : grid) (stack : list (Z * Z)) (e e' : entropy) (m' : grid),
    tags_among allowed m ->
    carve_loop fuel w h m stack e = Ok (m', e') -> tags_among allowed m'.
Proof.
  intros H1. induction fuel as [|fuel IH]; intros m stack e e' m' Hm H;
    destruct stack as [|cur below]; cbn [carve_loop] in H; try discriminate;
    try (inv_ok; exact Hm).
  apply bind_Ok in H as (dirs & e1 & _ & H).
  apply bind_Ok in H as ([m1 r] & e2 & Htry & H).
  apply lift_Ok in Htry as [Htry ->].
  apply (try_directions_tags allowed) in Htry; [ | exact H1 | exact Hm ].
  cbn [fst snd] in H. destruct r; eapply IH; eauto.
Qed.

(** The two cells [opposite_open] reads are open when it answers True. *)
Lemma opposite_open_both (m : grid) (y1 x1 y2 x2 : Z) (e e' : entropy) :
  0 <= x1 -> 0 <= y1 -> 0 <= x2 -> 0 <= y2 ->
  opposite_open m y1 x1 y2 x2 e = Ok (true, e') ->
  opened m (x1, y1) /\ opened m (x2, y2).
Proof.
  intros Hx1 Hy1 Hx2 Hy2 H. unfold opposite_open in H.
  apply bind_Ok in H as (a & e1 & Ha & H). apply lift_Ok in Ha as [Ha ->].
  apply grid_get_cell in Ha; try assumption.
  destruct (walkable a) eqn:Hwa; [ | apply ret_Ok in H as [H _]; discriminate ].
  apply bind_Ok in H as (b & e2 & Hb & H). apply lift_Ok in Hb as [Hb ->].
  apply grid_get_cell in Hb; try assumption.
  destruct (walkable b) eqn:Hwb; [ | apply ret_Ok in H as [H _]; discriminate ].
  split; [ exists a | exists b ]; (split; [ assumption | now apply walkable_nonzero ]).
Qed.

End TagFacts.

(* --------------------------------------------------------------------- *)
(** ** The doors of [add_random_connections]                              *)
(* --------------------------------------------------------------------- *)
Module DoorFacts.
Import PyFacts Maze Terms PlacementTerms GridFacts CarveFacts SkeletonFacts.
Import OverlayFacts ConnectionFacts GenerateFacts InitFacts FuelFacts TagFacts.

(** Membership in a literal list of tags. *)
Ltac among :=
  repeat first [ apply list_elem_of_here | apply list_elem_of_further ].

Ltac not_among H :=
  repeat (apply elem_of_cons in H as [H|H]; [ discriminate H | ]);
  inversion H.

Ltac among_more :=
  let v := fresh "v" in let Hv := fresh "Hv" in
  intros v Hv;
  repeat (apply elem_of_cons in Hv as [->|Hv]; [ among | ]);
  inversion Hv.

Lemma NoDup_list_prod {A B} (l : list A) (k : list B) :
  NoDup l -> NoDup k -> NoDup (list_prod l k).
Proof.
  intros Hl Hk. induction Hl as [|a l Ha Hl IH]; cbn [list_prod]; [ constructor | ].
  apply NoDup_app. split; [ | split; [ | exact IH ] ].
  - change (map (fun y : B => (a, y)) k) with ((fun y : B => (a, y)) <$> k).
    apply NoDup_fmap_2; [ | exact Hk ]. intros y1 y2 E. now inversion E.
  - intros [x y] Hin Hin'. apply list_elem_of_In, in_map_iff in Hin as (y' & E & _).
    inversion E; subst. apply list_elem_of_In, in_prod_iff in Hin' as [Hx _].
    apply Ha, list_elem_of_In, Hx.
Qed.

Lemma NoDup_positions (w h : Z) : NoDup (positions w h).
Proof. apply NoDup_list_prod; apply NoDup_seqZ. Qed.

Lemma filter_length_one_more {A} `{EqDecision A} (P Q : A -> Prop)
    `{forall a, Decision (P a)} `{forall a, Decision (Q a)} (l : list A) (c : A) :
  NoDup l -> (forall a, a ∈ l -> a <> c -> Q a -> P a) ->
  (length (filter Q l) <= S (length (filter P l)))%nat.
Proof.
  intros Hl. induction Hl as [|a l Ha Hl IH]; intros HQP; [ cbn; lia | ].
  rewrite !filter_cons.
  destruct (decide (a = c)) as [->|Hne].
  - assert (Hle : (length (filter Q l) <= length (filter P l))%nat).
    { apply filter_length_le. intros b Hb. apply HQP; [ now right | ].
      intros ->. contradiction. }
    destruct (decide (Q c)), (decide (P c)); cbn [length]; lia.
  - assert (IH' : (length (filter Q l) <= S (length (filter P l)))%nat).
    { apply IH. intros b Hb. apply HQP. now right. }
    destruct (decide (Q a)) as [Hq|Hq].
    + rewrite decide_True by (apply HQP; [ left | exact Hne | exact Hq ]).
      cbn [length]. lia.
    + destruct (decide (P a)); cbn [length]; lia.
Qed.

Lemma bridges_grew (P : Z * Z -> Prop) (m m' : grid) (c : Z * Z) :
  grew P m m' -> bridges m c -> bridges m' c.
Proof.
  intros Hg [[Ha Hb]|[Ha Hb]]; [ left | right ];
    split; eapply grew_opened; eauto.
Qed.

(** A door written where [try_connection] writes it. *)
Lemma door_written (w h : Z) (st : grid * Z) (m' : grid) (x y : Z) :
  2 <= x <= w - 3 -> 2 <= y <= h - 3 ->
  bridges st.1 (x, y) ->
  doors_inv w h st ->
  grid_set st.1 y x 3 = Ok m' ->
  doors_inv w h (m', st.2 + 1).
Proof.
  intros Hx Hy Hbr (Htags & Hdoors & Hcount) Hset.
  assert (Hg : grew (fun _ => True) st.1 m').
  { apply (grid_set_grew _ st.1 m' x y 3); auto; lia. }
  pose proof (grid_set_cell st.1 m' x y 3 ltac:(lia) ltac:(lia) Hset) as [_ Hcell].
  unfold doors_inv. cbn [fst snd]. split; [ | split ].
  - eapply grid_set_tags; [ | exact Htags | exact Hset ]. among.
  - intros x' y' H3. rewrite Hcell in H3.
    destruct (decide (x' = x /\ y' = y)) as [[-> ->]|Hne].
    + split; [ lia | ]. split; [ lia | ]. eapply bridges_grew; eauto.
    + destruct (Hdoors x' y' H3) as (Hx' & Hy' & Hb').
      split; [ lia | ]. split; [ lia | ]. eapply bridges_grew; eauto.
  - assert (Hone : (length (doors w h m') <= S (length (doors w h st.1)))%nat).
    { unfold doors. apply (filter_length_one_more _ _ _ (x, y)).
      - apply NoDup_positions.
      - intros [x' y'] _ Hne H3. cbn [fst snd] in *. rewrite Hcell in H3.
        destruct (decide (x' = x /\ y' = y)) as [[-> ->]|_]; [ contradiction | ].
        exact H3. }
    lia.
Qed.

Lemma try_connection_doors (w h : Z) (st st' : grid * Z) (e e' : entropy) :
  doors_inv w h st ->
  try_connection w h st e = Ok (st', e') ->
  doors_inv w h st' /\ st.2 <= st'.2 <= st.2 + 1.
Proof.
  intros Hinv H. unfold try_connection in H.
  apply bind_Ok in H as (x & e1 & Hx & H). apply randrange_Ok in Hx.
  apply bind_Ok in H as (y & e2 & Hy & H). apply randrange_Ok in Hy.
  apply bind_Ok in H as (v & e3 & _ & H).
  destruct (v =? 0); [ | apply ret_Ok in H as [-> _]; split; [ exact Hinv | lia ] ].
  apply bind_Ok in H as ([|] & e4 & Hh & H).
  - apply opposite_open_both in Hh; try lia.
    apply bind_Ok in H as (m1 & e5 & Hset & H). apply lift_Ok in Hset as [Hset ->].
    apply ret_Ok in H as [-> _]. cbn [snd]. split; [ | lia ].
    apply (door_written w h st m1 x y); try lia; try assumption.
    left. exact Hh.
  - apply bind_Ok in H as ([|] & e5 & Hv & H).
    + apply opposite_open_both in Hv; try lia.
      apply bind_Ok in H as (m1 & e6 & Hset & H). apply lift_Ok in Hset as [Hset ->].
      apply ret_Ok in H as [-> _]. cbn [snd]. split; [ | lia ].
      apply (door_written w h st m1 x y); try lia; try assumption.
      right. exact Hv.
    + apply ret_Ok in H as [-> _]. split; [ exact Hinv | lia ].
Qed.

Lemma connection_attempts_doors (w h k : Z) (n : nat) :
  forall (st st' : grid * Z) (e e' : entropy),
    doors_inv w h st -> st.2 <= Z.max 0 k ->
    connection_attempts n w h k st e = Ok (st', e') ->
    doors_inv w h st' /\ st'.2 <= Z.max 0 k.
Proof.
  induction n as [|n IH]; intros st st' e e' Hinv Hk H; cbn [connection_attempts] in H.
  - apply ret_Ok in H as [-> _]. auto.
  - destruct (Z.leb_spec k st.2) as [Hfull|Hroom];
      [ apply ret_Ok in H as [-> _]; auto | ].
    apply bind_Ok in H as (st1 & e1 & H1 & H).
    apply try_connection_doors in H1 as [Hinv1 Hstep]; [ | exact Hinv ].
    eapply IH; [ exact Hinv1 | lia | exact H ].
Qed.

Lemma doors_none (w h : Z) (m : grid) :
  tags_among [0; 1] m -> doors w h m = [].
Proof.
  intros Hm. unfold doors.
  induction (positions w h) as [|c l IH]; [ reflexivity | ].
  rewrite filter_cons. rewrite decide_False; [ exact IH | ].
  intros H3. apply Hm in H3. not_among H3.
Qed.

Lemma add_random_connections_doors (w h : Z) (m m' : grid) (e e' : entropy) :
  tags_among [0; 1] m ->
  add_random_connections w h m e = Ok (m', e') ->
  doors_inv w h (m', 25).
Proof.
  intros Hm H. unfold add_random_connections in H.
  apply bind_Ok in H as (k & e1 & Hk & H). apply randint_Ok in Hk.
  apply bind_Ok in H as (st & e2 & Hst & H). apply ret_Ok in H as [-> _].
  apply connection_attempts_doors in Hst as [(Ht & Hd & Hc) Hmax].
  - unfold doors_inv. cbn [fst snd]. split; [ exact Ht | ]. split; [ exact Hd | lia ].
  - unfold doors_inv. cbn [fst snd]. split; [ | split ].
    + eapply tags_among_weaken; [ | exact Hm ]. among_more.
    + intros x y H3. apply Hm in H3. not_among H3.
    + rewrite doors_none by exact Hm. cbn. lia.
  - cbn [snd]. lia.
Qed.

(** The maze [generate_maze] returns to an object with no [rooms]. *)
Lemma generate_maze_doors (w h : Z) (r : option (list Room)) (m : grid)
    (e e' : entropy) :
  generate_maze w h None e = Ok ((m, r), e') -> doors_inv w h (m, 25).
Proof.
  intros H.
  apply generate_maze_parts in H as (m0 & m1 & m2 & st & e1 & e2 &
                                     H0 & H1 & H2 & H3 & H4 & ->).
  apply add_rooms_none in H3 as (-> & _ & _). cbn [fst snd] in *.
  eapply add_random_connections_doors; [ | exact H4 ].
  eapply (carve_loop_tags [0; 1]); [ among | | exact H2 ].
  eapply open_block_tags; [ among | | exact H1 ].
  eapply tags_among_weaken; [ | eapply new_maze_tags, clear_maze_cell; exact H0 ].
  among_more.
Qed.

End DoorFacts.

(* --------------------------------------------------------------------- *)
(** ** The treasure loop                                                  *)
(* --------------------------------------------------------------------- *)
Module TreasureFacts.
Import PyFacts Maze Terms PlacementTerms GridFacts InitFacts PlacementFacts.

Lemma getitem_elem_of {A} (l : list A) (i : Z) (a : A) :
  getitem l i = Ok a -> a ∈ l.
Proof.
  unfold getitem. destruct (index l i) as [j|]; [ | discriminate ].
  destruct (l !! j) eqn:E; intros H; inversion H; subst.
  eapply list_elem_of_lookup_2; eauto.
Qed.

Lemma choice_elem_of {A} (l : list A) (a : A) (e e' : entropy) :
  choice l e = Ok (a, e') -> a ∈ l.
Proof.
  unfold choice. destruct l as [|b l]; [ intros H; inv_ok | ].
  intros H. apply bind_Ok in H as (k & e1 & _ & H).
  apply lift_Ok in H as [H _]. eapply getitem_elem_of; eauto.
Qed.

Lemma treasure_type_elem_of (ty : location_type) (k : loot) (e e' : entropy) :
  treasure_type ty e = Ok (k, e') -> k ∈ loot_choices ty.
Proof. destruct ty; apply choice_elem_of. Qed.

Lemma place_treasure_inv (monsters : gmap (Z * Z) Monster)
    (listed : list (Z * Z * location_type)) (n : Z)
    (c : Z * Z * location_type) (st st' : gmap (Z * Z) Treasure * Z)
    (e e' : entropy) :
  c ∈ listed ->
  treasures_inv listed n st ->
  place_treasure monsters n c st e = Ok (st', e') ->
  treasures_inv listed n st'.
Proof.
  intros Hc Hinv H. unfold place_treasure in H.
  destruct (Z.leb_spec n st.2) as [Hfull|Hroom];
    [ apply ret_Ok in H as [-> _]; exact Hinv | ].
  destruct (bool_decide (monsters !! c.1 = None)); cbn [andb] in H;
    [ | apply ret_Ok in H as [-> _]; exact Hinv ].
  destruct (bool_decide (st.1 !! c.1 = None)) eqn:Hnew;
    [ | apply ret_Ok in H as [-> _]; exact Hinv ].
  apply bool_decide_eq_true in Hnew.
  apply bind_Ok in H as (kind & e1 & Hkind & H).
  apply treasure_type_elem_of in Hkind. apply ret_Ok in H as [-> _].
  destruct Hinv as (Hcount & Hmax & Hall).
  unfold treasures_inv. cbn [fst snd]. split; [ | split ].
  - rewrite map_size_insert_None by exact Hnew. lia.
  - lia.
  - intros k t Hk. destruct (decide (k = c.1)) as [->|Hne].
    + rewrite lookup_insert in Hk. rewrite decide_True in Hk by reflexivity.
      inversion Hk; subst t. cbn [Maze.opened contents].
      split; [ reflexivity | ]. exists c.2. split; [ | exact Hkind ].
      destruct c as [pos ty]. exact Hc.
    + rewrite lookup_insert_ne in Hk by auto. auto.
Qed.

Lemma elem_of_tag (ty ty' : location_type) (l : list (Z * Z)) (k : Z * Z) :
  (k, ty') ∈ tag ty l -> ty' = ty /\ k ∈ l.
Proof.
  unfold tag. intros H. apply list_elem_of_fmap in H as ([x y] & E & Hin).
  cbn [fst snd] in E. inversion E; subst. auto.
Qed.

(** [place_treasures]: at most 25 treasures, all closed; each one at a
    room centre, at a dead end or at an open inner cell, with contents of
    the list of that kind of place. *)
Lemma place_treasures_spec (w h : Z) (maze : grid) (rooms : list Room)
    (monsters : gmap (Z * Z) Monster) (treasures : gmap (Z * Z) Treasure)
    (e e' : entropy) :
  place_treasures w h maze rooms monsters e = Ok (treasures, e') ->
  (size treasures <= 25)%nat /\
  forall k t, treasures !! k = Some t ->
    Maze.opened t = false /\
    ((exists r, r ∈ rooms /\ k = (center_x r, center_y r) /\
                contents t ∈ loot_choices room_center) \/
     (open_inner_cell w h maze k /\
      (contents t ∈ loot_choices dead_end \/
       contents t ∈ loot_choices random_spot))).
Proof.
  unfold place_treasures. intros H.
  apply bind_Ok in H as (n & e1 & Hn & H). apply randint_Ok in Hn.
  apply bind_Ok in H as (dead & e2 & Hdead & H).
  apply bind_Ok in H as (rnd & e3 & Hrnd & H).
  apply bind_Ok in H as (shuffled & e4 & Hshuf & H).
  apply bind_Ok in H as (st & e5 & Hst & H).
  apply ret_Ok in H as [-> _].
  set (listed := tag room_center _ ++ tag dead_end dead ++ tag random_spot rnd) in *.
  assert (Hinv : treasures_inv listed n st).
  { revert Hst. apply (forR_inv (treasures_inv listed n)).
    - intros c t t' e6 e7 Hc Ht. apply place_treasure_inv; [ | exact Ht ].
      eapply shuffle_elem_of; eauto.
    - unfold treasures_inv. cbn [fst snd]. rewrite map_size_empty.
      split; [ reflexivity | ]. split; [ lia | ].
      intros k t Hk. rewrite lookup_empty in Hk. discriminate. }
  assert (Hdead' : forall c, c ∈ dead -> open_inner_cell w h maze (c.1, c.2)).
  { revert Hdead.
    apply (collect_cells_spec (fun x y => open_inner_cell w h maze (x, y))).
    intros x y e6 e7 Hx Hy Ht. apply elem_of_range in Hx, Hy.
    apply bind_Ok in Ht as (v & e8 & Hv & Ht). apply lift_Ok in Hv as [Hv _].
    destruct ((v =? 1) || (v =? 3)) eqn:Hv13;
      [ | apply ret_Ok in Ht as [Ht _]; discriminate ].
    split; [ cbn [fst]; lia | ]. split; [ cbn [snd]; lia | ].
    exists v. cbn [fst snd]. split; [ exact Hv | ]. unfold walkable. lia. }
  assert (Hrnd' : forall c, c ∈ rnd -> open_inner_cell w h maze (c.1, c.2)).
  { revert Hrnd.
    apply (collect_cells_spec (fun x y => open_inner_cell w h maze (x, y))).
    intros x y e6 e7 Hx Hy Ht. apply elem_of_range in Hx, Hy.
    apply bind_Ok in Ht as (v & e8 & Hv & Ht). apply lift_Ok in Hv as [Hv _].
    destruct (walkable v) eqn:Hw; cbn [andb] in Ht;
      [ | apply ret_Ok in Ht as [Ht _]; discriminate ].
    split; [ cbn [fst]; lia | ]. split; [ cbn [snd]; lia | ].
    exists v. cbn [fst snd]. auto. }
  destruct Hinv as (Hcount & Hmax & Hall). split; [ lia | ].
  intros k t Hk. destruct (Hall k t Hk) as (Hclosed & ty & Hin & Hloot).
  split; [ exact Hclosed | ].
  unfold listed in Hin. apply elem_of_app in Hin as [Hin|Hin].
  - apply elem_of_tag in Hin as [-> Hin]. left.
    apply list_elem_of_filter in Hin as [_ Hin].
    apply list_elem_of_fmap in Hin as (r & -> & Hr). exists r. auto.
  - right. apply elem_of_app in Hin as [Hin|Hin];
      apply elem_of_tag in Hin as [-> Hin].
    + split; [ | left; exact Hloot ].
      specialize (Hdead' k Hin). destruct k; exact Hdead'.
    + split; [ | right; exact Hloot ].
      specialize (Hrnd' k Hin). destruct k; exact Hrnd'.
Qed.

End TreasureFacts.

(* --------------------------------------------------------------------- *)
(** ** What a constructed map holds                                       *)
(* --------------------------------------------------------------------- *)
Module ContentTheorems.
Import PyFacts Maze Terms PlacementTerms GridFacts InitFacts MazeTheorems.
Import PlacementFacts TagFacts DoorFacts TreasureFacts.

Lemma MazeMap_init_doors (w h b : Z) (mm : MazeMap) (e e' : entropy) :
  MazeMap_init w h b e = Ok (mm, e') ->
  doors_inv (width mm) (height mm) (maze mm, 25).
Proof.
  intros H. apply MazeMap_init_parts in H
    as (-> & -> & _ & _ & r & e1 & e2 & e3 & Hgen & _).
  eapply generate_maze_doors; eauto.
Qed.

(** A map the constructor returns has no room: its room list is empty
    and every cell of its maze holds 0 (wall), 1 (corridor) or 3 (door),
    never the room tag 2.  [generate_maze] runs before [self.rooms]
    exists, so a pass of [add_rooms] that accepts a room ends the
    construction with [AttributeError]. *)
Theorem constructed_map_has_no_room
    (w h b : Z) (mm : MazeMap) (e e' : entropy) :
  MazeMap_init w h b e = Ok (mm, e') ->
  rooms mm = [] /\
  forall x y v, cell (maze mm) x y = Some v -> (v = 0 \/ v = 1 \/ v = 3) /\ v <> 2.
Proof.
  intros H. pose proof (MazeMap_init_doors _ _ _ _ _ _ H) as (Htags & _ & _).
  apply MazeMap_init_parts in H as (_ & _ & _ & Hrooms & _).
  split; [ exact Hrooms | ]. intros x y v Hv. apply Htags in Hv. cbn [fst] in Hv.
  repeat (apply elem_of_cons in Hv as [->|Hv]; [ split; [ auto | lia ] | ]).
  inversion Hv.
Qed.

Lemma constructed_map_has_no_room_witness :
  match MazeMap_init 31 31 0 [] with
  | Ok (mm, _) =>
      rooms mm = [] /\
      forall x y v, cell (maze mm) x y = Some v ->
                    (v = 0 \/ v = 1 \/ v = 3) /\ v <> 2
  | _ => False
  end.
Proof.
  pose proof run_31_31 as Hrun.
  destruct (MazeMap_init 31 31 0 []) as [[mm e']| |] eqn:E;
    [ | discriminate Hrun | discriminate Hrun ].
  exact (constructed_map_has_no_room 31 31 0 mm [] e' E).
Defined.

(** In a map the constructor returns, every door cell (tag 3) lies two
    cells off the border at least and has open cells on two opposite
    sides, left and right or above and below; and there are at most 25
    door cells, the largest number [add_random_connections] can draw. *)
Theorem doors_bridge_open_cells
    (w h b : Z) (mm : MazeMap) (e e' : entropy) :
  MazeMap_init w h b e = Ok (mm, e') ->
  (forall x y, cell (maze mm) x y = Some 3 ->
     2 <= x <= width mm - 3 /\ 2 <= y <= height mm - 3 /\
     bridges (maze mm) (x, y)) /\
  (length (doors (width mm) (height mm) (maze mm)) <= 25)%nat.
Proof.
  intros H. pose proof (MazeMap_init_doors _ _ _ _ _ _ H) as (_ & Hd & Hc).
  cbn [fst snd] in *. split; [ exact Hd | lia ].
Qed.

Lemma doors_bridge_open_cells_witness :
  match MazeMap_init 31 31 0 [] with
  | Ok (mm, _) =>
      (forall x y, cell (maze mm) x y = Some 3 ->
         2 <= x <= width mm - 3 /\ 2 <= y <= height mm - 3 /\
         bridges (maze mm) (x, y)) /\
      (length (doors (width mm) (height mm) (maze mm)) <= 25)%nat
  | _ => False
  end.
Proof.
  pose proof run_31_31 as Hrun.
  destruct (MazeMap_init 31 31 0 []) as [[mm e']| |] eqn:E;
    [ | discriminate Hrun | discriminate Hrun ].
  exact (doors_bridge_open_cells 31 31 0 mm [] e' E).
Defined.

(** In a map the constructor returns there are at most 35 monsters; each
    one is undefeated, stands on an open cell off the outer ring of the
    grid and has a health of 2, 3 or 4 (the room bonus never applies: a
    constructed maze has no room cell); and any two monsters are at a
    Manhattan distance of 3 or more. *)
Theorem monsters_apart_on_open_cells
    (w h b : Z) (mm : MazeMap) (e e' : entropy) :
  MazeMap_init w h b e = Ok (mm, e') ->
  (size (monsters mm) <= 35)%nat /\
  (forall k m, monsters mm !! k = Some m ->
     open_inner_cell (width mm) (height mm) (maze mm) k /\
     defeated m = false /\ 2 <= health m <= 4) /\
  (forall k1 k2, is_Some (monsters mm !! k1) -> is_Some (monsters mm !! k2) ->
     k1 <> k2 -> 3 <= manhattan k1 k2).
Proof.
  intros H. pose proof (MazeMap_init_doors _ _ _ _ _ _ H) as (Htags & _ & _).
  cbn [fst] in Htags.
  apply MazeMap_init_parts in H
    as (-> & -> & _ & _ & r & e1 & e2 & e3 & _ & Hmon & _).
  apply place_monsters_spec in Hmon as (n & Hn & Hcount & Hmax & Hall & Hapart).
  cbn [fst snd] in *. split; [ lia | ]. split; [ | exact Hapart ].
  intros k m Hk. destruct (Hall k m Hk) as (Hcell & Hdef & Hh & Hlow & _).
  split; [ exact Hcell | ]. split; [ exact Hdef | ]. split; [ lia | ].
  apply Hlow. intros H2. destruct Hcell as (Hx & Hy & _).
  apply grid_get_cell in H2; [ | lia | lia ].
  apply Htags in H2. not_among H2.
Qed.

Lemma monsters_apart_on_open_cells_witness :
  match MazeMap_init 31 31 0 [] with
  | Ok (mm, _) =>
      (size (monsters mm) <= 35)%nat /\
      (forall k m, monsters mm !! k = Some m ->
         open_inner_cell (width mm) (height mm) (maze mm) k /\
         defeated m = false /\ 2 <= health m <= 4) /\
      (forall k1 k2, is_Some (monsters mm !! k1) -> is_Some (monsters mm !! k2) ->
         k1 <> k2 -> 3 <= manhattan k1 k2)
  | _ => False
  end.
Proof.
  pose proof run_31_31 as Hrun.
  destruct (MazeMap_init 31 31 0 []) as [[mm e']| |] eqn:E;
    [ | discriminate Hrun | discriminate Hrun ].
  exact (monsters_apart_on_open_cells 31 31 0 mm [] e' E).
Defined.

(** In a map the constructor returns there are at most 25 treasures; each
    one is closed and lies on an open cell off the outer ring of the grid;
    and none holds the contents [mega_health], which only a room centre
    can get: [place_treasures] runs after [self.rooms] was set to the
    empty list. *)
Theorem treasures_closed_on_open_cells
    (w h b : Z) (mm : MazeMap) (e e' : entropy) :
  MazeMap_init w h b e = Ok (mm, e') ->
  (size (treasures mm) <= 25)%nat /\
  forall k t, treasures mm !! k = Some t ->
    open_inner_cell (width mm) (height mm) (maze mm) k /\
    Maze.opened t = false /\ contents t <> mega_health.
Proof.
  intros H. apply MazeMap_init_parts in H
    as (-> & -> & _ & _ & r & e1 & e2 & e3 & _ & _ & Htre).
  apply place_treasures_spec in Htre as [Hsize Hall].
  split; [ exact Hsize | ]. intros k t Hk.
  destruct (Hall k t Hk) as (Hclosed & [(r0 & Hr0 & _)|(Hcell & Hloot)]);
    [ inversion Hr0 | ].
  split; [ exact Hcell | ]. split; [ exact Hclosed | ].
  intros Hmega. rewrite Hmega in Hloot. cbn [loot_choices] in Hloot.
  destruct Hloot as [Hl|Hl]; not_among Hl.
Qed.

Lemma treasures_closed_on_open_cells_witness :
  match MazeMap_init 31 31 0 [] with
  | Ok (mm, _) =>
      (size (treasures mm) <= 25)%nat /\
      forall k t, treasures mm !! k = Some t ->
        open_inner_cell (width mm) (height mm) (maze mm) k /\
        Maze.opened t = false /\ contents t <> mega_health
  | _ => False
  end.
Proof.
  pose proof run_31_31 as Hrun.
  destruct (MazeMap_init 31 31 0 []) as [[mm e']| |] eqn:E;
    [ | discriminate Hrun | discriminate Hrun ].
  exact (treasures_closed_on_open_cells 31 31 0 mm [] e' E).
Defined.

End ContentTheorems.

(* --------------------------------------------------------------------- *)
(** ** The terrain of a maze                                              *)
(* --------------------------------------------------------------------- *)
Module TerrainFacts.
Import PyFacts Maze Terms PlacementTerms GridFacts InitFacts.





End TerrainFacts.

Module TerrainTheorems.
Import PyFacts Maze Terms PlacementTerms GridFacts InitFacts MazeTheorems TerrainFacts.



End TerrainTheorems.

(* --------------------------------------------------------------------- *)
(** ** The player: jumping and gravity                                    *)
(* --------------------------------------------------------------------- *)
Module PhysicsTheorems.
Import Reals Lra.
Import Maze Engine Physics.
Local Open Scope R_scope.

Lemma leb_R_true (a b : R) : leb_R a b = true <-> a <= b.
Proof. unfold leb_R. destruct (Rle_dec a b); split; auto; discriminate. Qed.

Lemma ltb_R_true (a b : R) : ltb_R a b = true <-> a < b.
Proof. unfold ltb_R. destruct (Rlt_dec a b); split; auto; discriminate. Qed.

Lemma leb_R_false (a b : R) : leb_R a b = false <-> b < a.
Proof.
  unfold leb_R. destruct (Rle_dec a b); split; intros H;
    try discriminate; try reflexivity; lra.
Qed.

Lemma ltb_R_false (a b : R) : ltb_R a b = false <-> b <= a.
Proof.
  unfold ltb_R. destruct (Rlt_dec a b); split; intros H;
    try discriminate; try reflexivity; lra.
Qed.

(** The two outcomes of a physics step. *)
Lemma apply_physics_cases (self : Player) (maze_map : MazeMap) (dt : R) :
  let v := velocity_y self + gravity * dt in
  let y := vy (position self) + v * dt in
  (y <= ground_level maze_map /\
   apply_physics self maze_map dt
   = set_is_jumping (set_velocity_y (set_y self (ground_level maze_map)) 0) false) \/
  (ground_level maze_map < y /\
   apply_physics self maze_map dt = set_y (set_velocity_y self v) y).
Proof.
  intros v y. unfold apply_physics.
  cbn [set_velocity_y set_y set_is_jumping position velocity_y vx vy vz].
  fold v. fold y.
  destruct (leb_R y (ground_level maze_map)) eqn:Hland.
  - left. apply leb_R_true in Hland. split; [ exact Hland | ].
    cbn [set_velocity_y set_y set_is_jumping position velocity_y vx vy vz
         rotation_y rotation_x speed max_hp hp is_jumping experience level].
    rewrite (proj2 (ltb_R_false _ _)) by lra. reflexivity.
  - right. apply leb_R_false in Hland. split; [ exact Hland | ].
    cbn [set_velocity_y set_y set_is_jumping position velocity_y vx vy vz
         rotation_y rotation_x speed max_hp hp is_jumping experience level].
    rewrite (proj2 (ltb_R_false _ _)) by lra. reflexivity.
Qed.

Lemma apply_physics_inv (self : Player) (maze_map : MazeMap) (dt : R) :
  airborne_inv maze_map self -> airborne_inv maze_map (apply_physics self maze_map dt).
Proof.
  intros (Hlow & Hhigh & Hrest).
  destruct (apply_physics_cases self maze_map dt) as [[Hy ->]|[Hy ->]];
    unfold airborne_inv, standing;
    cbn [set_velocity_y set_y set_is_jumping position velocity_y vx vy vz is_jumping].
  - split; [ lra | ]. split; [ lra | ]. auto.
  - split; [ lra | ]. split.
    + unfold gravity in *. nra.
    + intros Hj. destruct (Hrest Hj) as (Ey & Ev & _).
      exfalso. rewrite Ey, Ev in Hy. unfold gravity in Hy. nra.
Qed.

Lemma jump_inv (self : Player) (maze_map : MazeMap) :
  airborne_inv maze_map self -> airborne_inv maze_map (jump self).
Proof.
  intros Hinv. unfold jump.
  destruct (is_jumping self) eqn:Hj; cbn [negb andb]; [ exact Hinv | ].
  destruct (ltb_R _ _); [ | exact Hinv ].
  destruct Hinv as (Hlow & Hhigh & Hrest). destruct (Hrest Hj) as (Ey & Ev & _).
  unfold airborne_inv, standing, jump_strength.
  cbn [set_velocity_y set_is_jumping position velocity_y is_jumping].
  split; [ exact Hlow | ]. split; [ lra | discriminate ].
Qed.

(** Over any run of jumps and physics steps, whatever the time steps,
    a player who starts at rest on the floor keeps the eye between
    standing level and 5/6 of a unit above it (the height a jump of
    strength 5 reaches under gravity -15), and is at rest on the floor
    whenever the jumping flag is down. *)
Theorem jump_height_is_bounded
    (maze_map : MazeMap) (self : Player) (motions : list motion) :
  standing maze_map self ->
  let after := fold_left (move_up_down maze_map) motions self in
  ground_level maze_map <= vy (position after) <= ground_level maze_map + 5 / 6 /\
  (is_jumping after = false -> standing maze_map after).
Proof.
  intros (Ey & Ev & Hj) after.
  assert (Hinv : airborne_inv maze_map after).
  { subst after. assert (H0 : airborne_inv maze_map self).
    { unfold airborne_inv, standing. rewrite Ey, Ev. repeat split; auto; lra. }
    revert self H0 Ey Ev Hj.
    induction motions as [|m ms IH]; intros self H0 _ _ _; [ exact H0 | ].
    cbn [fold_left].
    assert (H1 : airborne_inv maze_map (move_up_down maze_map self m)).
    { destruct m; cbn [move_up_down];
        [ apply jump_inv | apply apply_physics_inv ]; exact H0. }
    clear H0. revert H1. generalize (move_up_down maze_map self m) as p.
    clear self. intros self H0.
    assert (Hgen : forall q, airborne_inv maze_map q ->
              airborne_inv maze_map (fold_left (move_up_down maze_map) ms q)).
    { clear self H0 IH. induction ms as [|m' ms' IH']; intros q Hq; [ exact Hq | ].
      cbn [fold_left]. apply IH'.
      destruct m'; cbn [move_up_down];
        [ apply jump_inv | apply apply_physics_inv ]; exact Hq. }
    apply Hgen. exact H0. }
  destruct Hinv as (Hlow & Hhigh & Hrest).
  split; [ | exact Hrest ]. split; [ exact Hlow | ].
  assert (0 <= velocity_y after * velocity_y after) by nra. lra.
Qed.

(** The player [Game3D.__init__] makes for the one-cell map: at rest at
    eye level. *)
Lemma at_rest_is_standing :
  standing GameTerms.walled_cell
    (set_y (Player_init 1 1) (ground_level GameTerms.walled_cell)).
Proof. unfold standing. cbn. auto. Qed.

Lemma jump_height_is_bounded_witness :
  ground_level GameTerms.walled_cell
  <= vy (position (fold_left (move_up_down GameTerms.walled_cell)
                     [Jump; Fall (1 / 60); Jump; Fall (1 / 60)]
                     (set_y (Player_init 1 1) (ground_level GameTerms.walled_cell))))
  <= ground_level GameTerms.walled_cell + 5 / 6.
Proof.
  exact (proj1 (jump_height_is_bounded GameTerms.walled_cell
                  (set_y (Player_init 1 1) (ground_level GameTerms.walled_cell))
                  [Jump; Fall (1 / 60); Jump; Fall (1 / 60)]
                  at_rest_is_standing)).
Defined.



(** After a physics step, whatever the time step and the state before,
    the eye is at standing level or above it; the step changes no
    coordinate but the height, and no attribute but the vertical velocity
    and the jumping flag; a step that ends at standing level ends at rest
    and on the ground; and a player at rest on the floor stays as it is. *)
Theorem physics_never_sinks_below_the_floor
    (self : Player) (maze_map : MazeMap) (dt : R) :
  let after := apply_physics self maze_map dt in
  ground_level maze_map <= vy (position after) /\
  vx (position after) = vx (position self) /\
  vz (position after) = vz (position self) /\
  hp after = hp self /\ max_hp after = max_hp self /\
  (vy (position after) = ground_level maze_map ->
   velocity_y after = 0 /\ is_jumping after = false /\
   is_on_ground after maze_map = true) /\
  (standing maze_map self -> after = self).
Proof.
  intros after. subst after.
  destruct (apply_physics_cases self maze_map dt) as [[Hy ->]|[Hy ->]];
    cbn [set_velocity_y set_y set_is_jumping position velocity_y vx vy vz
         hp max_hp is_jumping].
  - split; [ lra | ]. repeat (split; [ reflexivity | ]). split.
    + intros _. split; [ reflexivity | ]. split; [ reflexivity | ].
      unfold is_on_ground.
      cbn [set_velocity_y set_y set_is_jumping position vy]. apply ltb_R_true.
      match goal with |- Rabs ?t < _ => replace t with 0 by ring end.
      rewrite Rabs_R0. lra.
    + intros (Ey & Ev & Hj). destruct self as [[x y z] ry rx sp mh h v j ex lv].
      cbn in *. subst. reflexivity.
  - split; [ lra | ]. repeat (split; [ reflexivity | ]). split.
    + intros E. exfalso. lra.
    + intros (Ey & Ev & Hj). exfalso. rewrite Ey, Ev in Hy.
      unfold gravity in Hy. nra.
Qed.

Lemma physics_never_sinks_below_the_floor_witness :
  apply_physics (set_y (Player_init 1 1) (ground_level GameTerms.walled_cell))
    GameTerms.walled_cell (1 / 60)
  = set_y (Player_init 1 1) (ground_level GameTerms.walled_cell).
Proof.
  exact (proj2 (proj2 (proj2 (proj2 (proj2 (proj2
    (physics_never_sinks_below_the_floor
       (set_y (Player_init 1 1) (ground_level GameTerms.walled_cell))
       GameTerms.walled_cell (1 / 60))))))) at_rest_is_standing).
Defined.

End PhysicsTheorems.

(* --------------------------------------------------------------------- *)
(** ** [game_functions]: the statistics                                   *)
(* --------------------------------------------------------------------- *)
Module StatsTheorems.
Import Functions.
Local Open Scope string_scope.
Local Open Scope Z_scope.

Lemma count_insert (m : gmap string Z) (k k' : string) (v : Z) :
  count (<[k := v]> m) k' = if decide (k = k') then v else count m k'.
Proof.
  unfold count. destruct (decide (k = k')) as [->|Hne].
  - rewrite lookup_insert. rewrite decide_True by reflexivity. reflexivity.
  - rewrite lookup_insert_ne by exact Hne. reflexivity.
Qed.

Lemma dom_insert_present (m : gmap string Z) (k : string) (v : Z) :
  is_Some (m !! k) -> dom (<[k := v]> m) = dom m.
Proof.
  intros Hk. rewrite dom_insert_L. apply elem_of_dom in Hk.
  apply leibniz_equiv. intros x. rewrite elem_of_union, elem_of_singleton.
  split; [ intros [->|Hx]; assumption | auto ].
Qed.

Lemma known_monster (m : gmap string Z) (k : string) :
  dom m = dom (szornyek create_stats) -> is_Some (m !! k) ->
  k = "sárkány" \/ k = "troll" \/ k = "boszorkány".
Proof.
  intros Hd Hk. apply elem_of_dom in Hk. rewrite Hd in Hk.
  unfold create_stats in Hk. cbn [szornyek] in Hk.
  rewrite !dom_insert_L, dom_empty_L in Hk.
  rewrite !elem_of_union, !elem_of_singleton in Hk.
  rewrite elem_of_empty in Hk. tauto.
Qed.

Lemma known_weapon (m : gmap string Z) (k : string) :
  dom m = dom (fegyverek create_stats) -> is_Some (m !! k) ->
  k = "varazspalca" \/ k = "ij" \/ k = "kard".
Proof.
  intros Hd Hk. apply elem_of_dom in Hk. rewrite Hd in Hk.
  unfold create_stats in Hk. cbn [fegyverek] in Hk.
  rewrite !dom_insert_L, dom_empty_L in Hk.
  rewrite !elem_of_union, !elem_of_singleton in Hk.
  rewrite elem_of_empty in Hk. tauto.
Qed.

Lemma same_dom_lookup (m m' : gmap string Z) (k : string) :
  dom m = dom m' -> is_Some (m' !! k) -> is_Some (m !! k).
Proof. intros Hd Hk. apply elem_of_dom. rewrite Hd. apply elem_of_dom. exact Hk. Qed.

Lemma create_stats_inv : stats_inv create_stats.
Proof.
  unfold stats_inv. split; [ reflexivity | ]. split; [ reflexivity | ].
  unfold create_stats.
  cbn [szornyek fegyverek gyozelmek veresegek heroikus_gyozelmek ossz_hp_nyert ossz_hp_veszitett
       legjobb_sorozat jelenlegi_sorozat pontok].
  split; [ vm_compute; reflexivity | ]. split; [ vm_compute; reflexivity | ]. lia.
Qed.

Lemma sum3_insert (m : gmap string Z) (a b c k : string) (n : Z) :
  a <> b -> a <> c -> b <> c -> k = a \/ k = b \/ k = c ->
  m !! k = Some n ->
  count (<[k := n + 1]> m) a + count (<[k := n + 1]> m) b
  + count (<[k := n + 1]> m) c
  = count m a + count m b + count m c + 1.
Proof.
  intros Hab Hac Hbc Hk Hn. rewrite !count_insert.
  assert (Hc : count m k = n) by (unfold count; rewrite Hn; reflexivity).
  destruct Hk as [ -> | [ -> | -> ] ];
    repeat (destruct (decide _) as [?|?]; try congruence); lia.
Qed.

(** One battle with names the dictionaries hold. *)
Lemma update_stats_inv (s : Stats) (b : battle) :
  stats_inv s -> known b ->
  (update_stats s (battle_monster b) (battle_weapon b) (battle_won b)
     (battle_hp_change b) (battle_win_chance b)).2 = Returned /\
  stats_inv (update_with s b) /\
  gyozelmek (update_with s b) + veresegek (update_with s b)
  = gyozelmek s + veresegek s + 1.
Proof.
  intros (Hdm & Hdw & Hsm & Hsw & Hrest) [Hkm Hkw].
  destruct b as [monster weapon won hp_change win_chance].
  cbn [battle_monster battle_weapon battle_won battle_hp_change
       battle_win_chance] in *.
  pose proof (same_dom_lookup _ _ _ Hdm Hkm) as [n Hn].
  pose proof (same_dom_lookup _ _ _ Hdw Hkw) as [k Hk].
  pose proof (known_monster _ _ Hdm (ex_intro _ n Hn)) as Hm3.
  pose proof (known_weapon _ _ Hdw (ex_intro _ k Hk)) as Hw3.
  pose proof (sum3_insert (szornyek s) "sárkány" "troll" "boszorkány" monster n
                ltac:(discriminate) ltac:(discriminate) ltac:(discriminate)
                Hm3 Hn) as Hsm'.
  pose proof (sum3_insert (fegyverek s) "varazspalca" "ij" "kard" weapon k
                ltac:(discriminate) ltac:(discriminate) ltac:(discriminate)
                Hw3 Hk) as Hsw'.
  pose proof (dom_insert_present (szornyek s) monster (n + 1) (ex_intro _ n Hn))
    as Hdm'.
  pose proof (dom_insert_present (fegyverek s) weapon (k + 1) (ex_intro _ k Hk))
    as Hdw'.
  unfold update_with, update_stats.
  cbn [battle_monster battle_weapon battle_won battle_hp_change battle_win_chance].
  rewrite Hn. cbn [set_szornyek fegyverek]. rewrite Hk.
  cbn [fst snd]. split; [ reflexivity | ].
  unfold stats_inv, record_hp, record_outcome, set_fegyverek, set_szornyek.
  destruct won; [ destruct (win_chance =? 25) | ];
    destruct (Z.ltb_spec 0 hp_change);
    cbn [szornyek fegyverek gyozelmek veresegek heroikus_gyozelmek ossz_hp_nyert
         ossz_hp_veszitett legjobb_sorozat jelenlegi_sorozat pontok];
    rewrite Hdm', Hdw', Hsm', Hsw';
    (split; [ split; [ exact Hdm | ]; split; [ exact Hdw | ]; lia | lia ]).
Qed.

(** However many battles are recorded, with names the dictionaries of
    [create_stats] hold: no call raises; wins and defeats add up to the
    number of battles, and so do the counts of the three monsters and the
    counts of the three weapons; the current streak is at most the best
    one, which is at most the number of wins, as is the number of heroic
    wins; and the points are 25 for each win, 25 more for each heroic
    win, less 10 for each defeat. *)
Theorem statistics_add_up (battles : list battle) :
  Forall known battles ->
  let stats := fold_left update_with battles create_stats in
  stats_inv stats /\
  gyozelmek stats + veresegek stats = Z.of_nat (length battles) /\
  forall b, known b ->
    (update_stats stats (battle_monster b) (battle_weapon b) (battle_won b)
       (battle_hp_change b) (battle_win_chance b)).2 = Returned.
Proof.
  intros Hknown stats.
  assert (Hgen : forall s, stats_inv s ->
            stats_inv (fold_left update_with battles s) /\
            gyozelmek (fold_left update_with battles s)
            + veresegek (fold_left update_with battles s)
            = gyozelmek s + veresegek s + Z.of_nat (length battles)).
  { induction Hknown as [|b bs Hb Hbs IH]; intros s Hs.
    - cbn [fold_left length]. split; [ exact Hs | lia ].
    - cbn [fold_left length].
      destruct (update_stats_inv s b Hs Hb) as (_ & Hs' & Hn).
      destruct (IH _ Hs') as [Hinv Hsum]. split; [ exact Hinv | ]. lia. }
  destruct (Hgen create_stats create_stats_inv) as [Hinv Hsum].
  split; [ exact Hinv | ]. split; [ exact Hsum | ].
  intros b Hb. apply (update_stats_inv _ b Hinv Hb).
Qed.

Lemma statistics_add_up_witness :
  stats_inv (fold_left update_with
               [mkBattle "troll" "kard" true 1 85;
                mkBattle "sárkány" "kard" true 2 25;
                mkBattle "boszorkány" "kard" false (-2) 25] create_stats) /\
  pontok (fold_left update_with
            [mkBattle "troll" "kard" true 1 85;
             mkBattle "sárkány" "kard" true 2 25;
             mkBattle "boszorkány" "kard" false (-2) 25] create_stats) = 65.
Proof.
  split; [ | vm_compute; reflexivity ].
  apply (statistics_add_up
           [mkBattle "troll" "kard" true 1 85;
            mkBattle "sárkány" "kard" true 2 25;
            mkBattle "boszorkány" "kard" false (-2) 25]).
  repeat constructor; vm_compute; eauto.
Defined.

(** A name the dictionaries do not hold.  An unknown monster raises
    [KeyError] with the statistics as they were.  A known monster with an
    unknown weapon raises [KeyError] after the monster was counted: the
    dictionary is left with one monster more than battles, and the
    outcome, the streaks, the points and the life totals unrecorded. *)
Theorem update_stats_raises_halfway
    (stats : Stats) (monster weapon : string) (won : bool)
    (hp_change win_chance : Z) :
  (szornyek stats !! monster = None ->
   update_stats stats monster weapon won hp_change win_chance
   = (stats, KeyError monster)) /\
  (stats_inv stats -> is_Some (szornyek stats !! monster) ->
   fegyverek stats !! weapon = None ->
   let after := (update_stats stats monster weapon won hp_change win_chance).1 in
   (update_stats stats monster weapon won hp_change win_chance).2
   = KeyError weapon /\
   count (szornyek after) monster = count (szornyek stats) monster + 1 /\
   gyozelmek after = gyozelmek stats /\ veresegek after = veresegek stats /\
   pontok after = pontok stats /\ fegyverek after = fegyverek stats /\
   ~ stats_inv after).
Proof.
  split.
  - intros Hm. unfold update_stats. rewrite Hm. reflexivity.
  - intros Hinv [n Hn] Hw after. subst after. unfold update_stats.
    rewrite Hn. cbn [set_szornyek fegyverek]. rewrite Hw. cbn [fst snd].
    unfold set_szornyek. cbn [szornyek gyozelmek veresegek pontok fegyverek].
    split; [ reflexivity | ].
    split; [ rewrite count_insert, decide_True by reflexivity;
             unfold count; rewrite Hn; reflexivity | ].
    do 4 (split; [ reflexivity | ]).
    destruct Hinv as (Hdm & _ & Hsm & _).
    intros (_ & _ & Hsm' & _).
    cbn [szornyek gyozelmek veresegek] in Hsm'.
    pose proof (known_monster _ _ Hdm (ex_intro _ n Hn)) as Hm3.
    pose proof (sum3_insert (szornyek stats) "sárkány" "troll" "boszorkány"
                  monster n ltac:(discriminate) ltac:(discriminate)
                  ltac:(discriminate) Hm3 Hn) as Hsum.
    lia.
Qed.

Lemma update_stats_raises_halfway_witness :
  (update_stats create_stats "troll" "balta" true 1 25).2 = KeyError "balta" /\
  count (szornyek (update_stats create_stats "troll" "balta" true 1 25).1) "troll"
  = 1 /\
  ~ stats_inv (update_stats create_stats "troll" "balta" true 1 25).1.
Proof.
  destruct (proj2 (update_stats_raises_halfway create_stats "troll" "balta"
                     true 1 25) create_stats_inv)
    as (Hend & Hcount & _ & _ & _ & _ & Hbroken).
  - vm_compute. eauto.
  - vm_compute. reflexivity.
  - split; [ exact Hend | ]. split; [ exact Hcount | exact Hbroken ].
Defined.

End StatsTheorems.

(* --------------------------------------------------------------------- *)
(** ** [game_functions]: the boxes                                        *)
(* --------------------------------------------------------------------- *)
Module BoxTheorems.
Import Functions.

Lemma row_columns (w d : Z) :
  1 + 1 + (d + (Z.max 0 (w - d - 3) + 1)) = Z.max w (d + 3).
Proof. lia. Qed.

Section Display.
Variable wide : Z -> bool.

Local Abbreviation dl := (get_display_length wide).

Lemma display_length_from (t : text) (a : Z) :
  fold_left (fun length char =>
    if wide char then length + 2
    else if char =? variation_selector then length
    else length + 1) t a
  = a + dl t.
Proof.
  unfold get_display_length. revert a.
  induction t as [|c t IH]; intros a; cbn [fold_left]; [ lia | ].
  rewrite IH. rewrite (IH (if wide c then 0 + 2 else _)).
  destruct (wide c); [ lia | ]. destruct (c =? variation_selector); lia.
Qed.

Lemma display_length_app (a b : text) : dl (a ++ b) = dl a + dl b.
Proof.
  unfold get_display_length at 1. rewrite fold_left_app.
  fold (get_display_length wide a). apply display_length_from.
Qed.

Lemma display_length_nonneg (t : text) : 0 <= dl t.
Proof.
  induction t as [|c t IH]; [ reflexivity | ].
  change (c :: t) with ([c] ++ t). rewrite display_length_app.
  unfold get_display_length at 1. cbn [fold_left].
  destruct (wide c); [ lia | ]. destruct (c =? variation_selector); lia.
Qed.

Lemma display_length_narrow (c : Z) :
  wide c = false -> c <> variation_selector -> dl [c] = 1.
Proof.
  intros Hw Hc. unfold get_display_length. cbn [fold_left]. rewrite Hw.
  destruct (Z.eqb_spec c variation_selector); [ contradiction | reflexivity ].
Qed.

Lemma display_length_times (c n : Z) :
  wide c = false -> c <> variation_selector -> dl (times c n) = Z.max 0 n.
Proof.
  intros Hw Hc. unfold times.
  assert (H : forall k : nat, dl (replicate k c) = Z.of_nat k).
  { induction k as [|k IH]; [ reflexivity | ].
    cbn [replicate]. change (c :: replicate k c) with ([c] ++ replicate k c).
    rewrite display_length_app, IH, display_length_narrow by assumption. lia. }
  rewrite H. lia.
Qed.

Lemma max_display_length_bound (first : text) (rest : list text) :
  dl first <= max_display_length wide first rest /\
  forall line, line ∈ rest -> dl line <= max_display_length wide first rest.
Proof.
  unfold max_display_length. generalize (dl first) as m. 
  induction rest as [|l rest IH]; intros m; cbn [fold_left].
  - split; [ lia | ]. intros line H. inversion H.
  - destruct (IH (Z.max m (dl l))) as [Hm Hall]. split; [ lia | ].
    intros line Hin. apply elem_of_cons in Hin as [->|Hin]; [ lia | auto ].
Qed.

Hypothesis frame : narrow_frame wide.

Lemma frame_chars (c : Z) :
  c ∈ [space; top_left; bar; top_right; pipe; bottom_left; bottom_right;
       tee_left; tee_right] ->
  wide c = false /\ c <> variation_selector.
Proof.
  intros Hc. split.
  - unfold narrow_frame in frame. rewrite Forall_forall in frame. auto.
  - repeat (apply elem_of_cons in Hc as [->|Hc]; [ discriminate | ]).
    inversion Hc.
Qed.

Ltac frame_char :=
  apply frame_chars;
  repeat first [ apply list_elem_of_here | apply list_elem_of_further ].

Lemma display_length_edge (l r w : Z) :
  l ∈ [top_left; bottom_left; tee_left; pipe] ->
  r ∈ [top_right; bottom_right; tee_right; pipe] ->
  forall c, c ∈ [bar; space] ->
  dl ([l] ++ times c (w - 2) ++ [r]) = Z.max w 2.
Proof.
  intros Hl Hr c Hc.
  assert (Hl' : wide l = false /\ l <> variation_selector).
  { repeat (apply elem_of_cons in Hl as [->|Hl]; [ frame_char | ]). inversion Hl. }
  assert (Hr' : wide r = false /\ r <> variation_selector).
  { repeat (apply elem_of_cons in Hr as [->|Hr]; [ frame_char | ]). inversion Hr. }
  assert (Hc' : wide c = false /\ c <> variation_selector).
  { repeat (apply elem_of_cons in Hc as [->|Hc]; [ frame_char | ]). inversion Hc. }
  rewrite !display_length_app.
  rewrite (display_length_narrow l), (display_length_narrow r) by tauto.
  rewrite display_length_times by tauto. lia.
Qed.

Ltac in_list :=
  repeat first [ apply list_elem_of_here | apply list_elem_of_further ].

(** The row of one line of a box of width [w]. *)
Lemma display_length_row (line : text) (w : Z) :
  dl (match line with
      | [] => [pipe] ++ times space (w - 2) ++ [pipe]
      | _ => [pipe; space] ++ line ++ times space (w - dl line - 3) ++ [pipe]
      end)
  = Z.max w (match line with [] => 2 | _ => dl line + 3 end).
Proof.
  destruct line as [|c line].
  - apply (display_length_edge pipe pipe w); in_list.
  - cbv iota. set (l := c :: line).
    change [pipe; space] with ([pipe] ++ [space]).
    rewrite !display_length_app.
    rewrite !display_length_narrow by (apply frame_chars; in_list).
    rewrite display_length_times by (apply frame_chars; in_list).
    apply row_columns.
Qed.

(** [create_box] prints nothing for no lines, and two rows more than
    lines otherwise.  With no width given the box is as wide as its
    longest line and 4, and every row has that display length: the
    right edge is straight.  With a width given, a line that fits (its
    display length is the width less 3 at most) gets a row of the width;
    a longer line gets a row 3 wider than the line, beyond the frame. *)
Theorem box_rows_have_the_width (lines : list text) (width : option Z) :
  create_box wide [] width = [] /\
  (lines <> [] -> length (create_box wide lines width) = S (S (length lines))) /\
  (width = None ->
   forall first rest, lines = first :: rest ->
   Forall (fun row => dl row = max_display_length wide first rest + 4)
          (create_box wide lines None)) /\
  (forall w, width = Some w -> 2 <= w ->
   Forall (fun line => line = [] \/ dl line <= w - 3) lines ->
   Forall (fun row => dl row = w) (create_box wide lines (Some w))) /\
  (forall w line, width = Some w -> line ∈ lines -> line <> [] ->
   w - 3 < dl line ->
   exists row, row ∈ create_box wide lines (Some w) /\ dl row = dl line + 3).
Proof.
  split; [ reflexivity | ]. split; [ | split; [ | split ] ].
  - destruct lines as [|first rest]; [ intros H; contradiction | intros _ ].
    cbn [create_box]. rewrite !length_app, length_map. cbn [length]. unfold text. lia.
  - intros _ first rest ->. cbn [create_box].
    set (w := max_display_length wide first rest + 4).
    destruct (max_display_length_bound first rest) as [Hfirst Hrest].
    pose proof (display_length_nonneg first) as H0.
    apply Forall_app. split; [ | apply Forall_app; split ].
    + constructor; [ | constructor ].
      rewrite (display_length_edge top_left top_right w) by in_list. lia.
    + apply Forall_forall. intros row Hrow.
      apply list_elem_of_In, in_map_iff in Hrow as (line & <- & Hin).
      apply list_elem_of_In in Hin. rewrite display_length_row.
      assert (Hline : dl line <= w - 4).
      { apply elem_of_cons in Hin as [->|Hin]; [ lia | ].
        specialize (Hrest line Hin). lia. }
      destruct line; lia.
    + constructor; [ | constructor ].
      rewrite (display_length_edge bottom_left bottom_right w) by in_list. lia.
  - intros w _ Hw Hfit. destruct lines as [|first rest]; [ constructor | ].
    cbn [create_box].
    apply Forall_app. split; [ | apply Forall_app; split ].
    + constructor; [ | constructor ].
      rewrite (display_length_edge top_left top_right w) by in_list. lia.
    + apply Forall_forall. intros row Hrow.
      apply list_elem_of_In, in_map_iff in Hrow as (line & <- & Hin).
      apply list_elem_of_In in Hin. rewrite display_length_row.
      rewrite Forall_forall in Hfit. specialize (Hfit line Hin).
      destruct line as [|c line]; [ lia | ].
      destruct Hfit as [Hnil|Hle]; [ discriminate Hnil | lia ].
    + constructor; [ | constructor ].
      rewrite (display_length_edge bottom_left bottom_right w) by in_list. lia.
  - intros w line _ Hin Hne Hlong.
    destruct lines as [|first rest]; [ inversion Hin | ].
    cbn [create_box]. eexists. split.
    + apply elem_of_app. right. apply elem_of_app. left.
      apply list_elem_of_In, in_map_iff. exists line.
      split; [ reflexivity | apply list_elem_of_In; exact Hin ].
    + rewrite display_length_row. destruct line; [ contradiction | lia ].
Qed.

(** [create_menu_box] prints four rows and one for each option.  A title
    that fits between the edges is centred: the blanks on its left are at
    most as many as on its right, and one fewer at most; and when the
    title and the options fit (an option needs the width less 4), every
    row has the display length of the width. *)
Theorem menu_title_is_centred (title : text) (options : list text) (width : Z) :
  length (create_menu_box wide title options width) = (4 + length options)%nat /\
  (dl title <= width - 2 ->
   let left_blanks := title_padding wide title width in
   let right_blanks := width - 2 - left_blanks - dl title in
   0 <= left_blanks <= right_blanks /\ right_blanks <= left_blanks + 1 /\
   (Forall (fun option => dl option <= width - 4) options ->
    Forall (fun row => dl row = width)
           (create_menu_box wide title options width))).
Proof.
  split.
  - unfold create_menu_box. rewrite !length_app, length_map. cbn [length]. lia.
  - intros Hfit left_blanks right_blanks.
    pose proof (display_length_nonneg title) as H0.
    assert (Hl : 0 <= left_blanks <= right_blanks /\ right_blanks <= left_blanks + 1).
    { subst left_blanks right_blanks. unfold title_padding.
      Z.to_euclidean_division_equations; lia. }
    split; [ tauto | ]. split; [ tauto | ].
    intros Hoptions. unfold create_menu_box. fold left_blanks. fold right_blanks.
    assert (Hw : 2 <= width) by lia.
    apply Forall_app. split; [ | apply Forall_app; split;
      [ | apply Forall_app; split; [ | apply Forall_app; split ] ] ].
    + constructor; [ | constructor ].
      rewrite (display_length_edge top_left top_right width) by in_list. lia.
    + constructor; [ | constructor ].
      rewrite !display_length_app.
      rewrite !display_length_narrow by (apply frame_chars; in_list).
      rewrite !display_length_times by (apply frame_chars; in_list).
      subst right_blanks. lia.
    + constructor; [ | constructor ].
      rewrite (display_length_edge tee_left tee_right width) by in_list. lia.
    + apply Forall_forall. intros row Hrow.
      apply list_elem_of_In, in_map_iff in Hrow as (option & <- & Hin).
      apply list_elem_of_In in Hin.
      rewrite Forall_forall in Hoptions. specialize (Hoptions option Hin).
      pose proof (display_length_nonneg option) as Ho.
      change [pipe; space; space] with ([pipe] ++ [space] ++ [space]).
      rewrite !display_length_app.
      rewrite !display_length_narrow by (apply frame_chars; in_list).
      rewrite display_length_times by (apply frame_chars; in_list). lia.
    + constructor; [ | constructor ].
      rewrite (display_length_edge bottom_left bottom_right width) by in_list. lia.
Qed.

End Display.

(** A box with no width given around the lines "Hi", an ideograph with a
    variation selector and "!", and an empty line: five rows of 7 columns. *)
Lemma box_rows_have_the_width_witness :
  narrow_frame ideograph /\
  length (create_box ideograph [[72; 105]; [20013; 65039; 33]; []] None) = 5%nat /\
  Forall (fun row => get_display_length ideograph row = 7)
         (create_box ideograph [[72; 105]; [20013; 65039; 33]; []] None).
Proof.
  assert (Hframe : narrow_frame ideograph) by (repeat constructor).
  split; [ exact Hframe | ].
  destruct (box_rows_have_the_width ideograph Hframe
              [[72; 105]; [20013; 65039; 33]; []] None)
    as (_ & Hrows & Hwidth & _).
  split.
  - apply Hrows. discriminate.
  - exact (Hwidth eq_refl _ _ eq_refl).
Defined.

(** A menu of 12 columns with the title "Menu" and the options "Go", an
    ideograph: six rows of 12 columns, three blanks on either side of the
    title. *)
Lemma menu_title_is_centred_witness :
  narrow_frame ideograph /\
  get_display_length ideograph [77; 101; 110; 117] <= 12 - 2 /\
  title_padding ideograph [77; 101; 110; 117] 12 = 3 /\
  Forall (fun row => get_display_length ideograph row = 12)
         (create_menu_box ideograph [77; 101; 110; 117] [[71; 111]; [20013]] 12).
Proof.
  assert (Hframe : narrow_frame ideograph) by (repeat constructor).
  assert (Hfit : get_display_length ideograph [77; 101; 110; 117] <= 12 - 2)
    by (vm_compute; discriminate).
  split; [ exact Hframe | ]. split; [ exact Hfit | ].
  split; [ reflexivity | ].
  destruct (menu_title_is_centred ideograph Hframe
              [77; 101; 110; 117] [[71; 111]; [20013]] 12)
    as (_ & Hcentred).
  destruct (Hcentred Hfit) as (_ & _ & Hrows).
  apply Hrows. repeat constructor; vm_compute; discriminate.
Defined.

End BoxTheorems.

(* --------------------------------------------------------------------- *)
(** ** [Game3D]: battles, treasures, interaction                          *)
(* --------------------------------------------------------------------- *)
Module SessionFacts.
Import Reals.
Import Py Maze Engine Functions Session SessionTerms.
Import PyFacts StatsTheorems.
Local Open Scope string_scope.
Local Open Scope Z_scope.

(** [random.randint] of a range that is not empty returns. *)
Lemma randint_returns (a b : Z) (e : entropy) :
  a <= b ->
  randint a b e = Ok (a + hd 0 e mod (b + 1 - a), tl e).
Proof.
  intros H. unfold randint, randrange, randbelow, bind, draw, ret.
  rewrite Z.eqb_refl. destruct (Z.ltb_spec 0 (b + 1 - a)); [ | lia ].
  destruct e; reflexivity.
Qed.



Ltac fields :=
  unfold add_message, set_player, set_maze_map, set_stats, set_running in *;
  cbn [add_message set_player set_maze_map set_stats set_running set_hp
       set_experience set_monsters set_treasures
       game weapon stats running messages player maze_map renderer
       monsters treasures hp max_hp experience level position
       rotation_x rotation_y speed velocity_y is_jumping
       width height base_level wall_height ceiling_height maze terrain rooms
       fst snd] in *.

(** [Game3D.start_battle], field by field. *)
Lemma start_battle_fields (self : Session) (monster : Monster)
    (position : Z * Z) (e : entropy) :
  let name := name_of (monster_name monster) in
  let chance := calculate_win_chance name (weapon self) in
  let roll := 1 + hd 0 e mod 100 in
  let gain := 15 + hd 0 (tl e) mod 21 in
  let hp_gain := if chance =? 25 then 2 else 1 in
  let p := player (game self) in
  let won_p :=
    gain_experience
      (set_hp (set_experience p (experience p + gain))
         (Z.min (max_hp p) (hp p + hp_gain))) 0 in
  exists self' ending,
    start_battle self monster position e
    = Ok (self', ending, if roll <=? chance then tl (tl e) else tl e) /\
    weapon self' = weapon self /\
    renderer (game self') = renderer (game self) /\
    if roll <=? chance then
      maze_map (game self')
      = set_monsters (maze_map (game self))
          (<[position := mkMonster (monster_name monster) true (health monster)]>
             (monsters (maze_map (game self)))) /\
      player (game self') = won_p.2 /\
      (stats self', ending)
      = update_stats (stats self) name (weapon self) true hp_gain chance /\
      running self' = running self /\
      messages self'
      = (messages self ++
         [(battle_cry name, 3000);
          (if chance =? 25 then (heroic_victory 2 (gain * 2), 4000)
           else (victory 1 gain, 3000))] ++
         (if won_p.1 then [(level_up (level won_p.2), 4000)] else []))%list
    else
      maze_map (game self') = maze_map (game self) /\
      player (game self') = set_hp p (hp p - 2) /\
      if hp p - 2 <=? 0 then
        stats self' = stats self /\ ending = Returned /\
        running self' = false /\
        messages self'
        = (messages self ++
           [(battle_cry name, 3000); (defeat 2, 3000); (game_over, 5000)])%list
      else
        (stats self', ending)
        = update_stats (stats self) name (weapon self) false (- 2) chance /\
        running self' = running self /\
        messages self'
        = (messages self ++ [(battle_cry name, 3000); (defeat 2, 3000)])%list.
Proof.
  intros name chance roll gain hp_gain p won_p.
  unfold start_battle, bind.
  rewrite (randint_returns 1 100) by lia.
  change (1 + hd 0 e mod (100 + 1 - 1)) with roll.
  fold name. cbn [add_message weapon]. fold chance.
  destruct (roll <=? chance) eqn:Hroll.
  - rewrite (randint_returns 15 35) by lia.
    change (15 + hd 0 (tl e) mod (35 + 1 - 15)) with gain.
    unfold ret, check_level. fold hp_gain. fold p.
    destruct self as [[r m pl] w s run msgs].
    cbn [game player] in p. subst p. fields. fold won_p.
    destruct (update_stats s name w true hp_gain chance) as [s' ending] eqn:Hu.
    exists (mkSession (mkGame3D r
              (set_monsters m
                 (<[position := mkMonster (monster_name monster) true
                                  (health monster)]> (monsters m)))
              won_p.2) w s' run
              (msgs ++
               [(battle_cry name, 3000);
                (if chance =? 25 then (heroic_victory 2 (gain * 2), 4000)
                 else (victory 1 gain, 3000))] ++
               (if won_p.1 then [(level_up (level won_p.2), 4000)] else []))%list).
    exists ending. fields. split; [ | repeat split; reflexivity ].
    subst hp_gain.
    destruct (chance =? 25), (won_p.1); fields; rewrite Hu; fields;
      rewrite <- ?app_assoc; reflexivity.
  - unfold ret. fold p.
    destruct self as [[r m pl] w s run msgs].
    cbn [game player] in p. subst p. fields.
    destruct (hp pl - 2 <=? 0) eqn:Hhp.
    + eexists. exists Returned. split; [ reflexivity | ]. fields.
      rewrite <- ?app_assoc. repeat split; reflexivity.
    + destruct (update_stats s name w false _ chance) as [s' ending] eqn:Hu.
      eexists. exists ending. split; [ reflexivity | ]. fields.
      rewrite <- ?app_assoc. repeat split; reflexivity.
Qed.

(** [Game3D.open_treasure], field by field. *)
Lemma open_treasure_fields (self : Session) (treasure : Treasure)
    (position : Z * Z) (e : entropy) :
  let p := player (game self) in
  let healed :=
    match contents treasure with
    | loot_health => set_hp p (Z.min (max_hp p) (hp p + (1 + hd 0 e mod 2)))
    | mega_health => set_hp p (Z.min (max_hp p) (hp p + (2 + hd 0 e mod 3)))
    | _ => p
    end in
  let found := 30 + hd 0 e mod 46 in
  let e1 := match contents treasure with weapon_upgrade => e | _ => tl e end in
  let gain := 5 + hd 0 e1 mod 11 in
  let opened_p :=
    gain_experience (set_experience healed (experience p + gain)) 0 in
  exists self',
    open_treasure self treasure position e = Ok (self', tl e1) /\
    weapon self' = weapon self /\
    renderer (game self') = renderer (game self) /\
    running self' = running self /\
    maze_map (game self')
    = set_treasures (maze_map (game self))
        (<[position := mkTreasure true (contents treasure)]>
           (treasures (maze_map (game self)))) /\
    player (game self') = opened_p.2 /\
    stats self'
    = match contents treasure with
      | points => add_points (stats self) found
      | _ => stats self
      end /\
    messages self'
    = (messages self ++
       [match contents treasure with
        | loot_health => (potion (1 + hd 0 e mod 2), 2500)
        | mega_health => (great_potion (2 + hd 0 e mod 3), 3000)
        | weapon_upgrade => (upgrade, 2500)
        | points => (coins found, 2500)
        end] ++
       (if opened_p.1 then [(level_up (level opened_p.2), 4000)] else []))%list.
Proof.
  intros p healed found e1 gain opened_p.
  destruct self as [[r m pl] w s run msgs].
  cbn [game player] in p. subst p.
  unfold open_treasure, bind, check_level. fields.
  destruct (contents treasure) eqn:Hc; subst healed e1; cbv beta iota in *.
  - rewrite (randint_returns 1 2) by lia. unfold ret. fields.
    rewrite (randint_returns 5 15) by lia.
    change (5 + hd 0 (tl e) mod (15 + 1 - 5)) with gain.
    change (1 + hd 0 e mod (2 + 1 - 1)) with (1 + hd 0 e mod 2).
    fields. fold opened_p.
    destruct (opened_p.1); eexists; (split; [ reflexivity | ]); fields;
      rewrite <- ?app_assoc; repeat split; reflexivity.
  - rewrite (randint_returns 2 4) by lia. unfold ret. fields.
    rewrite (randint_returns 5 15) by lia.
    change (5 + hd 0 (tl e) mod (15 + 1 - 5)) with gain.
    change (2 + hd 0 e mod (4 + 1 - 2)) with (2 + hd 0 e mod 3).
    fields. fold opened_p.
    destruct (opened_p.1); eexists; (split; [ reflexivity | ]); fields;
      rewrite <- ?app_assoc; repeat split; reflexivity.
  - unfold ret. fields.
    rewrite (randint_returns 5 15) by lia.
    change (5 + hd 0 e mod (15 + 1 - 5)) with gain.
    fields. fold opened_p.
    destruct (opened_p.1); eexists; (split; [ reflexivity | ]); fields;
      rewrite <- ?app_assoc; repeat split; reflexivity.
  - rewrite (randint_returns 30 75) by lia. unfold ret. fields.
    rewrite (randint_returns 5 15) by lia.
    change (5 + hd 0 (tl e) mod (15 + 1 - 5)) with gain.
    change (30 + hd 0 e mod (75 + 1 - 30)) with found.
    fields. fold opened_p.
    destruct (opened_p.1); eexists; (split; [ reflexivity | ]); fields;
      rewrite <- ?app_assoc; repeat split; reflexivity.
Qed.

(** What [gain_experience(0)] makes of a player whose experience grew. *)
Lemma check_level_inv (p : Player) :
  hp p <= max_hp p -> 5 <= max_hp p <= level p + 4 ->
  level p <= experience p / 100 + 1 -> 0 <= experience p ->
  let q := (gain_experience p 0).2 in
  hp q <= max_hp q /\ 5 <= max_hp q <= level q + 4 /\
  level q = experience q / 100 + 1 /\ 0 <= experience q /\
  hp p <= hp q /\ experience q = experience p.
Proof.
  intros Hhp Hmax Hlevel Hexp. unfold gain_experience.
  rewrite Z.add_0_r.
  destruct (Z.ltb_spec (level p) (experience p / 100 + 1));
    cbn [snd hp max_hp level experience]; lia.
Qed.

Lemma coin_total_app (l l' : list (message * Z)) :
  coin_total (l ++ l') = coin_total l + coin_total l'.
Proof.
  unfold coin_total. induction l as [|msg l IH]; cbn [app foldr]; [ lia | ].
  rewrite IH. lia.
Qed.

Lemma update_stats_add_points (s : Stats) (monster weapon : string)
    (won : bool) (hp_change win_chance n : Z) :
  update_stats (add_points s n) monster weapon won hp_change win_chance
  = (add_points (update_stats s monster weapon won hp_change win_chance).1 n,
     (update_stats s monster weapon won hp_change win_chance).2).
Proof.
  unfold update_stats, add_points. cbn [szornyek].
  destruct (szornyek s !! monster) as [a|]; [ | reflexivity ].
  cbn [set_szornyek fegyverek].
  destruct (fegyverek s !! weapon) as [b|]; [ | reflexivity ].
  unfold record_hp, record_outcome, set_fegyverek, set_szornyek.
  destruct won; [ destruct (win_chance =? 25) | ]; destruct (0 <? hp_change);
    cbn [fst snd szornyek fegyverek gyozelmek veresegek heroikus_gyozelmek
         ossz_hp_nyert ossz_hp_veszitett legjobb_sorozat jelenlegi_sorozat
         pontok];
    f_equal; f_equal; lia.
Qed.

Lemma update_stats_counts (s : Stats) (monster weapon : string)
    (won : bool) (hp_change win_chance : Z) :
  (update_stats s monster weapon won hp_change win_chance).2 = Returned ->
  let s' := (update_stats s monster weapon won hp_change win_chance).1 in
  gyozelmek s' = gyozelmek s + (if won then 1 else 0) /\
  veresegek s' = veresegek s + (if won then 0 else 1) /\
  pontok s'
  = pontok s + (if won then if win_chance =? 25 then 50 else 25 else - 10).
Proof.
  unfold update_stats.
  destruct (szornyek s !! monster) as [a|]; [ | discriminate ].
  cbn [set_szornyek fegyverek].
  destruct (fegyverek s !! weapon) as [b|]; [ | discriminate ].
  intros _. unfold record_hp, record_outcome, set_fegyverek, set_szornyek.
  destruct won; [ destruct (win_chance =? 25) | ]; destruct (0 <? hp_change);
    cbn [fst snd szornyek fegyverek gyozelmek veresegek heroikus_gyozelmek
         ossz_hp_nyert ossz_hp_veszitett legjobb_sorozat jelenlegi_sorozat
         pontok];
    lia.
Qed.

Lemma known_name (kind : monster_kind) :
  is_Some (szornyek create_stats !! name_of kind).
Proof. destruct kind; vm_compute; eauto. Qed.

(** A monster that falls is one more in the count of the defeated. *)
Lemma defeated_one_more (m : MazeMap) (c : Z * Z) (monster fallen : Monster) :
  monsters m !! c = Some monster -> defeated monster = false ->
  defeated fallen = true ->
  size (defeated_monsters (set_monsters m (<[c := fallen]> (monsters m))))
  = S (size (defeated_monsters m)).
Proof.
  intros Hc Halive Hfallen. unfold defeated_monsters, set_monsters.
  cbn [monsters].
  rewrite map_filter_insert_True by exact Hfallen.
  apply map_size_insert_None.
  apply map_lookup_filter_None. right. intros x Hx.
  rewrite Hc in Hx. inversion Hx; subst x. cbn [snd]. rewrite Halive.
  discriminate.
Qed.

Ltac no_coins :=
  repeat match goal with
         | |- context [if ?b then _ else _] => destruct b
         end;
  cbn [coin_total foldr coins_of fst app]; lia.

(** A battle with a monster that the map holds alive keeps the session
    sound, and returns. *)
Lemma start_battle_inv (self : Session) (monster : Monster)
    (position : Z * Z) (e : entropy) :
  session_inv self ->
  monsters (maze_map (game self)) !! position = Some monster ->
  defeated monster = false ->
  exists self' e',
    start_battle self monster position e = Ok (self', Returned, e') /\
    session_inv self'.
Proof.
  intros (Hhp & Hmax & Hlevel & Hexp & Hrun & Hweapon & Hstats & Hcount)
         Hat Halive.
  pose proof (start_battle_fields self monster position e) as Hf.
  cbv zeta in Hf. destruct Hf as (self' & ending & Heq & Hw & _ & Hcase).
  set (name := name_of (monster_name monster)) in *.
  set (chance := calculate_win_chance name (weapon self)) in *.
  set (gain := 15 + hd 0 (tl e) mod 21) in *.
  set (hp_gain := if chance =? 25 then 2 else 1) in *.
  set (c := coin_total (messages self)) in *.
  assert (Hgain : 15 <= gain <= 35).
  { subst gain. pose proof (Z.mod_pos_bound (hd 0 (tl e)) 21). lia. }
  assert (Hhp_gain : 1 <= hp_gain <= 2).
  { subst hp_gain. destruct (chance =? 25); lia. }
  assert (Hbook : forall won hp_change,
            (update_stats (stats self) name (weapon self) won hp_change
               chance).2 = Returned /\
            stats_inv
              (add_points
                 (update_stats (stats self) name (weapon self) won hp_change
                    chance).1 (- c))).
  { intros won hp_change.
    destruct (update_stats_inv (add_points (stats self) (- c))
                (mkBattle name (weapon self) won hp_change chance) Hstats)
      as (Hret & Hinv & _).
    { split; [ apply known_name | exact Hweapon ]. }
    unfold update_with in Hinv.
    cbn [battle_monster battle_weapon battle_won battle_hp_change
         battle_win_chance] in Hret, Hinv.
    rewrite update_stats_add_points in Hret, Hinv.
    cbn [fst snd] in Hret, Hinv. split; assumption. }
  destruct (_ <=? chance) eqn:Hroll.
  - destruct Hcase as (Hm & Hp & Hu & Hrun' & Hmsgs).
    destruct (Hbook true hp_gain) as [Hret Hinv].
    pose proof (update_stats_counts _ _ _ _ _ _ Hret) as (Hwins & _).
    rewrite <- Hu in Hret, Hinv, Hwins. cbn [fst snd] in Hret, Hinv, Hwins.
    subst ending. exists self'. eexists. split; [ exact Heq | ].
    set (p1 := set_hp _ _) in Hp.
    destruct (check_level_inv p1) as (Q1 & Q2 & Q3 & Q4 & Q5 & Q6).
    { subst p1. unfold set_hp, set_experience. cbn [hp max_hp]. lia. }
    { subst p1. unfold set_hp, set_experience. cbn [max_hp level]. lia. }
    { subst p1. unfold set_hp, set_experience. cbn [level experience].
      rewrite Hlevel. div_lia. }
    { subst p1. unfold set_hp, set_experience. cbn [experience]. lia. }
    unfold session_inv. rewrite Hp, Hw, Hrun', Hm.
    split; [ exact Q1 | ]. split; [ exact Q2 | ]. split; [ exact Q3 | ].
    split; [ exact Q4 | ].
    split.
    { intros Hr. specialize (Hrun Hr).
      assert (0 < hp p1); [ | lia ].
      subst p1. unfold set_hp, set_experience. cbn [hp max_hp]. lia. }
    split; [ exact Hweapon | ].
    split.
    { replace (coin_total (messages self')) with c; [ exact Hinv | ].
      rewrite Hmsgs, !coin_total_app. fold c. no_coins. }
    rewrite (defeated_one_more _ _ monster) by (assumption || reflexivity).
    rewrite Hwins. lia.
  - destruct Hcase as (Hm & Hp & Hcase).
    destruct (_ <=? 0) eqn:Hdead.
    + destruct Hcase as (Hs & -> & Hrun' & Hmsgs).
      exists self'. eexists. split; [ exact Heq | ].
      unfold session_inv. rewrite Hp, Hw, Hrun', Hm, Hs.
      unfold set_hp. cbn [hp max_hp level experience].
      split; [ lia | ]. split; [ exact Hmax | ]. split; [ exact Hlevel | ].
      split; [ exact Hexp | ]. split; [ discriminate | ].
      split; [ exact Hweapon | ].
      split; [ | exact Hcount ].
      replace (coin_total (messages self')) with c; [ exact Hstats | ].
      rewrite Hmsgs, !coin_total_app. fold c. no_coins.
    + destruct Hcase as (Hu & Hrun' & Hmsgs).
      destruct (Hbook false (- 2)) as [Hret Hinv].
      pose proof (update_stats_counts _ _ _ _ _ _ Hret) as (Hwins & _).
      rewrite <- Hu in Hret, Hinv, Hwins. cbn [fst snd] in Hret, Hinv, Hwins.
      subst ending. exists self'. eexists. split; [ exact Heq | ].
      apply Z.leb_gt in Hdead.
      unfold session_inv. rewrite Hp, Hw, Hrun', Hm.
      unfold set_hp. cbn [hp max_hp level experience].
      split; [ lia | ]. split; [ exact Hmax | ]. split; [ exact Hlevel | ].
      split; [ exact Hexp | ]. split; [ intros _; lia | ].
      split; [ exact Hweapon | ].
      split; [ | rewrite Hwins; lia ].
      replace (coin_total (messages self')) with c; [ exact Hinv | ].
      rewrite Hmsgs, !coin_total_app. fold c. no_coins.
Qed.


Lemma add_points_twice (s : Stats) (a b : Z) :
  add_points (add_points s a) b = add_points s (a + b).
Proof.
  unfold add_points.
  cbn [szornyek fegyverek gyozelmek veresegek heroikus_gyozelmek
       ossz_hp_nyert ossz_hp_veszitett legjobb_sorozat jelenlegi_sorozat
       pontok].
  f_equal. lia.
Qed.

(** Opening a treasure keeps the session sound, and returns. *)
Lemma open_treasure_inv (self : Session) (treasure : Treasure)
    (position : Z * Z) (e : entropy) :
  session_inv self ->
  exists self' e',
    open_treasure self treasure position e = Ok (self', e') /\
    session_inv self'.
Proof.
  intros (Hhp & Hmax & Hlevel & Hexp & Hrun & Hweapon & Hstats & Hcount).
  pose proof (open_treasure_fields self treasure position e) as Hf.
  cbv zeta in Hf.
  destruct Hf as (self' & Heq & Hw & _ & Hrun' & Hm & Hp & Hs & Hmsgs).
  exists self'. eexists. split; [ exact Heq | ].
  set (c := coin_total (messages self)) in *.
  set (e1 := match contents treasure with
             | weapon_upgrade => e
             | _ => tl e
             end) in *.
  set (gain := 5 + hd 0 e1 mod 11) in *.
  assert (Hgain : 5 <= gain <= 15).
  { subst gain. pose proof (Z.mod_pos_bound (hd 0 e1) 11). lia. }
  pose proof (Z.mod_pos_bound (hd 0 e) 2) as H2.
  pose proof (Z.mod_pos_bound (hd 0 e) 3) as H3.
  pose proof (Z.mod_pos_bound (hd 0 e) 46) as H46.
  set (healed := match contents treasure with
                 | loot_health => set_hp _ _
                 | mega_health => set_hp _ _
                 | _ => player (game self)
                 end) in *.
  assert (Hhealed : hp healed <= max_hp healed /\ max_hp healed = max_hp (player (game self)) /\
                    level healed = level (player (game self)) /\
                    experience healed = experience (player (game self)) /\
                    hp (player (game self)) <= hp healed).
  { subst healed. destruct (contents treasure); unfold set_hp;
      cbn [hp max_hp level experience]; lia. }
  destruct Hhealed as (K1 & K2 & K3 & K4 & K5).
  set (p1 := set_experience _ _) in Hp.
  destruct (check_level_inv p1) as (Q1 & Q2 & Q3 & Q4 & Q5 & Q6).
  { subst p1. unfold set_experience. cbn [hp max_hp]. lia. }
  { subst p1. unfold set_experience. cbn [max_hp level]. lia. }
  { subst p1. unfold set_experience. cbn [level experience].
    rewrite K3, Hlevel. div_lia. }
  { subst p1. unfold set_experience. cbn [experience]. lia. }
  unfold session_inv. rewrite Hp, Hw, Hrun', Hm.
  split; [ exact Q1 | ]. split; [ exact Q2 | ]. split; [ exact Q3 | ].
  split; [ exact Q4 | ].
  split.
  { intros Hr. specialize (Hrun Hr).
    assert (hp p1 = hp healed) by (subst p1; reflexivity). lia. }
  split; [ exact Hweapon | ].
  split.
  - rewrite Hs, Hmsgs, !coin_total_app. fold c.
    destruct (contents treasure).
    + replace (c + _) with c by no_coins. exact Hstats.
    + replace (c + _) with c by no_coins. exact Hstats.
    + replace (c + _) with c by no_coins. exact Hstats.
    + rewrite add_points_twice.
      match goal with
      | |- stats_inv (add_points _ ?k) => replace k with (- c) by no_coins
      end.
      exact Hstats.
  - assert (Hd : defeated_monsters
                   (set_treasures (maze_map (game self))
                      (<[position := mkTreasure true (contents treasure)]>
                         (treasures (maze_map (game self)))))
                 = defeated_monsters (maze_map (game self))) by reflexivity.
    rewrite Hd, Hcount, Hs. destruct (contents treasure); reflexivity.
Qed.

(** What [look_at] finds is what the map holds. *)
Lemma look_at_monster (m : MazeMap) (c : Z * Z) (monster : Monster) :
  look_at m c = found_monster monster <->
  monsters m !! c = Some monster /\ defeated monster = false.
Proof.
  unfold look_at.
  destruct (monsters m !! c) as [mo|] eqn:Hm.
  - destruct (defeated mo) eqn:Hd; cbn [negb].
    + split.
      * destruct (treasures m !! c) as [t|]; [ destruct (negb _) | ];
          discriminate.
      * intros [H1 H2]. inversion H1; subst. congruence.
    + split.
      * intros H. inversion H; subst. auto.
      * intros [H1 H2]. inversion H1; subst. reflexivity.
  - split.
    + destruct (treasures m !! c) as [t|]; [ destruct (negb _) | ];
        discriminate.
    + intros [H1 _]. discriminate H1.
Qed.

Lemma look_at_treasure (m : MazeMap) (c : Z * Z) (treasure : Treasure) :
  look_at m c = found_treasure treasure ->
  treasures m !! c = Some treasure /\ Maze.opened treasure = false.
Proof.
  unfold look_at. intros H.
  assert (Ht : match treasures m !! c with
               | Some t => if negb (Maze.opened t) then found_treasure t
                           else found_nothing
               | None => found_nothing
               end = found_treasure treasure).
  { destruct (monsters m !! c) as [mo|]; [ | exact H ].
    destruct (negb (defeated mo)); [ discriminate H | exact H ]. }
  destruct (treasures m !! c) as [t|]; [ | discriminate Ht ].
  destruct (Maze.opened t) eqn:Ho; cbn [negb] in Ht; [ discriminate Ht | ].
  inversion Ht; subst. auto.
Qed.

(** [scan] looks at the offsets in reach only. *)
Lemma scan_reach (self : Session) (x z : Z) (todo : list (Z * Z)) (e : entropy) :
  scan self x z todo e
  = scan self x z (List.filter (fun d => negb (out_of_reach d.1 d.2)) todo) e.
Proof.
  induction todo as [|[dx dz] todo IH]; [ reflexivity | ].
  cbn [scan List.filter fst snd].
  destruct (out_of_reach dx dz) eqn:Hout; cbn [negb]; [ exact IH | ].
  cbn [scan]. rewrite Hout.
  destruct (look_at _ _); [ reflexivity | reflexivity | exact IH ].
Qed.

Lemma scan_inv (self : Session) (x z : Z) (todo : list (Z * Z)) (e : entropy) :
  session_inv self ->
  exists self' e',
    scan self x z todo e = Ok (self', Returned, e') /\ session_inv self'.
Proof.
  intros Hinv. induction todo as [|[dx dz] todo IH].
  - cbn [scan]. unfold ret. eexists. eexists. split; [ reflexivity | ].
    destruct Hinv as (Hhp & Hmax & Hlevel & Hexp & Hrun & Hweapon & Hstats & Hcount).
    unfold session_inv, add_message.
    cbn [game weapon stats running messages].
    repeat (split; [ assumption | ]). split; [ | assumption ].
    rewrite coin_total_app.
    replace (coin_total (messages self) + _) with (coin_total (messages self))
      by no_coins.
    exact Hstats.
  - cbn [scan]. destruct (out_of_reach dx dz); [ exact IH | ].
    destruct (look_at _ _) as [monster|treasure|] eqn:Hlook; [ | | exact IH ].
    + apply look_at_monster in Hlook as [Hat Halive].
      apply start_battle_inv; assumption.
    + destruct (open_treasure_inv self treasure (x + dx, z + dz) e Hinv)
        as (self' & e' & Heq & Hinv').
      exists self', e'. split; [ | exact Hinv' ].
      unfold bind. rewrite Heq. reflexivity.
Qed.

Lemma place_inv (self : Session) (x z : R) :
  session_inv self -> session_inv (place self x z).
Proof. intros H. exact H. Qed.

Lemma new_game_inv (self : Session) : new_game self -> session_inv self.
Proof.
  intros (Hw & Hs & Hr & Hm & Hhp & Hmax & Hexp & Hlevel & Halive).
  unfold session_inv. rewrite Hw, Hs, Hm, Hhp, Hmax, Hexp, Hlevel.
  split; [ lia | ]. split; [ lia | ]. split; [ reflexivity | ].
  split; [ lia | ]. split; [ lia | ].
  split; [ vm_compute; eauto | ].
  split.
  - replace (add_points create_stats (- coin_total [])) with create_stats
      by reflexivity.
    exact create_stats_inv.
  - unfold defeated_monsters.
    replace (filter _ (monsters (maze_map (game self)))) with (∅ : gmap (Z * Z) Monster).
    + rewrite map_size_empty. reflexivity.
    + symmetry. apply map_empty. intros c.
      apply map_lookup_filter_None. right. intros monster Hc Hd.
      cbn [snd] in Hd. rewrite (Halive c monster Hc) in Hd. discriminate Hd.
Qed.

Lemma play_inv (places : list (R * R)) :
  forall (self : Session) (e : entropy),
  session_inv self ->
  exists self' e',
    play self places e = Ok (self', Returned, e') /\ session_inv self'.
Proof.
  induction places as [|[x z] places IH]; intros self e Hinv.
  - exists self, e. split; [ reflexivity | exact Hinv ].
  - cbn [play]. unfold interact.
    destruct (scan_inv (place self x z)
                (round (vx (position (player (game (place self x z))))))
                (round (vz (position (player (game (place self x z))))))
                offsets e (place_inv self x z Hinv))
      as (self1 & e1 & Heq & Hinv1).
    destruct (IH self1 e1 Hinv1) as (self' & e' & Heq' & Hinv').
    exists self', e'. split; [ | exact Hinv' ].
    unfold bind. rewrite Heq. cbn [fst snd]. exact Heq'.
Qed.

End SessionFacts.

Module SessionTheorems.
Import Reals.
Import Py Maze Engine Functions Session SessionTerms.
Import PyFacts SessionFacts.
Local Open Scope string_scope.
Local Open Scope Z_scope.




(** [open_treasure] returns.  The treasure of the map is opened, so that
    [interact] finds no treasure to open at its cell again, and nothing
    else on the map changes; the experience grows by 5 to 15; the life
    points of a player who had no more than the maximum do not fall and
    stay within the maximum; the weapon is left as it is, also by a weapon
    upgrade; and the statistics are left as they are, but for a treasure
    of points, which adds 30 to 75 to the points and announces them. *)
Theorem treasure_is_opened_once (self : Session) (treasure : Treasure)
    (position : Z * Z) (e : entropy) :
  hp (player (game self)) <= max_hp (player (game self)) ->
  let p := player (game self) in
  exists gain self' e',
    open_treasure self treasure position e = Ok (self', e') /\
    5 <= gain <= 15 /\
    let p' := player (game self') in
    treasures (maze_map (game self')) !! position
    = Some (mkTreasure true (contents treasure)) /\
    (forall t, look_at (maze_map (game self')) position <> found_treasure t) /\
    (forall c, c <> position ->
       look_at (maze_map (game self')) c = look_at (maze_map (game self)) c) /\
    monsters (maze_map (game self')) = monsters (maze_map (game self)) /\
    experience p' = experience p + gain /\
    hp p <= hp p' <= max_hp p' /\
    weapon self' = weapon self /\ running self' = running self /\
    match contents treasure with
    | points =>
        exists n, 30 <= n <= 75 /\ stats self' = add_points (stats self) n /\
                  (coins n, 2500) ∈ messages self'
    | _ => stats self' = stats self
    end.
Proof.
  intros Hhp p. fold p in Hhp.
  pose proof (open_treasure_fields self treasure position e) as Hf.
  cbv zeta in Hf.
  destruct Hf as (self' & Heq & Hw & _ & Hrun & Hm & Hp & Hs & Hmsgs).
  fold p in Hp.
  set (e1 := match contents treasure with
             | weapon_upgrade => e
             | _ => tl e
             end) in *.
  set (gain := 5 + hd 0 e1 mod 11) in *.
  pose proof (Z.mod_pos_bound (hd 0 e1) 11) as H11.
  pose proof (Z.mod_pos_bound (hd 0 e) 2) as H2.
  pose proof (Z.mod_pos_bound (hd 0 e) 3) as H3.
  pose proof (Z.mod_pos_bound (hd 0 e) 46) as H46.
  exists gain, self', (tl e1). split; [ exact Heq | ]. split; [ lia | ].
  cbv zeta. rewrite Hm. unfold set_treasures. cbn [treasures monsters].
  split; [ rewrite lookup_insert, decide_True by reflexivity; reflexivity | ].
  split.
  { intros t Ht. apply look_at_treasure in Ht as [Ht Hclosed].
    cbn [treasures] in Ht.
    rewrite lookup_insert, decide_True in Ht by reflexivity.
    inversion Ht; subst t. discriminate Hclosed. }
  split.
  { intros c Hc. unfold look_at. cbn [monsters treasures].
    rewrite lookup_insert_ne by congruence. reflexivity. }
  split; [ reflexivity | ].
  set (healed := match contents treasure with
                 | loot_health => set_hp _ _
                 | mega_health => set_hp _ _
                 | _ => p
                 end) in *.
  assert (Hhealed : hp p <= hp healed <= max_hp healed /\
                    max_hp healed = max_hp p).
  { subst healed. destruct (contents treasure); unfold set_hp;
      cbn [hp max_hp]; lia. }
  rewrite Hp. unfold gain_experience, set_experience.
  cbn [level experience max_hp hp]. rewrite Z.add_0_r.
  split; [ destruct (_ <? _); reflexivity | ].
  split; [ destruct (_ <? _); cbn [snd hp max_hp]; lia | ].
  split; [ exact Hw | ]. split; [ exact Hrun | ].
  destruct (contents treasure); try exact Hs.
  exists (30 + hd 0 e mod 46). split; [ lia | ]. split; [ exact Hs | ].
  rewrite Hmsgs. apply elem_of_app. right. apply elem_of_app. left.
  apply elem_of_cons. left. reflexivity.
Qed.

(** The new game on the small map: its treasure of points is opened. *)
Lemma treasure_is_opened_once_witness :
  hp (player (game small_game)) <= max_hp (player (game small_game)) /\
  exists self' e',
    open_treasure small_game (mkTreasure false points) (3, 3) [] = Ok (self', e') /\
    treasures (maze_map (game self')) !! (3, 3) = Some (mkTreasure true points).
Proof.
  assert (H : hp (player (game small_game)) <= max_hp (player (game small_game)))
    by (cbn; lia).
  split; [ exact H | ].
  destruct (treasure_is_opened_once small_game (mkTreasure false points) (3, 3)
              [] H)
    as (gain & self' & e' & Heq & _ & Hopened & _).
  exists self', e'. split; [ exact Heq | exact Hopened ].
Defined.

Lemma scan_skip (self : Session) (x z : Z) (before rest : list (Z * Z))
    (e : entropy) :
  Forall (fun d => look_at (maze_map (game self)) (x + d.1, z + d.2)
                   = found_nothing) before ->
  scan self x z (before ++ rest) e = scan self x z rest e.
Proof.
  induction 1 as [|[dx dz] before Hd _ IH]; [ reflexivity | ].
  cbn [app scan]. cbn [fst snd] in Hd. rewrite Hd.
  destruct (out_of_reach dx dz); exact IH.
Qed.

Lemma reach_in_reach (d : Z * Z) : d ∈ reach -> out_of_reach d.1 d.2 = false.
Proof.
  unfold reach. intros H. apply list_elem_of_In, filter_In in H as [_ H].
  apply negb_true_iff in H. exact H.
Qed.

(** [interact] skips the four corners of the 5 x 5 offsets only, looks at
    the other 21 cells around the rounded position of the player in the
    order of its loops, x outside and z inside, from -2 up, and takes the
    first cell that holds a monster alive or a treasure closed, which
    need not be the nearest: it fights that monster or opens that
    treasure, and only with nothing in reach does it leave the message
    that nothing is here and the game as it was. *)
Theorem interact_takes_the_first_in_reach (self : Session) (e : entropy) :
  let m := maze_map (game self) in
  let nothing d := look_at m (cell_at self d) = found_nothing in
  (forall dx dz, -2 <= dx <= 2 -> -2 <= dz <= 2 ->
     (out_of_reach dx dz = true <-> Z.abs dx = 2 /\ Z.abs dz = 2)) /\
  (forall dx dz, (dx, dz) ∈ reach <->
     -2 <= dx <= 2 /\ -2 <= dz <= 2 /\ ~ (Z.abs dx = 2 /\ Z.abs dz = 2)) /\
  (Forall nothing reach ->
   interact self e = Ok (add_message self nothing_here 1500, Returned, e)) /\
  (forall before d after, reach = (before ++ d :: after)%list ->
     Forall nothing before ->
     match look_at m (cell_at self d) with
     | found_monster monster =>
         interact self e = start_battle self monster (cell_at self d) e
     | found_treasure treasure =>
         interact self e
         = bind (open_treasure self treasure (cell_at self d))
             (fun self' => ret (self', Returned)) e
     | found_nothing => True
     end).
Proof.
  intros m nothing.
  assert (Hcorner : forall dx dz, -2 <= dx <= 2 -> -2 <= dz <= 2 ->
            (out_of_reach dx dz = true <-> Z.abs dx = 2 /\ Z.abs dz = 2)).
  { intros dx dz Hx Hz.
    assert (Ex : dx = -2 \/ dx = -1 \/ dx = 0 \/ dx = 1 \/ dx = 2) by lia.
    assert (Ez : dz = -2 \/ dz = -1 \/ dz = 0 \/ dz = 1 \/ dz = 2) by lia.
    destruct Ex as [ -> | [ -> | [ -> | [ -> | -> ] ] ] ];
      destruct Ez as [ -> | [ -> | [ -> | [ -> | -> ] ] ] ];
      vm_compute;
      (split; [ intros H; try discriminate H; split; reflexivity
              | intros [H1 H2]; try discriminate H1; try discriminate H2;
                reflexivity ]). }
  assert (Hscan : interact self e
                  = scan self (round (vx (position (player (game self)))))
                      (round (vz (position (player (game self))))) reach e).
  { unfold interact, reach. apply scan_reach. }
  split; [ exact Hcorner | ].
  split.
  { intros dx dz. unfold reach.
    rewrite list_elem_of_In, filter_In, <- list_elem_of_In. cbn [fst snd].
    assert (Hoff : (dx, dz) ∈ offsets <-> -2 <= dx <= 2 /\ -2 <= dz <= 2).
    { unfold offsets. rewrite list_elem_of_In, in_flat_map. split.
      - intros (a & Ha & Hb). apply in_map_iff in Hb as (b & Hab & Hb).
        inversion Hab; subst a b.
        apply list_elem_of_In, elem_of_range in Ha.
        apply list_elem_of_In, elem_of_range in Hb. lia.
      - intros [Hx Hz]. exists dx. split.
        + apply list_elem_of_In, elem_of_range. lia.
        + apply in_map_iff. exists dz. split; [ reflexivity | ].
          apply list_elem_of_In, elem_of_range. lia. }
    rewrite Hoff, negb_true_iff. split.
    - intros [[Hx Hz] Hout]. split; [ exact Hx | ]. split; [ exact Hz | ].
      intros Hc. apply (Hcorner dx dz Hx Hz) in Hc. congruence.
    - intros (Hx & Hz & Hc). split; [ split; assumption | ].
      destruct (out_of_reach dx dz) eqn:Hout; [ | reflexivity ].
      exfalso. apply Hc. apply (Hcorner dx dz Hx Hz). exact Hout. }
  split.
  - intros Hall. rewrite Hscan. rewrite <- (app_nil_r reach).
    rewrite scan_skip by exact Hall. reflexivity.
  - intros before d after Hsplit Hbefore.
    assert (Hd : out_of_reach d.1 d.2 = false).
    { apply reach_in_reach. rewrite Hsplit. apply elem_of_app. right. left. }
    rewrite Hscan, Hsplit, scan_skip by exact Hbefore.
    destruct d as [dx dz]. cbn [fst snd] in Hd. cbn [scan]. rewrite Hd.
    unfold cell_at. cbn [fst snd]. subst m.
    destruct (look_at _ _); [ reflexivity | reflexivity | exact I ].
Qed.

(** From a new game on, whatever the places the player interacts at, one
    after the other, and whatever the draws: [interact] returns every
    time, with no [KeyError]; the life points stay within the maximum,
    which is 5 at least and grows by one a level at most; the level is
    the experience over 100 and one; the game stops at the latest when
    the life points are used up; the victories of the statistics are the
    defeated monsters of the map; and the points are 25 a victory and 25
    more a heroic one, less 10 a recorded defeat, and the coins that the
    messages of the treasures announce. *)
Theorem play_keeps_the_books (self : Session) (places : list (R * R))
    (e : entropy) :
  new_game self ->
  exists self' e',
    play self places e = Ok (self', Returned, e') /\
    let p := player (game self') in
    let s := stats self' in
    hp p <= max_hp p /\ 5 <= max_hp p <= level p + 4 /\
    level p = experience p / 100 + 1 /\
    (running self' = true -> 0 < hp p) /\
    Z.of_nat (size (defeated_monsters (maze_map (game self')))) = gyozelmek s /\
    pontok s
    = 25 * gyozelmek s + 25 * heroikus_gyozelmek s - 10 * veresegek s
      + coin_total (messages self').
Proof.
  intros Hnew.
  destruct (play_inv places self e (new_game_inv self Hnew))
    as (self' & e' & Heq & Hinv).
  exists self', e'. split; [ exact Heq | ]. cbv zeta.
  destruct Hinv as (Hhp & Hmax & Hlevel & _ & Hrun & _ & Hstats & Hcount).
  split; [ exact Hhp | ]. split; [ exact Hmax | ]. split; [ exact Hlevel | ].
  split; [ exact Hrun | ]. split; [ exact Hcount | ].
  destruct Hstats as (_ & _ & _ & _ & _ & _ & _ & _ & _ & _ & Hpoints).
  unfold add_points in Hpoints.
  cbn [pontok gyozelmek heroikus_gyozelmek veresegek] in Hpoints. lia.
Qed.

(** The new game on the small map, the player at the monster and then at
    the treasure. *)
Lemma play_keeps_the_books_witness :
  new_game small_game /\
  exists self' e',
    play small_game [(1, 1); (3, 3)]%R [] = Ok (self', Returned, e') /\
    hp (player (game self')) <= max_hp (player (game self')).
Proof.
  assert (Hnew : new_game small_game).
  { unfold new_game, small_game, small_map.
    cbn [weapon stats running messages game player maze_map monsters
         Player_init hp max_hp experience level].
    repeat (split; [ reflexivity | ]).
    intros c monster Hc.
    apply lookup_insert_Some in Hc as [[_ <-]|[_ Hc]]; [ reflexivity | ].
    rewrite lookup_empty in Hc. discriminate Hc. }
  split; [ exact Hnew | ].
  destruct (play_keeps_the_books small_game [(1, 1); (3, 3)]%R [] Hnew)
    as (self' & e' & Heq & Hhp & _).
  exists self', e'. split; [ exact Heq | exact Hhp ].
Defined.

End SessionTheorems.
